(** * picomatch: glob matchers, their regular expressions and path helpers

    A shallow embedding of [node_modules/picomatch/lib/picomatch.js], the
    properties its specification states about it, and further properties
    of the code.

    The file models, in this order:
    - the JavaScript values the library receives, and exceptions;
    - [Path]: the POSIX flavour of Node's [path] module;
    - [ES]: a fragment of ECMAScript regular expressions (syntax, a
      pushdown recogniser for sources, backtracking match semantics);
    - the host interface ([Runtime]) and picomatch's sibling modules
      ([Siblings]: [scan], [parse], [parse.fastpaths], [utils.isWindows]),
      which are not part of the embedded file and are taken as parameters;
    - the functions of [picomatch.js] themselves;
    - the lemmas and the theorems about them.

    Strings are sequences of code units below 256. *)

From Stdlib Require Import String Ascii List Bool Arith Lia.
Import ListNotations.
Open Scope list_scope.
Open Scope string_scope.

Set Implicit Arguments.
Set Warnings "-register-all".

(* ------------------------------------------------------------------ *)
(** * JavaScript values and exceptions *)

(** The values a caller can pass where a pattern or an input is expected:
    a string, an array, or anything else (number, null, undefined, object),
    of which only the truthiness is observed. *)
Inductive JsVal : Type :=
| JStr (s : string)
| JArr (l : list JsVal)
| JOther (truthy : bool).

Definition truthy (v : JsVal) : bool :=
  match v with
  | JStr s => negb (s =? "")
  | JArr _ => true
  | JOther t => t
  end.

Inductive Error : Type :=
| TypeError (msg : string)
| SyntaxError.

(** A computation that returns or throws. *)
Definition Res (A : Type) : Type := (Error + A)%type.

Definition ret {A} (a : A) : Res A := inr a.
Definition throw {A} (e : Error) : Res A := inl e.
Definition bind {A B} (m : Res A) (k : A -> Res B) : Res B :=
  match m with
  | inl e => inl e
  | inr a => k a
  end.

Notation "x <- m ;; k" := (bind m (fun x => k))
  (at level 61, m at next level, right associativity).

(* ------------------------------------------------------------------ *)
(** * String helpers *)

Fixpoint starts_with (p s : string) : bool :=
  match p with
  | EmptyString => true
  | String a p' =>
      match s with
      | EmptyString => false
      | String b s' => (a =? b)%char && starts_with p' s'
      end
  end.

Fixpoint ends_with (p s : string) : bool :=
  (s =? p) || match s with
              | EmptyString => false
              | String _ s' => ends_with p s'
              end.

Fixpoint string_exists (f : ascii -> bool) (s : string) : bool :=
  match s with
  | EmptyString => false
  | String c s' => f c || string_exists f s'
  end.

(** [toPosixSlashes] (line 7): [str.replace(/\\/g, '/')] *)
Fixpoint toPosixSlashes (str : string) : string :=
  match str with
  | EmptyString => EmptyString
  | String c s => String (if (c =? "\")%char then "/"%char else c) (toPosixSlashes s)
  end.

(* ------------------------------------------------------------------ *)
(** * Node's [path.posix]

    [path.posix.join], [resolve] and [basename] as Node's [lib/path.js]
    computes them, on the segments of a path rather than character by
    character.  The arguments are strings; [resolve] takes the working
    directory it falls back on as an argument. *)

Module Path.

(** The segments of a path, the empty ones included: [s.split('/')]. *)
Fixpoint split (s : string) : list string :=
  match s with
  | EmptyString => [""]
  | String c s' =>
      if (c =? "/")%char then "" :: split s'
      else match split s' with
           | h :: t => String c h :: t
           | [] => [String c ""]
           end
  end.

(** One segment of [normalizeString]; [res] is the stack of kept segments,
    last one first. *)
Definition normalize_step (allowAboveRoot : bool) (res : list string) (seg : string)
  : list string :=
  if (seg =? "") || (seg =? ".") then res
  else if seg =? ".." then
    match res with
    | last :: res' =>
        if last =? ".." then (if allowAboveRoot then ".." :: res else res)
        else res'
    | [] => if allowAboveRoot then [".."] else []
    end
  else seg :: res.

(** [normalizeString]: the path without its [.] and empty segments, and
    with each [..] resolved against the segment before it. *)
Definition normalizeString (path : string) (allowAboveRoot : bool) : string :=
  String.concat "/" (rev (fold_left (normalize_step allowAboveRoot) (split path) [])).

Definition isAbsolute (path : string) : bool := starts_with "/" path.

Definition normalize (path : string) : string :=
  if path =? "" then "."
  else
    let isAbs := isAbsolute path in
    let trailingSeparator := ends_with "/" path in
    let p := normalizeString path (negb isAbs) in
    if p =? "" then
      (if isAbs then "/" else if trailingSeparator then "./" else ".")
    else
      (if isAbs then "/" else "") ++ p ++ (if trailingSeparator then "/" else "").

(** [path.posix.join(...args)]: the non-empty arguments, joined by a slash
    and normalized. *)
Definition join (args : list string) : string :=
  match filter (fun a => negb (a =? "")) args with
  | [] => "."
  | parts => normalize (String.concat "/" parts)
  end.

(** The loop of [resolve], from the last argument to the first and then
    the working directory, until an absolute path is met. *)
Fixpoint resolve_loop (paths : list string) (resolvedPath : string) : string * bool :=
  match paths with
  | [] => (resolvedPath, false)
  | path :: rest =>
      if path =? "" then resolve_loop rest resolvedPath
      else
        let resolvedPath := path ++ "/" ++ resolvedPath in
        if isAbsolute path then (resolvedPath, true)
        else resolve_loop rest resolvedPath
  end.

(** [path.posix.resolve(...args)] *)
Definition resolve (cwd : string) (args : list string) : string :=
  let '(resolvedPath, resolvedAbsolute) := resolve_loop (rev args ++ [cwd]) "" in
  let resolvedPath := normalizeString resolvedPath (negb resolvedAbsolute) in
  if resolvedAbsolute then "/" ++ resolvedPath
  else if resolvedPath =? "" then "." else resolvedPath.

(** [path.posix.basename(path)]: the last non-empty segment, if any. *)
Definition basename (path : string) : string :=
  last (filter (fun a => negb (a =? "")) (split path)) "".

End Path.

(* ------------------------------------------------------------------ *)
(** * A fragment of ECMAScript regular expressions

    Sources are recognised by a pushdown automaton that reads one code unit
    at a time; a source outside the fragment (counted repetition, class
    escapes such as [\d], back references, named groups, look-behind,
    flags other than [i]) is told apart from a malformed one by the
    recogniser and rejected like it by [compile].  Matching is
    the backtracking semantics of the language: [ends] lists, in the order
    the engine tries them, the positions where a match that starts at a
    given position can end. *)

Module ES.

Local Open Scope nat_scope.

Inductive quant : Type := Star | Plus | Opt.

Inductive re : Type :=
| Empty
| Chr (c : ascii)
| Any
| Class (neg : bool) (rs : list (ascii * ascii))
| Bol
| Eol
| Seq (a b : re)
| Alt (a b : re)
| Group (r : re)
| Look (positive : bool) (r : re)
| Quant (q : quant) (lazy : bool) (r : re).

Inductive group_kind : Type := Capture | NonCapture | LookPos | LookNeg.

(** The alternatives already closed and the terms of the open alternative,
    both most recent first. *)
Record frame : Type := { alts : list re; terms : list re }.

Inductive mode : Type :=
| Normal
| Escape
| Open1
| Open2
| Quantified
| ClassStart
| ClassBody (neg : bool) (items : list (bool * ascii))
| ClassEscape (neg : bool) (items : list (bool * ascii)).

Record pstate : Type :=
  { pmode : mode; stack : list (group_kind * frame); top : frame }.

Definition init : pstate :=
  {| pmode := Normal; stack := []; top := {| alts := []; terms := [] |} |}.

Definition seq_of (l : list re) : re := fold_right Seq Empty l.

Fixpoint alt_of (l : list re) : re :=
  match l with
  | [] => Empty
  | [a] => a
  | a :: l' => Alt a (alt_of l')
  end.

Definition finish (f : frame) : re :=
  alt_of (rev (seq_of (rev (terms f)) :: alts f)).

Definition close (k : group_kind) (r : re) : re :=
  match k with
  | Capture | NonCapture => Group r
  | LookPos => Look true r
  | LookNeg => Look false r
  end.

Definition quantifiable (r : re) : bool :=
  match r with
  | Chr _ | Any | Class _ _ | Group _ => true
  | _ => false
  end.

Definition set_mode (m : mode) (st : pstate) : pstate :=
  {| pmode := m; stack := stack st; top := top st |}.

Definition push (t : re) (st : pstate) : pstate :=
  {| pmode := Normal; stack := stack st;
     top := {| alts := alts (top st); terms := t :: terms (top st) |} |}.

Definition open (k : group_kind) (st : pstate) : pstate :=
  {| pmode := Normal; stack := (k, top st) :: stack st;
     top := {| alts := []; terms := [] |} |}.

(** What the recogniser answers: a result, or that the source is
    malformed (the engine throws a [SyntaxError]), or that it uses syntax
    outside the fragment. *)
Inductive parsed (A : Type) : Type :=
| Ok (a : A)
| Malformed
| Unsupported.

Arguments Ok {A} a.
Arguments Malformed {A}.
Arguments Unsupported {A}.

(** A quantifier applies to the atom before it; after an assertion, after
    another quantifier or at the start of an alternative there is nothing
    to repeat.  (A quantified look-ahead is outside the fragment.) *)
Definition quantify (q : quant) (st : pstate) : parsed pstate :=
  match terms (top st) with
  | t :: ts =>
      if quantifiable t then
        Ok {| pmode := Quantified; stack := stack st;
              top := {| alts := alts (top st); terms := Quant q false t :: ts |} |}
      else match t with
           | Look _ _ => Unsupported
           | _ => Malformed
           end
  | [] => Malformed
  end.

Definition is_alnum (c : ascii) : bool :=
  let n := nat_of_ascii c in
  ((48 <=? n) && (n <=? 57)) || ((65 <=? n) && (n <=? 90))
  || ((97 <=? n) && (n <=? 122)) || (n =? 95).

(** [ClassRanges]: an atom, a dash and an atom make a range; the flag of an
    item tells an escaped character, which is never the dash of a range.
    [None]: a range out of order. *)
Fixpoint class_ranges (l : list (bool * ascii)) : option (list (ascii * ascii)) :=
  match l with
  | [] => Some []
  | (_, a) :: l1 =>
      let single := option_map (cons (a, a)) (class_ranges l1) in
      match l1 with
      | (false, d) :: (_, b) :: l2 =>
          if (d =? "-")%char then
            if nat_of_ascii a <=? nat_of_ascii b
            then option_map (cons (a, b)) (class_ranges l2)
            else None
          else single
      | _ => single
      end
  end.

Definition step_normal (st : pstate) (c : ascii) : parsed pstate :=
  if (c =? "\")%char then Ok (set_mode Escape st)
  else if (c =? "(")%char then Ok (set_mode Open1 st)
  else if (c =? ")")%char then
    match stack st with
    | (k, parent) :: stk =>
        Ok {| pmode := Normal; stack := stk;
              top := {| alts := alts parent;
                        terms := close k (finish (top st)) :: terms parent |} |}
    | [] => Malformed
    end
  else if (c =? "|")%char then
    Ok {| pmode := Normal; stack := stack st;
          top := {| alts := seq_of (rev (terms (top st))) :: alts (top st);
                    terms := [] |} |}
  else if (c =? "*")%char then quantify Star st
  else if (c =? "+")%char then quantify Plus st
  else if (c =? "?")%char then quantify Opt st
  else if (c =? "[")%char then Ok (set_mode ClassStart st)
  else if (c =? "]")%char || (c =? "{")%char || (c =? "}")%char then Unsupported
  else if (c =? ".")%char then Ok (push Any st)
  else if (c =? "^")%char then Ok (push Bol st)
  else if (c =? "$")%char then Ok (push Eol st)
  else Ok (push (Chr c) st).

Definition step_class (neg : bool) (items : list (bool * ascii)) (st : pstate) (c : ascii)
  : parsed pstate :=
  if (c =? "]")%char then
    match class_ranges (rev items) with
    | Some rs => Ok (push (Class neg rs) st)
    | None => Malformed
    end
  else if (c =? "\")%char then Ok (set_mode (ClassEscape neg items) st)
  else Ok (set_mode (ClassBody neg ((false, c) :: items)) st).

(** One code unit of the source.  An escaped letter, digit or underscore
    (a class escape, a control escape, a back reference) and a group that
    starts with [(?<] are outside the fragment. *)
Definition step (st : pstate) (c : ascii) : parsed pstate :=
  match pmode st with
  | Normal => step_normal st c
  | Quantified =>
      if (c =? "?")%char then
        match terms (top st) with
        | Quant q false t :: ts =>
            Ok {| pmode := Normal; stack := stack st;
                  top := {| alts := alts (top st); terms := Quant q true t :: ts |} |}
        | _ => Malformed
        end
      else step_normal (set_mode Normal st) c
  | Escape => if is_alnum c then Unsupported else Ok (push (Chr c) st)
  | Open1 =>
      if (c =? "?")%char then Ok (set_mode Open2 st)
      else step_normal (open Capture st) c
  | Open2 =>
      if (c =? ":")%char then Ok (open NonCapture st)
      else if (c =? "=")%char then Ok (open LookPos st)
      else if (c =? "!")%char then Ok (open LookNeg st)
      else if (c =? "<")%char then Unsupported
      else Malformed
  | ClassStart =>
      if (c =? "^")%char then Ok (set_mode (ClassBody true []) st)
      else step_class false [] st c
  | ClassBody neg items => step_class neg items st c
  | ClassEscape neg items =>
      if is_alnum c then Unsupported
      else Ok (set_mode (ClassBody neg ((true, c) :: items)) st)
  end.

Fixpoint run (st : pstate) (s : list ascii) : parsed pstate :=
  match s with
  | [] => Ok st
  | c :: s' =>
      match step st c with
      | Ok st' => run st' s'
      | Malformed => Malformed
      | Unsupported => Unsupported
      end
  end.

(** At the end of the source no group, class or escape may be open. *)
Definition finalize (st : pstate) : parsed re :=
  match pmode st, stack st with
  | Normal, [] | Quantified, [] => Ok (finish (top st))
  | _, _ => Malformed
  end.

Definition parse_source (src : string) : parsed re :=
  match run init (list_ascii_of_string src) with
  | Ok st => finalize st
  | Malformed => Malformed
  | Unsupported => Unsupported
  end.

(** The same state above a deeper stack. *)
Definition under (below : list (group_kind * frame)) (st : pstate) : pstate :=
  {| pmode := pmode st; stack := (stack st ++ below)%list; top := top st |}.

(** The state after a run of literal characters. *)
Definition push_chars (l : list ascii) (st : pstate) : pstate :=
  {| pmode := Normal; stack := stack st;
     top := {| alts := alts (top st);
               terms := (rev (map Chr l) ++ terms (top st))%list |} |}.

(** ** Matching *)

Definition line_terminator (c : ascii) : bool :=
  (c =? "010")%char || (c =? "013")%char.

Definition is_lower (n : nat) : bool :=
  ((97 <=? n) && (n <=? 122)) || ((224 <=? n) && (n <=? 254) && negb (n =? 247)).

Definition is_upper (n : nat) : bool :=
  ((65 <=? n) && (n <=? 90)) || ((192 <=? n) && (n <=? 222) && negb (n =? 215)).

(** [Canonicalize] on code units below 256, as a number. *)
Definition canon (c : ascii) : nat :=
  let n := nat_of_ascii c in if is_lower n then n - 32 else n.

Definition lower (c : ascii) : nat :=
  let n := nat_of_ascii c in if is_upper n then n + 32 else n.

Definition same_char (ic : bool) (c d : ascii) : bool :=
  if ic then canon c =? canon d else (c =? d)%char.

Definition in_ranges (n : nat) (rs : list (ascii * ascii)) : bool :=
  existsb (fun r => (nat_of_ascii (fst r) <=? n) && (n <=? nat_of_ascii (snd r))) rs.

Definition in_class (ic : bool) (d : ascii) (rs : list (ascii * ascii)) : bool :=
  in_ranges (nat_of_ascii d) rs
  || (ic && (in_ranges (canon d) rs || in_ranges (lower d) rs)).

Definition one (ok : ascii -> bool) (s : list ascii) (i : nat) : list nat :=
  match nth_error s i with
  | Some d => if ok d then [S i] else []
  | None => []
  end.

Section Iterate.

Variable once : nat -> list nat.
Variable lazy : bool.

(** Zero or more iterations from [j]; an iteration that consumes nothing
    is not taken. *)
Fixpoint star (n : nat) (j : nat) : list nat :=
  match n with
  | 0 => [j]
  | S n' =>
      let more := flat_map (star n') (filter (fun e => j <? e) (once j)) in
      if lazy then j :: more else (more ++ [j])%list
  end.

End Iterate.

Fixpoint ends (ic : bool) (s : list ascii) (r : re) (i : nat) {struct r} : list nat :=
  match r with
  | Empty => [i]
  | Chr c => one (same_char ic c) s i
  | Any => one (fun d => negb (line_terminator d)) s i
  | Class neg rs => one (fun d => xorb neg (in_class ic d rs)) s i
  | Bol => if i =? 0 then [i] else []
  | Eol => if i =? length s then [i] else []
  | Seq a b => flat_map (ends ic s b) (ends ic s a i)
  | Alt a b => (ends ic s a i ++ ends ic s b i)%list
  | Group a => ends ic s a i
  | Look positive a =>
      match ends ic s a i with
      | [] => if positive then [] else [i]
      | _ :: _ => if positive then [i] else []
      end
  | Quant q lazy a =>
      match q with
      | Star => star (ends ic s a) lazy (S (length s - i)) i
      | Plus => flat_map (star (ends ic s a) lazy (S (length s))) (ends ic s a i)
      | Opt =>
          let taken := filter (fun e => i <? e) (ends ic s a i) in
          if lazy then i :: taken else (taken ++ [i])%list
      end
  end.

Record regex : Type := { source : string; ignoreCase : bool; ast : re }.

Record ExecArray : Type := { index : nat; matched : string }.

Fixpoint exec_from (ic : bool) (s : list ascii) (r : re) (start n : nat)
  : option (nat * nat) :=
  match n with
  | 0 => None
  | S n' =>
      match ends ic s r start with
      | e :: _ => Some (start, e)
      | [] => exec_from ic s r (S start) n'
      end
  end.

(** [regex.exec(str)] of a regex without the [g] and [y] flags. *)
Definition exec (rx : regex) (str : string) : option ExecArray :=
  let s := list_ascii_of_string str in
  match exec_from (ignoreCase rx) s (ast rx) 0 (S (length s)) with
  | Some (b, e) => Some {| index := b; matched := substring b (e - b) str |}
  | None => None
  end.

(** [new RegExp(source, flags)]; [None] is the thrown [SyntaxError].  A
    source or a flag outside the fragment is rejected like a malformed
    one: what is stated of a rejected source is stated of a malformed one
    ([parse_source src = Malformed]). *)
Definition compile (src flags : string) : option regex :=
  match parse_source src with
  | Ok r =>
      if (flags =? "")%string then Some {| source := src; ignoreCase := false; ast := r |}
      else if (flags =? "i")%string then Some {| source := src; ignoreCase := true; ast := r |}
      else None
  | Malformed | Unsupported => None
  end.

(** The regex literal [/$^/]. *)
Definition never : regex :=
  {| source := "$^"; ignoreCase := false; ast := Seq Eol (Seq Bol Empty) |}.

(** ** Regex objects

    A regex object: the regex, its [g] and [y] flags and its [lastIndex]. *)
Record object : Type :=
  { rx : regex; global : bool; sticky : bool; lastIndex : nat }.

(** [RegExpBuiltinExec]: what [exec] returns on the object, and the
    [lastIndex] it leaves.  Without [g] and [y] the search starts at 0 and
    [lastIndex] is left as it is; with one of them the search starts at
    [lastIndex] (and with [y] stays there), and [lastIndex] becomes the end
    of the match, or 0 when there is none. *)
Definition exec_at (o : object) (str : string) : option ExecArray * nat :=
  let s := list_ascii_of_string str in
  let stateful := global o || sticky o in
  let start := if stateful then lastIndex o else 0 in
  let found :=
    if length s <? start then None
    else if sticky o then
      match ends (ignoreCase (rx o)) s (ast (rx o)) start with
      | e :: _ => Some (start, e)
      | [] => None
      end
    else exec_from (ignoreCase (rx o)) s (ast (rx o)) start (S (length s - start)) in
  match found with
  | Some (b, e) =>
      (Some {| index := b; matched := substring b (e - b) str |},
       if stateful then e else lastIndex o)
  | None => (None, if stateful then 0 else lastIndex o)
  end.

(** The flags [g], [i] and [y], each at most once. *)
Fixpoint flags_ok (flags : string) : bool :=
  match flags with
  | EmptyString => true
  | String c rest =>
      existsb (Ascii.eqb c) ["g"; "i"; "y"]%char
      && negb (string_exists (Ascii.eqb c) rest)
      && flags_ok rest
  end.

(** [new RegExp(source, flags)] as an object, with [lastIndex] 0; a source
    or a flag outside the fragment is rejected like a malformed one. *)
Definition compile_object (src flags : string) : option object :=
  match parse_source src with
  | Ok r =>
      if flags_ok flags then
        Some {| rx := {| source := src;
                         ignoreCase := string_exists (Ascii.eqb "i") flags;
                         ast := r |};
                global := string_exists (Ascii.eqb "g") flags;
                sticky := string_exists (Ascii.eqb "y") flags;
                lastIndex := 0 |}
      else None
  | Malformed | Unsupported => None
  end.

End ES.

(* ------------------------------------------------------------------ *)
(** * The host and the sibling modules *)

(** What [picomatch.js] uses of the JavaScript runtime and of Node:
    regular expressions, the host flavour of [path] and the working
    directory.  [RegExp_new source flags] is [new RegExp(source, flags)],
    [None] when it throws; [RegExp_exec] is what [regex.exec(str)] returns,
    a function of the regex object as it is when [exec] is called and of
    the string.  One call of a matcher calls [exec] at most once on each of
    its regex objects, so that inside a call the objects are the ones the
    call starts with.  A regex built with the [g] or [y] flag keeps a
    [lastIndex] that [exec] changes, so that the next call starts with
    another object: what relates several calls is stated of flags without
    [g] and [y] ([stateless_flags]); [RegExp_never] is
    the value of the literal [/$^/]; [posix_cwd] is the directory
    [path.posix.resolve] falls back on. *)
Class Runtime : Type :=
  { RegExp : Type;
    ExecArray : Type;
    RegExp_new : string -> string -> option RegExp;
    RegExp_exec : RegExp -> string -> option ExecArray;
    RegExp_never : RegExp;
    path_basename : string -> string;
    path_resolve : string -> string -> string;
    process_cwd : string;
    posix_cwd : string }.

(** The compiler state: [{ negated: false, fastpaths: true }] in [makeRe],
    or what [parse] returns. *)
Module State.
Record t : Type := { output : option string; negated : bool; fastpaths : bool }.
End State.

(** The options object; an absent options argument is the empty object.
    A callback field tells whether the option is a function. *)
Module Options.
Record t : Type :=
  { ignore : option JsVal;
    onMatch : bool;
    onIgnore : bool;
    onResult : bool;
    format : option (string -> string);
    capture : bool;
    matchBase : bool;
    basename : bool;
    nocase : bool;
    flags : string;
    contains : bool;
    strictSlashes : bool;
    fastpaths : bool;
    debug : bool;
    cwd : string }.

Definition empty : t :=
  {| ignore := None; onMatch := false; onIgnore := false; onResult := false;
     format := None; capture := false; matchBase := false; basename := false;
     nocase := false; flags := ""; contains := false; strictSlashes := false;
     fastpaths := true; debug := false; cwd := "" |}.

(** [{ ignore: patterns }] on top of [o] *)
Definition with_ignore (patterns : JsVal) (o : t) : t :=
  {| ignore := Some patterns; onMatch := onMatch o; onIgnore := onIgnore o;
     onResult := onResult o; format := format o; capture := capture o;
     matchBase := matchBase o; basename := basename o; nocase := nocase o;
     flags := flags o; contains := contains o; strictSlashes := strictSlashes o;
     fastpaths := fastpaths o; debug := debug o; cwd := cwd o |}.

(** [{ matchBase: true }] on top of [o] *)
Definition with_matchBase (o : t) : t :=
  {| ignore := ignore o; onMatch := onMatch o; onIgnore := onIgnore o;
     onResult := onResult o; format := format o; capture := capture o;
     matchBase := true; basename := basename o; nocase := nocase o;
     flags := flags o; contains := contains o; strictSlashes := strictSlashes o;
     fastpaths := fastpaths o; debug := debug o; cwd := cwd o |}.

(** [{ contains: true }] on top of [o] *)
Definition with_contains (o : t) : t :=
  {| ignore := ignore o; onMatch := onMatch o; onIgnore := onIgnore o;
     onResult := onResult o; format := format o; capture := capture o;
     matchBase := matchBase o; basename := basename o; nocase := nocase o;
     flags := flags o; contains := true; strictSlashes := strictSlashes o;
     fastpaths := fastpaths o; debug := debug o; cwd := cwd o |}.

(** [{ debug: true }] on top of [o] *)
Definition with_debug (o : t) : t :=
  {| ignore := ignore o; onMatch := onMatch o; onIgnore := onIgnore o;
     onResult := onResult o; format := format o; capture := capture o;
     matchBase := matchBase o; basename := basename o; nocase := nocase o;
     flags := flags o; contains := contains o; strictSlashes := strictSlashes o;
     fastpaths := fastpaths o; debug := true; cwd := cwd o |}.

(** [{ ...options, ignore: null, onMatch: null }] *)
Definition for_ignore (o : t) : t :=
  {| ignore := None; onMatch := false; onIgnore := onIgnore o; onResult := onResult o;
     format := format o; capture := capture o; matchBase := matchBase o;
     basename := basename o; nocase := nocase o; flags := flags o;
     contains := contains o; strictSlashes := strictSlashes o;
     fastpaths := fastpaths o; debug := debug o; cwd := cwd o |}.
(** [{ onMatch, onIgnore, onResult }], three functions, on top of [o] *)
Definition with_callbacks (o : t) : t :=
  {| ignore := ignore o; onMatch := true; onIgnore := true; onResult := true;
     format := format o; capture := capture o; matchBase := matchBase o;
     basename := basename o; nocase := nocase o; flags := flags o;
     contains := contains o; strictSlashes := strictSlashes o;
     fastpaths := fastpaths o; debug := debug o; cwd := cwd o |}.

(** [{ nocase: true }] on top of [o] *)
Definition with_nocase (o : t) : t :=
  {| ignore := ignore o; onMatch := onMatch o; onIgnore := onIgnore o;
     onResult := onResult o; format := format o; capture := capture o;
     matchBase := matchBase o; basename := basename o; nocase := true;
     flags := flags o; contains := contains o; strictSlashes := strictSlashes o;
     fastpaths := fastpaths o; debug := debug o; cwd := cwd o |}.

(** [{ flags }] on top of [o] *)
Definition with_flags (value : string) (o : t) : t :=
  {| ignore := ignore o; onMatch := onMatch o; onIgnore := onIgnore o;
     onResult := onResult o; format := format o; capture := capture o;
     matchBase := matchBase o; basename := basename o; nocase := nocase o;
     flags := value; contains := contains o; strictSlashes := strictSlashes o;
     fastpaths := fastpaths o; debug := debug o; cwd := cwd o |}.

(** [{ capture: true }] on top of [o] *)
Definition with_capture (o : t) : t :=
  {| ignore := ignore o; onMatch := onMatch o; onIgnore := onIgnore o;
     onResult := onResult o; format := format o; capture := true;
     matchBase := matchBase o; basename := basename o; nocase := nocase o;
     flags := flags o; contains := contains o; strictSlashes := strictSlashes o;
     fastpaths := fastpaths o; debug := debug o; cwd := cwd o |}.
End Options.

(** What [scan] returns, as far as [split] reads it. *)
Module Scan.
Record t : Type := { base : string; glob : string }.
End Scan.

(** The modules [./scan], [./parse] and [./utils], which [picomatch.js]
    requires (lines 4-6) and which are not part of the embedded file; they
    are taken to be functions of their arguments that return normally. *)
Class Siblings : Type :=
  { scan : string -> Options.t -> Scan.t;
    parse : string -> Options.t -> State.t;
    parse_fastpaths : string -> Options.t -> option string;
    utils_isWindows : Options.t -> bool }.

(** ** The values of [picomatch.js] *)

(** A regex object with the [state] property [makeRe] may attach. *)
Module Regex.
Record t {R : Runtime} : Type := { re : RegExp; state : option State.t }.
End Regex.

(** The value of [match]: not set, a boolean, or what [exec] returned. *)
Inductive MatchVal {R : Runtime} : Type :=
| MUndefined
| MBool (b : bool)
| MExec (m : option ExecArray).

Definition match_truthy {R : Runtime} (m : MatchVal) : bool :=
  match m with
  | MUndefined => false
  | MBool b => b
  | MExec (Some _) => true
  | MExec None => false
  end.

(** What [picomatch.test] returns. *)
Module TestResult.
Record t {R : Runtime} : Type := { isMatch : bool; match_ : MatchVal; output : string }.
End TestResult.

(** The [result] object of a matcher. *)
Module Result.
Record t {R : Runtime} : Type :=
  { glob : string;
    state : option State.t;
    regex : Regex.t;
    posix : bool;
    input : string;
    output : string;
    match_ : MatchVal;
    isMatch : bool }.

Definition set_isMatch {R : Runtime} (b : bool) (r : t) : t :=
  {| glob := glob r; state := state r; regex := regex r; posix := posix r;
     input := input r; output := output r; match_ := match_ r; isMatch := b |}.
End Result.

(** A call of one of the callbacks of the options. *)
Inductive Event {R : Runtime} : Type :=
| OnResult (r : Result.t)
| OnIgnore (r : Result.t)
| OnMatch (r : Result.t).

(** What a matcher returns: a boolean or the result object. *)
Inductive Returned {R : Runtime} : Type :=
| RBool (b : bool)
| RObject (r : Result.t).

Definition returned_truthy {R : Runtime} (v : Returned) : bool :=
  match v with
  | RBool b => b
  | RObject _ => true
  end.

(** A computation that calls callbacks, then returns or throws.  The
    callbacks are taken to return normally and to leave the result object
    as it is. *)
Definition Run {R : Runtime} (A : Type) : Type := (list Event * Res A)%type.

Definition run_ret {R : Runtime} {A} (a : A) : Run A := ([], inr a).
Definition run_lift {R : Runtime} {A} (m : Res A) : Run A := ([], m).
Definition emit {R : Runtime} (enabled : bool) (e : Event) : Run unit :=
  (if enabled then [e] else [], inr tt).
Definition run_bind {R : Runtime} {A B} (m : Run A) (k : A -> Run B) : Run B :=
  match snd m with
  | inl e => (fst m, inl e)
  | inr a => ((fst m ++ fst (k a))%list, snd (k a))
  end.

Notation "x <~ m ;; k" := (run_bind m (fun x => k))
  (at level 61, m at next level, right associativity).

(** A matcher function, with the [state] property the factory may set. *)
Module Matcher.
Record t {R : Runtime} : Type :=
  { call : JsVal -> bool -> Run Returned;
    state : option State.t }.
End Matcher.

(** What [makeRe] returns: the output when [returnOutput] is true, else
    the regex. *)
Inductive MakeRe {R : Runtime} : Type :=
| ReOutput (output : option string)
| ReRegex (regex : Regex.t).

(** The [{ glob, posix }] argument of [picomatch.test]. *)
Module Ctx.
Record t : Type := { glob : option string; posix : option bool }.
Definition empty : t := {| glob := None; posix := None |}.
End Ctx.

(** What [picomatch.split] returns. *)
Module Split.
Record t : Type := { base : string; glob : string; cwd : string }.
End Split.

(* ------------------------------------------------------------------ *)
(** * picomatch.js *)

(** [/[-![$*+?^{}(|)\\\]]/.test(input)] *)
Definition glob_char (c : ascii) : bool :=
  existsb (Ascii.eqb c) (list_ascii_of_string "-![$*+?^{}(|)\]").

Definition has_glob_chars (input : string) : bool := string_exists glob_char input.

(** [input.replace(/([./])/g, '\\$1')] *)
Fixpoint escape_dot_slash (input : string) : string :=
  match input with
  | EmptyString => EmptyString
  | String c s =>
      if (c =? ".")%char || (c =? "/")%char
      then String "\" (String c (escape_dot_slash s))
      else String c (escape_dot_slash s)
  end.

(** [input.startsWith('./') ? input.slice(2) : input] *)
Definition strip_dot_slash (input : string) : string :=
  if starts_with "./" input then substring 2 (String.length input - 2) input else input.

(** A value inside a template literal. *)
Definition interpolate (v : option string) : string :=
  match v with
  | Some s => s
  | None => "undefined"
  end.

Definition first_char_in (s : string) (cs : list ascii) : bool :=
  match s with
  | String c _ => existsb (Ascii.eqb c) cs
  | EmptyString => false
  end.

(** [args.pop()]: the last element and the array without it. *)
Definition pop {A} (args : list A) : option A * list A :=
  (last (map Some args) None, removelast args).

Section MapM.
Variables (A B : Type) (f : A -> Res B).
Fixpoint map_res (l : list A) : Res (list B) :=
  match l with
  | [] => ret []
  | a :: l' => b <- f a ;; bs <- map_res l' ;; ret (b :: bs)
  end.
End MapM.

Section Picomatch.

Context {R : Runtime} {S : Siblings}.

(** [picomatch.parse] and [picomatch.scan] (lines 162 and 178) *)
Definition picomatch_parse (input : string) (options : Options.t) : State.t :=
  parse input options.

Definition picomatch_scan (input : string) (options : Options.t) : Scan.t :=
  scan input options.

(** [opts.flags || (opts.nocase ? 'i' : '')] (line 297) *)
Definition regex_flags (options : Options.t) : string :=
  let opts := options in
  if Options.flags opts =? "" then (if Options.nocase opts then "i" else "")
  else Options.flags opts.

(** [picomatch.toRegex] (lines 294-302) *)
Definition toRegex (source : string) (options : Options.t) : Res RegExp :=
  match RegExp_new source (regex_flags options) with
  | Some regex => ret regex
  | None =>
      if Options.debug options then throw SyntaxError
      else ret RegExp_never
  end.

(** [picomatch.makeRe], lines 252-275: the state and the output that the
    fast paths, the literal path or the Syntax Compiler give for a
    non-empty [input]. *)
Definition compile_output (input : string) (options : Options.t)
  : State.t * option string :=
  let opts := options in
  let state := {| State.output := None; State.negated := false;
                  State.fastpaths := true |} in
  let input := strip_dot_slash input in
  let output :=
    if Options.fastpaths opts && first_char_in input ["."; "*"]%char then
      match parse_fastpaths input options with
      | Some output =>
          if negb (output =? "") && negb (Options.strictSlashes opts)
          then Some (output ++ "\/?")
          else Some output
      | None => None
      end
    else None in
  let output :=
    match output with
    | None => if negb (has_glob_chars input) then Some (escape_dot_slash input)
              else None
    | Some _ => output
    end in
  match output with
  | None => let state := picomatch_parse input options in (state, State.output state)
  | Some _ => (state, output)
  end.

(** [picomatch.makeRe], lines 253-254 and 281-284: the source of the
    regex. *)
Definition assemble_source (state : State.t) (output : option string)
    (options : Options.t) : string :=
  let opts := options in
  let prefix := if Options.contains opts then "" else "^" in
  let suffix := if Options.contains opts then "" else "$" in
  let source := prefix ++ "(?:" ++ interpolate output ++ ")" ++ suffix in
  if State.negated state then "^(?!" ++ source ++ ").*$" else source.

(** [picomatch.makeRe] (lines 247-292) *)
Definition makeRe (input : JsVal) (options : Options.t) (returnOutput returnState : bool)
  : Res MakeRe :=
  match input with
  | JStr (String _ _ as input) =>
      let '(state, output) := compile_output input options in
      if returnOutput then ret (ReOutput output)
      else
        let source := assemble_source state output options in
        regex <- toRegex source options ;;
        ret (ReRegex {| Regex.re := regex;
                        Regex.state := if returnState then Some state else None |})
  | _ => throw (TypeError "Expected a non-empty string")
  end.

(** [picomatch.matchBase] (lines 119-127); [pattern] is a regex or a
    glob. *)
Definition matchBase (input : string) (pattern : Regex.t + JsVal) (options : Options.t)
    (posix : option bool) : Res bool :=
  let posix := match posix with
               | Some p => p
               | None => utils_isWindows options
               end in
  regex <- match pattern with
           | inl regex => ret regex
           | inr pattern =>
               made <- makeRe pattern options false false ;;
               match made with
               | ReRegex regex => ret regex
               | ReOutput _ => throw (TypeError "regex.exec is not a function")
               end
           end ;;
  let input := if posix then Path.basename input else path_basename input in
  ret (match RegExp_exec (Regex.re regex) input with
       | Some _ => true
       | None => false
       end).

(** [picomatch.test] (lines 89-117) *)
Definition test (input : JsVal) (regex : Regex.t) (options : Options.t) (ctx : Ctx.t)
  : Res TestResult.t :=
  match input with
  | JStr input =>
      if input =? "" then
        ret {| TestResult.isMatch := false; TestResult.match_ := MUndefined; TestResult.output := "" |}
      else
        let glob := Ctx.glob ctx in
        let posix := Ctx.posix ctx in
        let opts := options in
        let format :=
          match Options.format opts with
          | Some f => Some f
          | None => if match posix with Some p => p | None => false end
                    then Some toPosixSlashes else None
          end in
        let same (s : string) :=
          match glob with
          | Some g => s =? g
          | None => false
          end in
        let apply (s : string) :=
          match format with
          | Some f => f s
          | None => s
          end in
        let match_ := same input in
        let output := if match_ then apply input else input in
        let '(output, match_) :=
          if negb match_ then (apply input, same (apply input))
          else (output, match_) in
        match_ <-
          (if negb match_ || Options.capture opts then
             if Options.matchBase opts || Options.basename opts then
               b <- matchBase input (inl regex) options posix ;; ret (MBool b)
             else ret (MExec (RegExp_exec (Regex.re regex) output))
           else ret (MBool match_)) ;;
        ret {| TestResult.isMatch := match_truthy match_; TestResult.match_ := match_;
               TestResult.output := output |}
  | _ => throw (TypeError "Expected input to be a string")
  end.

(** The matcher of an array of patterns (lines 31-37); it takes the string
    only. *)
Fixpoint any_match (fns : list Matcher.t) (str : JsVal) : Run Returned :=
  match fns with
  | [] => run_ret (RBool false)
  | isMatch :: rest =>
      state <~ Matcher.call isMatch str false ;;
      if returned_truthy state then run_ret state
      else any_match rest str
  end.

(** [() => false] (line 50) *)
Definition not_ignored : Matcher.t :=
  {| Matcher.call := fun _ _ => run_ret (RBool false); Matcher.state := None |}.

(** The matcher of one pattern (lines 55-80). *)
Definition matcher (glob : string) (state : option State.t) (regex : Regex.t)
    (posix : bool) (options : Options.t) (isIgnored : Matcher.t)
    (input : JsVal) (returnObject : bool) : Run Returned :=
  let opts := options in
  t <~ run_lift (test input regex options
                   {| Ctx.glob := Some glob; Ctx.posix := Some posix |}) ;;
  let result :=
    {| Result.glob := glob; Result.state := state; Result.regex := regex;
       Result.posix := posix;
       Result.input := match input with JStr s => s | _ => "" end;
       Result.output := TestResult.output t; Result.match_ := TestResult.match_ t;
       Result.isMatch := TestResult.isMatch t |} in
  _ <~ emit (Options.onResult opts) (OnResult result) ;;
  if negb (TestResult.isMatch t) then
    run_ret (if returnObject then RObject (Result.set_isMatch false result)
             else RBool false)
  else
    ignored <~ Matcher.call isIgnored input false ;;
    if returned_truthy ignored then
      _ <~ emit (Options.onIgnore opts) (OnIgnore result) ;;
      run_ret (if returnObject then RObject (Result.set_isMatch false result)
               else RBool false)
    else
      _ <~ emit (Options.onMatch opts) (OnMatch result) ;;
      run_ret (if returnObject then RObject result else RBool true).

(** The factory (lines 28-87), with the construction of the ignore matcher
    left open: [ignoring] is the call [picomatch(opts.ignore, {...},
    returnState)] of line 52. *)
Fixpoint picomatch_with
    (ignoring : JsVal -> Options.t -> bool -> Res Matcher.t)
    (glob : JsVal) (options : Options.t) (returnState : bool) {struct glob}
  : Res Matcher.t :=
  match glob with
  | JArr globs =>
      fns <- map_res (fun input => picomatch_with ignoring input options returnState)
               globs ;;
      ret {| Matcher.call := fun str _ => any_match fns str; Matcher.state := None |}
  | JStr (String _ _ as glob) =>
      let opts := options in
      let posix := utils_isWindows options in
      made <- makeRe (JStr glob) options false true ;;
      match made with
      | ReOutput _ => throw (TypeError "regex.exec is not a function")
      | ReRegex regex =>
          let state := Regex.state regex in
          let regex := {| Regex.re := Regex.re regex; Regex.state := None |} in
          isIgnored <-
            match Options.ignore opts with
            | Some ignore =>
                if truthy ignore
                then ignoring ignore (Options.for_ignore options) returnState
                else ret not_ignored
            | None => ret not_ignored
            end ;;
          ret {| Matcher.call := matcher glob state regex posix options isIgnored;
                 Matcher.state := if returnState then state else None |}
      end
  | _ => throw (TypeError "Expected pattern to be a non-empty string")
  end.

(** [picomatch(glob, options, returnState)].  The ignore matcher is built
    from options whose [ignore] is null, so it builds no ignore matcher of
    its own; [picomatch_eq] below is the equation of the source. *)
Definition picomatch (glob : JsVal) (options : Options.t) (returnState : bool)
  : Res Matcher.t :=
  picomatch_with (picomatch_with (fun _ _ _ => ret not_ignored)) glob options returnState.

(** [picomatch.isMatch] (line 146): [picomatch(patterns, options)(str)] *)
Definition isMatch (str : JsVal) (patterns : JsVal) (options : Options.t)
  : Run Returned :=
  m <~ run_lift (picomatch patterns options false) ;;
  Matcher.call m str false.

(** [picomatch.split] (lines 190-201); the stripped [base] of line 194 is
    not used. *)
Definition split (pattern : string) (options : Options.t) : Split.t :=
  let state := scan pattern options in
  let cwd := if negb (Options.cwd options =? "") then Options.cwd options
             else process_cwd in
  let base := Scan.base state in
  let base := if starts_with "/" base then substring 1 (String.length base - 1) base
              else base in
  {| Split.base := Scan.base state;
     Split.glob := Scan.glob state;
     Split.cwd := path_resolve cwd (Scan.base state) |}.

(** [picomatch.join] (lines 211-215); [path.posix.join(base, glob)] throws
    when there is no [glob]. *)
Definition join (args : list string) : Res string :=
  let '(glob, args) := pop args in
  let base := toPosixSlashes (Path.join args) in
  match glob with
  | Some glob => ret (Path.join [base; glob])
  | None => throw (TypeError "The path argument must be of type string")
  end.

(** [picomatch.resolve] (lines 225-229) *)
Definition resolve (args : list string) : Res string :=
  let '(glob, args) := pop args in
  let base := toPosixSlashes (Path.resolve posix_cwd args) in
  match glob with
  | Some glob => ret (Path.join [base; glob])
  | None => throw (TypeError "The path argument must be of type string")
  end.

End Picomatch.

(* ------------------------------------------------------------------ *)
(** * A concrete host and stand-ins for the sibling modules *)

(** Node with the working directory [cwd], the regular expressions of [ES]
    and the POSIX flavour of [path]; [path.posix.resolve] falls back on
    [cwd] as it is. *)
Definition node (cwd : string) : Runtime :=
  {| RegExp := ES.regex;
     ExecArray := ES.ExecArray;
     RegExp_new := ES.compile;
     RegExp_exec := ES.exec;
     RegExp_never := ES.never;
     path_basename := Path.basename;
     path_resolve := fun from to => Path.resolve cwd [from; to];
     process_cwd := cwd;
     posix_cwd := cwd |}.

(** The same host with regex objects: a regex is the object with its [g]
    and [y] flags and its [lastIndex], as it is when [exec] is called on
    it; [ES.exec_at] tells the [lastIndex] that the call leaves. *)
Definition node_objects (cwd : string) : Runtime :=
  {| RegExp := ES.object;
     ExecArray := ES.ExecArray;
     RegExp_new := ES.compile_object;
     RegExp_exec := fun o str => fst (ES.exec_at o str);
     RegExp_never := {| ES.rx := ES.never; ES.global := false; ES.sticky := false;
                        ES.lastIndex := 0 |};
     path_basename := Path.basename;
     path_resolve := fun from to => Path.resolve cwd [from; to];
     process_cwd := cwd;
     posix_cwd := cwd |}.

(** Modelled from the spec: the fragment the Syntax Compiler ([./parse],
    not part of the embedded file) emits for a pattern, for patterns made
    of literal characters, [*] and [?]: a star or a question mark does not
    cross a path separator, a dot and a slash are escaped, and every other
    character is copied. *)
Fixpoint glob_fragment (pattern : string) : string :=
  match pattern with
  | EmptyString => EmptyString
  | String c s =>
      (if (c =? "*")%char then "[^\/]*?"
       else if (c =? "?")%char then "[^\/]"
       else if (c =? ".")%char then "\."
       else if (c =? "/")%char then "\/"
       else String c "") ++ glob_fragment s
  end.

(** Modelled from the spec: the Syntax Compiler [parse(pattern, options) ->
    {output, negated}]; a leading [!] makes a negated pattern. *)
Definition parse_model (pattern : string) (options : Options.t) : State.t :=
  match pattern with
  | String "!" rest =>
      {| State.output := Some (glob_fragment rest); State.negated := true;
         State.fastpaths := false |}
  | _ =>
      {| State.output := Some (glob_fragment pattern); State.negated := false;
         State.fastpaths := false |}
  end.

(** Modelled from the spec: the Scanner [scan(pattern, options) -> {base,
    glob}]; [base] is made of the leading segments without glob characters,
    [glob] of the others. *)
Fixpoint scan_segments (segs : list string) : list string * list string :=
  match segs with
  | [] => ([], [])
  | seg :: rest =>
      if has_glob_chars seg then ([], segs)
      else let '(b, g) := scan_segments rest in (seg :: b, g)
  end.

Definition scan_model (pattern : string) (options : Options.t) : Scan.t :=
  let '(b, g) := scan_segments (Path.split pattern) in
  {| Scan.base := String.concat "/" b; Scan.glob := String.concat "/" g |}.

(** Modelled from the spec: the sibling modules; the fast-path table has no
    entry, and the host is not Windows. *)
Definition siblings_model : Siblings :=
  {| scan := scan_model;
     parse := parse_model;
     parse_fastpaths := fun _ _ => None;
     utils_isWindows := fun _ => false |}.

(* ------------------------------------------------------------------ *)
(** * Predicates of the statements *)

Definition is_array (v : JsVal) : bool :=
  match v with
  | JArr _ => true
  | _ => false
  end.

Definition is_string (v : JsVal) : bool :=
  match v with
  | JStr _ => true
  | _ => false
  end.

Definition is_nonempty_string (v : JsVal) : bool :=
  match v with
  | JStr s => negb (s =? "")
  | _ => false
  end.

(** What a matcher reports: the boolean it returns, or the [isMatch] of
    the result object it returns. *)
Definition reports_true {R : Runtime} (v : Returned) : bool :=
  match v with
  | RBool b => b
  | RObject r => Result.isMatch r
  end.

Definition is_bool {R : Runtime} (v : Returned) : bool :=
  match v with
  | RBool _ => true
  | RObject _ => false
  end.

(** The value a matcher returns on a string, when it returns one. *)
Definition accepts {R : Runtime} (m : Matcher.t) (s : string) : bool :=
  match snd (Matcher.call m (JStr s) false) with
  | inr v => returned_truthy v
  | inl _ => false
  end.

(** The matchers an array matcher calls on [s]: up to the first one that
    accepts it. *)
Fixpoint called {R : Runtime} (fns : list Matcher.t) (s : string) : list Matcher.t :=
  match fns with
  | [] => []
  | f :: rest => if accepts f s then [f] else f :: called rest s
  end.

(** [returns m]: the computation does not throw. *)
Definition returns {R : Runtime} {A} (m : Run A) : Prop :=
  exists ev a, m = (ev, inr a).

(** [yields P m]: what the computation returns, if anything, satisfies [P]. *)
Definition yields {R : Runtime} {A} (P : A -> Prop) (m : Run A) : Prop :=
  forall ev a, m = (ev, inr a) -> P a.

(** A matcher that returns on every string, and returns a boolean when it
    is called without the [returnObject] flag. *)
Definition well_behaved {R : Runtime} (m : Matcher.t) : Prop :=
  (forall s ro, returns (Matcher.call m (JStr s) ro))
  /\ (forall input, yields (fun v => is_bool v = true) (Matcher.call m input false)).

(** The format the executor applies: [opts.format || (posix ?
    toPosixSlashes : null)]. *)
Definition formatted (options : Options.t) (posix : option bool) (s : string) : string :=
  match Options.format options with
  | Some f => f s
  | None => if match posix with Some p => p | None => false end
            then toPosixSlashes s else s
  end.

(** The fast-path stage of [makeRe] leaves the pattern uncompiled: the
    table is not consulted, or it has no entry for the pattern. *)
Definition uncompiled_by_fast_paths {S : Siblings} (input : string) (options : Options.t)
  : Prop :=
  Options.fastpaths options && first_char_in (strip_dot_slash input) ["."; "*"]%char = true ->
  parse_fastpaths (strip_dot_slash input) options = None.

(** The fragment [(|[^]+)], which matches every string. *)
Definition everything : ES.re :=
  ES.Seq (ES.Group (ES.Alt ES.Empty
                      (ES.Seq (ES.Quant ES.Plus false (ES.Class true [])) ES.Empty)))
    ES.Empty.

(** The regex of a pattern that took the literal path. *)
Definition literal_regex (pattern : string) : ES.regex :=
  {| ES.source := "^(?:" ++ escape_dot_slash pattern ++ ")$";
     ES.ignoreCase := false;
     ES.ast :=
       ES.Seq ES.Bol
         (ES.Seq (ES.Group (ES.seq_of (map ES.Chr (list_ascii_of_string pattern))))
            (ES.Seq ES.Eol ES.Empty)) |}.

Definition nonempty {A} (l : list A) : bool :=
  match l with
  | [] => false
  | _ :: _ => true
  end.

Definition is_nil {A} (l : list A) : bool := negb (nonempty l).

Definition no_line_terminator (s : string) : bool :=
  negb (string_exists ES.line_terminator s).

Definition regex_accepts (rx : ES.regex) (s : string) : bool :=
  match ES.exec rx s with
  | Some _ => true
  | None => false
  end.

(** The regex [makeRe] returns for a string pattern on the host [node cwd],
    if it returns one. *)
Definition compiled {S : Siblings} (cwd pattern : string) (options : Options.t)
  : option ES.regex :=
  match makeRe (R := node cwd) (JStr pattern) options false false with
  | inr (ReRegex regex) => Some (Regex.re regex)
  | _ => None
  end.

(** Whether a regex, if there is one, accepts a string. *)
Definition accepted_by (regex : option ES.regex) (s : string) : option bool :=
  option_map (fun r => regex_accepts r s) regex.

(** The regexes built with these options keep no state between calls:
    neither [g] nor [y] is among their flags. *)
Definition stateless_flags (options : Options.t) : bool :=
  negb (string_exists (fun c => (c =? "g")%char || (c =? "y")%char)
          (regex_flags options)).

(** The regex object of a pattern without glob characters, with the [g]
    flag and the given [lastIndex]. *)
Definition global_literal (pattern : string) (lastIndex : nat) : ES.object :=
  {| ES.rx := literal_regex pattern; ES.global := true; ES.sticky := false;
     ES.lastIndex := lastIndex |}.

(** A segment that normalization keeps. *)
Definition kept_segment (seg : string) : bool :=
  negb (seg =? "") && negb (seg =? ".") && negb (seg =? "..").

(** A glob that normalization leaves as it is: it has no empty segment (so
    no slash at either end), no [.] and no [..] segment. *)
Definition plain_glob (glob : string) : bool := forallb kept_segment (Path.split glob).

(** A path that normalization leaves as it is, before and after its
    backslashes are turned into slashes. *)
Definition plain_path (path : string) : bool :=
  plain_glob path && plain_glob (toPosixSlashes path).

(** The options [{ ignore: './a.js', flags: 'g' }]. *)
Definition ignore_with_g : Options.t :=
  Options.with_ignore (JStr "./a.js") (Options.with_flags "g" Options.empty).

(** The regex of the pattern [./a.js] with the [g] flag on the host
    [node_objects], as [picomatch] keeps it (line 48), when its
    [lastIndex] is [lastIndex]. *)
Definition global_regex (lastIndex : nat) : Regex.t (R := node_objects "/") :=
  {| Regex.re := global_literal "a.js" lastIndex : RegExp (Runtime := node_objects "/");
     Regex.state := None |}.

(** The ignore matcher of [picomatch('./a.js', { ignore: './a.js', flags:
    'g' })] (line 52), when the [lastIndex] of its regex is [j]. *)
Definition ignoring_at (j : nat) : Matcher.t (R := node_objects "/") :=
  {| Matcher.call :=
       matcher (S := siblings_model) "./a.js"
         (Some {| State.output := None; State.negated := false; State.fastpaths := true |})
         (global_regex j) false (Options.for_ignore ignore_with_g) not_ignored;
     Matcher.state := None |}.

(** The matcher [picomatch('./a.js', { ignore: './a.js', flags: 'g' })],
    when the [lastIndex] of its regex is [i] and the one of the regex of
    its ignore matcher is [j]: the two regexes are two objects, each built
    by a call of [makeRe], and both start at 0. *)
Definition matcher_at (i j : nat) : Matcher.t (R := node_objects "/") :=
  {| Matcher.call :=
       matcher (S := siblings_model) "./a.js"
         (Some {| State.output := None; State.negated := false; State.fastpaths := true |})
         (global_regex i) false ignore_with_g (ignoring_at j);
     Matcher.state := None |}.

(** ** Predicates of the further properties *)

(** The patterns of a glob argument: the elements of the arrays, nested
    ones included, from left to right. *)
Fixpoint leaves (glob : JsVal) : list JsVal :=
  match glob with
  | JArr globs => flat_map leaves globs
  | _ => [glob]
  end.

(** A call of [onResult]. *)
Definition is_onResult {R : Runtime} (e : Event) : bool :=
  match e with
  | OnResult _ => true
  | _ => false
  end.

(** The [result] object of a single-pattern matcher on the string [s]. *)
Definition result_of {R : Runtime} (glob : string) (state : option State.t)
    (regex : Regex.t) (posix : bool) (s : string) (t : TestResult.t) : Result.t :=
  {| Result.glob := glob; Result.state := state; Result.regex := regex;
     Result.posix := posix; Result.input := s;
     Result.output := TestResult.output t; Result.match_ := TestResult.match_ t;
     Result.isMatch := TestResult.isMatch t |}.

(** The patterns of the [ignore] option, when it is set to a truthy
    value. *)
Definition ignore_patterns (options : Options.t) : option JsVal :=
  match Options.ignore options with
  | Some ignore => if truthy ignore then Some ignore else None
  | None => None
  end.

(** Every pattern of a glob argument is a non-empty string. *)
Definition valid_patterns (glob : JsVal) : bool :=
  forallb is_nonempty_string (leaves glob).

(** The arguments from which the factory builds a matcher: the patterns
    are non-empty strings, and so are the ignore patterns when there is a
    pattern to build them for. *)
Definition constructible (glob : JsVal) (options : Options.t) : bool :=
  valid_patterns glob
  && (is_nil (leaves glob)
      || match ignore_patterns options with
         | Some ignore => valid_patterns ignore
         | None => true
         end).

(** [p] is at the start of [s], up to the case of the letters when [ic]
    is set. *)
Fixpoint same_prefix (ic : bool) (p s : list ascii) : bool :=
  match p with
  | [] => true
  | c :: p' =>
      match s with
      | [] => false
      | d :: s' => ES.same_char ic c d && same_prefix ic p' s'
      end
  end.

(** [s] is [p], up to the case of the letters when [ic] is set. *)
Definition same_string (ic : bool) (p s : string) : bool :=
  same_prefix ic (list_ascii_of_string p) (list_ascii_of_string s)
  && (String.length s =? String.length p)%nat.

(** [p] occurs in [s]. *)
Fixpoint occurs_in (ic : bool) (p s : list ascii) : bool :=
  same_prefix ic p s
  || match s with
     | [] => false
     | _ :: s' => occurs_in ic p s'
     end.

(** [p] occurs in [s], as strings. *)
Definition contains_string (ic : bool) (p s : string) : bool :=
  occurs_in ic (list_ascii_of_string p) (list_ascii_of_string s).

(** [r] matches the whole of [s]. *)
Definition matches_whole (ic : bool) (r : ES.re) (s : string) : bool :=
  existsb (Nat.eqb (String.length s)) (ES.ends ic (list_ascii_of_string s) r 0).

(** [r] matches a part of [s]. *)
Definition matches_somewhere (ic : bool) (r : ES.re) (s : string) : bool :=
  existsb (fun i => nonempty (ES.ends ic (list_ascii_of_string s) r i))
    (seq 0 (S (String.length s))).

Arguments Ascii.eqb : simpl never.
Arguments makeRe : simpl never.
Arguments test : simpl never.
Arguments matcher : simpl never.

Section JsValInduction.

Variable P : JsVal -> Prop.
Hypothesis Hstr : forall s, P (JStr s).
Hypothesis Harr : forall l, Forall P l -> P (JArr l).
Hypothesis Hother : forall t, P (JOther t).

Fixpoint JsVal_nested_ind (v : JsVal) : P v :=
  match v with
  | JStr s => Hstr s
  | JArr l =>
      Harr ((fix all (l : list JsVal) : Forall P l :=
               match l with
               | [] => Forall_nil P
               | x :: l' => Forall_cons x (JsVal_nested_ind x) (all l')
               end) l)
  | JOther t => Hother t
  end.

End JsValInduction.

(* ------------------------------------------------------------------ *)
(** * Lemmas: computations *)

Lemma bind_inr {A B} (m : Res A) (k : A -> Res B) (b : B) :
  bind m k = inr b -> exists a, m = inr a /\ k a = inr b.
Proof.
  destruct m as [e | a]; simpl; intros H; [discriminate | eauto].
Qed.

Lemma map_res_inr {A B} (f : A -> Res B) (l : list A) (bs : list B) :
  map_res f l = inr bs -> Forall2 (fun a b => f a = inr b) l bs.
Proof.
  revert bs; induction l as [| a l IH]; simpl; intros bs H.
  - inversion H; constructor.
  - apply bind_inr in H as (b & Hb & H).
    apply bind_inr in H as (bs' & Hbs & H).
    inversion H; subst; constructor; auto.
Qed.

Lemma map_res_ext {A B} (f g : A -> Res B) (l : list A) :
  Forall (fun a => f a = g a) l -> map_res f l = map_res g l.
Proof.
  induction 1 as [| a l Ha _ IH]; simpl; [reflexivity |].
  rewrite Ha, IH; reflexivity.
Qed.

Section RunFacts.

Context {R : Runtime}.

Lemma run_bind_ret {A B} (a : A) (k : A -> Run B) : run_bind (run_ret a) k = k a.
Proof. unfold run_bind, run_ret; simpl; destruct (k a); reflexivity. Qed.

Lemma run_bind_lift_inr {A B} (a : A) (k : A -> Run B) :
  run_bind (run_lift (inr a)) k = k a.
Proof. unfold run_bind, run_lift; simpl; destruct (k a); reflexivity. Qed.

Lemma run_bind_lift_inl {A B} (e : Error) (k : A -> Run B) :
  run_bind (run_lift (inl e)) k = ([], inl e).
Proof. reflexivity. Qed.

Lemma run_bind_inr {A B} (m : Run A) (k : A -> Run B) (ev : list Event) (b : B) :
  run_bind m k = (ev, inr b) ->
  exists ev1 a ev2, m = (ev1, inr a) /\ k a = (ev2, inr b) /\ ev = (ev1 ++ ev2)%list.
Proof.
  destruct m as [ev1 [e | a]]; unfold run_bind; simpl; intros H; [discriminate |].
  destruct (k a) as [ev2 r] eqn:Hk; simpl in H.
  inversion H; subst; eauto 6.
Qed.

Lemma run_bind_inr_eq {A B} (ev : list Event) (a : A) (k : A -> Run B) :
  run_bind (ev, inr a) k = ((ev ++ fst (k a))%list, snd (k a)).
Proof. reflexivity. Qed.

Lemma run_bind_emit {B} (enabled : bool) (e : Event) (k : unit -> Run B) :
  run_bind (emit enabled e) k
  = ((if enabled then [e] else []) ++ fst (k tt), snd (k tt))%list.
Proof. reflexivity. Qed.

Lemma returns_ret {A} (a : A) : returns (run_ret a).
Proof. unfold returns, run_ret; eauto. Qed.

Lemma returns_emit (enabled : bool) (e : Event) : returns (emit enabled e).
Proof. unfold returns, emit; eauto. Qed.

Lemma returns_bind {A B} (m : Run A) (k : A -> Run B) :
  returns m -> (forall a, returns (k a)) -> returns (run_bind m k).
Proof.
  intros (ev & a & ->) Hk; destruct (Hk a) as (ev' & b & Hb).
  unfold returns, run_bind; simpl; rewrite Hb; simpl; eauto.
Qed.

Lemma yields_ret {A} (P : A -> Prop) (a : A) : P a -> yields P (run_ret a).
Proof. intros HP ev b H; inversion H; subst; exact HP. Qed.

Lemma yields_bind {A B} (P : B -> Prop) (m : Run A) (k : A -> Run B) :
  (forall a, yields P (k a)) -> yields P (run_bind m k).
Proof.
  intros Hk ev b H; apply run_bind_inr in H as (ev1 & a & ev2 & _ & H & _).
  eapply Hk; eassumption.
Qed.

End RunFacts.

(* ------------------------------------------------------------------ *)
(** * Lemmas: the executor and the matchers *)

Section MatcherFacts.

Context {R : Runtime} {S : Siblings}.

Lemma matchBase_regex (input : string) (regex : Regex.t) (options : Options.t)
    (posix : option bool) :
  exists b, matchBase input (inl regex) options posix = inr b.
Proof. unfold matchBase; simpl; eauto. Qed.

(** The executor returns on every string. *)
Lemma test_string (s : string) (regex : Regex.t) (options : Options.t) (ctx : Ctx.t) :
  exists t, test (JStr s) regex options ctx = inr t.
Proof.
  unfold test.
  destruct (s =? ""); [eauto |].
  match goal with |- context [let '(_, _) := ?p in _] => destruct p as [output m] end.
  destruct (negb m || Options.capture options); [| simpl; eauto].
  destruct (Options.matchBase options || Options.basename options); [| simpl; eauto].
  destruct (matchBase_regex s regex options (Ctx.posix ctx)) as [b ->]; simpl; eauto.
Qed.

Lemma not_ignored_well_behaved : well_behaved not_ignored.
Proof.
  split; simpl; intros.
  - apply returns_ret.
  - apply yields_ret; reflexivity.
Qed.

Lemma matcher_well_behaved (glob : string) (state : option State.t) (regex : Regex.t)
    (posix : bool) (options : Options.t) (isIgnored : Matcher.t) (st : option State.t) :
  well_behaved isIgnored ->
  well_behaved {| Matcher.call := matcher glob state regex posix options isIgnored;
                  Matcher.state := st |}.
Proof.
  intros [Htot Hbool]; split; simpl.
  - intros s ro. unfold matcher.
    destruct (test_string s regex options
                {| Ctx.glob := Some glob; Ctx.posix := Some posix |}) as [t ->].
    rewrite run_bind_lift_inr.
    apply returns_bind; [apply returns_emit | intros _].
    destruct (negb (TestResult.isMatch t)); [apply returns_ret |].
    apply returns_bind; [apply Htot | intros v].
    destruct (returned_truthy v);
      (apply returns_bind; [apply returns_emit | intros _; apply returns_ret]).
  - intros input. unfold matcher.
    apply yields_bind; intros t.
    apply yields_bind; intros _.
    destruct (negb (TestResult.isMatch t));
      [apply yields_ret; reflexivity |].
    apply yields_bind; intros v.
    destruct (returned_truthy v); apply yields_bind; intros _; apply yields_ret; reflexivity.
Qed.

Lemma any_match_well_behaved (fns : list Matcher.t) (st : option State.t) :
  Forall well_behaved fns ->
  well_behaved {| Matcher.call := fun str _ => any_match fns str; Matcher.state := st |}.
Proof.
  intros Hall; split; simpl.
  - intros s _. induction Hall as [| f fns [Htot _] _ IH]; simpl; [apply returns_ret |].
    apply returns_bind; [apply Htot | intros v].
    destruct (returned_truthy v); [apply returns_ret | apply IH].
  - intros input. induction Hall as [| f fns [_ Hbool] _ IH]; simpl.
    + apply yields_ret; reflexivity.
    + intros ev v H. apply run_bind_inr in H as (ev1 & a & ev2 & Hf & Hk & _).
      destruct (returned_truthy a); [| eapply IH; eassumption].
      inversion Hk; subst; eapply Hbool; eassumption.
Qed.

Lemma picomatch_with_well_behaved
    (ignoring : JsVal -> Options.t -> bool -> Res Matcher.t) :
  (forall ig o rs m, ignoring ig o rs = inr m -> well_behaved m) ->
  forall glob options rs m,
    picomatch_with ignoring glob options rs = inr m -> well_behaved m.
Proof.
  intros Hign glob options rs; induction glob as [s | globs IH | t] using JsVal_nested_ind;
    intros m H; simpl in H.
  - destruct s as [| c s]; [discriminate |].
    apply bind_inr in H as ([out | regex] & _ & H); [discriminate |].
    apply bind_inr in H as (isIgnored & Hig & H).
    inversion H; subst; apply matcher_well_behaved.
    destruct (Options.ignore options) as [ig |]; [destruct (truthy ig) |].
    + eapply Hign; eassumption.
    + inversion Hig; apply not_ignored_well_behaved.
    + inversion Hig; apply not_ignored_well_behaved.
  - apply bind_inr in H as (fns & Hfns & H).
    inversion H; subst; apply any_match_well_behaved.
    apply map_res_inr in Hfns.
    clear H; induction Hfns as [| g f globs fns Hg _ IHf]; [constructor |].
    inversion IH; subst; constructor; auto.
  - discriminate.
Qed.

Lemma picomatch_well_behaved (glob : JsVal) (options : Options.t) (rs : bool)
    (m : Matcher.t) :
  picomatch glob options rs = inr m -> well_behaved m.
Proof.
  apply picomatch_with_well_behaved; intros ig o rs' m'.
  apply picomatch_with_well_behaved; intros ? ? ? ? H.
  inversion H; apply not_ignored_well_behaved.
Qed.

(** The construction of the ignore matcher matters only through what it
    yields on the options it is given. *)
Lemma picomatch_with_ext (f g : JsVal -> Options.t -> bool -> Res Matcher.t)
    (options : Options.t) (rs : bool) :
  (forall ig, f ig (Options.for_ignore options) rs = g ig (Options.for_ignore options) rs) ->
  forall glob, picomatch_with f glob options rs = picomatch_with g glob options rs.
Proof.
  intros Hfg glob; induction glob as [s | globs IH | t] using JsVal_nested_ind; simpl.
  - destruct s as [| c s]; [reflexivity |].
    destruct (makeRe (JStr (String c s)) options false true) as [e | [out | regex]];
      simpl; try reflexivity.
    destruct (Options.ignore options) as [ig |]; [| reflexivity].
    destruct (truthy ig); [| reflexivity].
    rewrite Hfg; reflexivity.
  - rewrite (map_res_ext _ _ IH); reflexivity.
  - reflexivity.
Qed.

(** With no [ignore] option, no ignore matcher is built. *)
Lemma picomatch_with_no_ignore (f g : JsVal -> Options.t -> bool -> Res Matcher.t)
    (options : Options.t) (rs : bool) :
  Options.ignore options = None ->
  forall glob, picomatch_with f glob options rs = picomatch_with g glob options rs.
Proof.
  intros Hnone glob; induction glob as [s | globs IH | t] using JsVal_nested_ind; simpl.
  - destruct s as [| c s]; [reflexivity |].
    rewrite Hnone; reflexivity.
  - rewrite (map_res_ext _ _ IH); reflexivity.
  - reflexivity.
Qed.

(** The equation of the source: the factory calls itself for the elements
    of an array and for the ignore patterns. *)
Lemma picomatch_eq (glob : JsVal) (options : Options.t) (rs : bool) :
  picomatch glob options rs = picomatch_with picomatch glob options rs.
Proof.
  unfold picomatch at 1.
  apply picomatch_with_ext; intros ig.
  unfold picomatch; apply picomatch_with_no_ignore; reflexivity.
Qed.

End MatcherFacts.

(* ------------------------------------------------------------------ *)
(** * Theorems: the factory *)

Section FactoryTheorems.

Context {R : Runtime} {S : Siblings}.

Lemma picomatch_string (c : ascii) (s : string) (options : Options.t) (rs : bool) :
  picomatch (JStr (String c s)) options rs
  = (made <- makeRe (JStr (String c s)) options false true ;;
     match made with
     | ReOutput _ => throw (TypeError "regex.exec is not a function")
     | ReRegex regex =>
         isIgnored <-
           match Options.ignore options with
           | Some ignore =>
               if truthy ignore
               then picomatch ignore (Options.for_ignore options) rs
               else ret not_ignored
           | None => ret not_ignored
           end ;;
         ret {| Matcher.call :=
                  matcher (String c s) (Regex.state regex)
                    {| Regex.re := Regex.re regex; Regex.state := None |}
                    (utils_isWindows options) options isIgnored;
                Matcher.state := if rs then Regex.state regex else None |}
     end).
Proof. rewrite picomatch_eq; reflexivity. Qed.

Lemma picomatch_array (globs : list JsVal) (options : Options.t) (rs : bool) :
  picomatch (JArr globs) options rs
  = (fns <- map_res (fun input => picomatch input options rs) globs ;;
     ret {| Matcher.call := fun str _ => any_match fns str; Matcher.state := None |}).
Proof. reflexivity. Qed.

Lemma any_match_spec (fns : list Matcher.t) (s : string) :
  Forall well_behaved fns ->
  any_match fns (JStr s)
  = (concat (map (fun f => fst (Matcher.call f (JStr s) false)) (called fns s)),
     inr (RBool (existsb (fun f => accepts f s) fns))).
Proof.
  induction 1 as [| f fns [Htot Hbool] _ IH]; simpl; [reflexivity |].
  destruct (Htot s false) as (ev & v & Hf).
  pose proof (Hbool _ _ _ Hf) as Hb.
  assert (Ha : accepts f s = returned_truthy v) by (unfold accepts; rewrite Hf; reflexivity).
  rewrite Ha, Hf, run_bind_inr_eq.
  destruct v as [b | r]; [| discriminate]; simpl.
  destruct b; simpl.
  - rewrite Hf; unfold run_ret; simpl; rewrite !app_nil_r; reflexivity.
  - rewrite IH, Hf; reflexivity.
Qed.

Lemma matcher_ignored (glob : string) (state : option State.t) (regex : Regex.t)
    (posix : bool) (options : Options.t) (isIgnored : Matcher.t) (input : JsVal)
    (ro : bool) (ev' : list Event) (w : Returned) :
  Matcher.call isIgnored input false = (ev', inr w) ->
  returned_truthy w = true ->
  yields (fun v => reports_true v = false)
    (matcher glob state regex posix options isIgnored input ro).
Proof.
  intros Hign Hw; unfold matcher.
  apply yields_bind; intros t.
  apply yields_bind; intros _.
  destruct (negb (TestResult.isMatch t));
    [apply yields_ret; destruct ro; reflexivity |].
  rewrite Hign, (run_bind_inr_eq ev' w), Hw.
  intros ev v H. cbn [fst snd] in H.
  destruct (Options.onIgnore options); destruct ro; inversion H; reflexivity.
Qed.

(** A call of the matcher of one pattern on a string, step by step. *)
Lemma matcher_string (glob : string) (state : option State.t) (regex : Regex.t)
    (posix : bool) (options : Options.t) (isIgnored : Matcher.t) (s : string) (ro : bool)
    (t : TestResult.t) (evi : list Event) (w : Returned) :
  test (JStr s) regex options {| Ctx.glob := Some glob; Ctx.posix := Some posix |}
  = inr t ->
  (TestResult.isMatch t = true -> Matcher.call isIgnored (JStr s) false = (evi, inr w)) ->
  let r := result_of glob state regex posix s t in
  matcher glob state regex posix options isIgnored (JStr s) ro
  = (((if Options.onResult options then [OnResult r] else [])
      ++ (if TestResult.isMatch t then
            evi ++ (if returned_truthy w
                    then (if Options.onIgnore options then [OnIgnore r] else [])
                    else (if Options.onMatch options then [OnMatch r] else []))
          else []))%list,
     inr (if TestResult.isMatch t && negb (returned_truthy w)
          then (if ro then RObject r else RBool true)
          else (if ro then RObject (Result.set_isMatch false r) else RBool false))).
Proof.
  intros Ht Hign r; unfold matcher; rewrite Ht, run_bind_lift_inr.
  fold (result_of glob state regex posix s t); fold r.
  rewrite run_bind_emit.
  destruct (TestResult.isMatch t) eqn:Hm; cbn [negb andb].
  - rewrite (Hign eq_refl), run_bind_inr_eq.
    destruct (returned_truthy w); cbn [negb]; rewrite run_bind_emit; cbn [fst snd run_ret];
      rewrite ?app_nil_r; reflexivity.
  - cbn [fst snd run_ret]; reflexivity.
Qed.

End FactoryTheorems.

Section ExecutorFacts.

Context {R : Runtime} {S : Siblings}.

(** Input and pattern are the same string: no regex is executed. *)
Lemma test_literal (s : string) (regex : Regex.t) (options : Options.t)
    (posix : option bool) :
  (s =? "") = false ->
  Options.capture options = false ->
  test (JStr s) regex options {| Ctx.glob := Some s; Ctx.posix := posix |}
  = inr {| TestResult.isMatch := true; TestResult.match_ := MBool true;
           TestResult.output := formatted options posix s |}.
Proof.
  intros Hne Hcap; unfold test, formatted; rewrite Hne; cbn [Ctx.glob Ctx.posix].
  rewrite String.eqb_refl, Hcap; simpl.
  destruct (Options.format options); [reflexivity |].
  destruct posix as [[|] |]; reflexivity.
Qed.

(** Input and pattern differ, also after formatting: the regex decides. *)
Lemma test_regex (s glob : string) (regex : Regex.t) (options : Options.t)
    (posix : option bool) :
  (s =? "") = false ->
  (s =? glob) = false ->
  (formatted options posix s =? glob) = false ->
  Options.matchBase options = false ->
  Options.basename options = false ->
  test (JStr s) regex options {| Ctx.glob := Some glob; Ctx.posix := posix |}
  = inr {| TestResult.isMatch :=
             match RegExp_exec (Regex.re regex) (formatted options posix s) with
             | Some _ => true
             | None => false
             end;
           TestResult.match_ :=
             MExec (RegExp_exec (Regex.re regex) (formatted options posix s));
           TestResult.output := formatted options posix s |}.
Proof.
  intros Hne Hsg Hfg Hmb Hbn; unfold test; rewrite Hne; cbn [Ctx.glob Ctx.posix].
  rewrite Hsg; cbn [negb].
  unfold formatted in *.
  destruct (Options.format options) as [f |].
  - rewrite Hfg, Hmb, Hbn; simpl.
    destruct (RegExp_exec (Regex.re regex) (f s)); reflexivity.
  - destruct posix as [[|] |]; rewrite Hfg, Hmb, Hbn; simpl;
      match goal with |- context [RegExp_exec ?r ?x] => destruct (RegExp_exec r x) end;
      reflexivity.
Qed.

(** The executor on a non-empty string: the two comparisons with the
    pattern, as given and once formatted, decide whether the regex is
    run. *)
Lemma test_cases (s : string) (regex : Regex.t) (options : Options.t) (ctx : Ctx.t) :
  (s =? "") = false ->
  let out := formatted options (Ctx.posix ctx) s in
  let literal := match Ctx.glob ctx with
                 | Some g => (s =? g) || (out =? g)
                 | None => false
                 end in
  test (JStr s) regex options ctx
  = (match_ <-
       (if negb literal || Options.capture options then
          if Options.matchBase options || Options.basename options then
            b <- matchBase s (inl regex) options (Ctx.posix ctx) ;; ret (MBool b)
          else ret (MExec (RegExp_exec (Regex.re regex) out))
        else ret (MBool true)) ;;
     ret {| TestResult.isMatch := match_truthy match_; TestResult.match_ := match_;
            TestResult.output := out |}).
Proof.
  intros Hne out literal; subst out literal; unfold test, formatted; rewrite Hne.
  destruct (Ctx.glob ctx) as [g |]; cbn [negb];
    (destruct (Options.format options) as [f |];
     [| destruct (match Ctx.posix ctx with Some p => p | None => false end)]);
    try reflexivity;
    destruct (s =? g) eqn:Hsg; cbn [negb orb]; rewrite ?Hsg; try reflexivity.
  - destruct (f s =? g); reflexivity.
  - destruct (toPosixSlashes s =? g); reflexivity.
Qed.

(** The [output] of the executor on a string. *)
Lemma test_output (s : string) (regex : Regex.t) (options : Options.t) (ctx : Ctx.t)
    (t : TestResult.t) :
  test (JStr s) regex options ctx = inr t ->
  TestResult.output t = if s =? "" then "" else formatted options (Ctx.posix ctx) s.
Proof.
  destruct (s =? "") eqn:Hne.
  - unfold test; rewrite Hne; intros H; inversion H; reflexivity.
  - rewrite (@test_cases s _ _ _ Hne); intros H.
    apply bind_inr in H as (match_ & _ & H); inversion H; reflexivity.
Qed.

End ExecutorFacts.

Section FactoryClaims.

Context {R : Runtime} {S : Siblings}.

(** How a single-pattern matcher of the empty options decides an input
    that differs from the pattern. *)
Lemma matcher_plain (glob s : string) (state : option State.t) (regex : Regex.t)
    (posix : bool) :
  (s =? "") = false ->
  (s =? glob) = false ->
  toPosixSlashes s = s ->
  matcher glob state regex posix Options.empty not_ignored (JStr s) false
  = ([], inr (RBool match RegExp_exec (Regex.re regex) s with
                    | Some _ => true
                    | None => false
                    end)).
Proof.
  intros Hne Hsg Hposix; unfold matcher.
  assert (Hf : formatted Options.empty (Some posix) s = s)
    by (unfold formatted; simpl; destruct posix; [exact Hposix | reflexivity]).
  rewrite (@test_regex R S s glob regex Options.empty (Some posix));
    rewrite ?Hf; try assumption; try reflexivity.
  rewrite run_bind_lift_inr; simpl.
  destruct (RegExp_exec (Regex.re regex) s); reflexivity.
Qed.

(** C8. The factory throws the invalid-argument error on every pattern
    that is neither an array nor a non-empty string, and the regex
    assembler on every pattern that is not a non-empty string, whatever
    the options and before any collaborator is consulted; the executor
    throws it on every input that is not a string, and returns
    [{isMatch: false, output: ''}] on the empty string. *)
Theorem invalid_arguments_are_rejected :
  (forall glob options returnState,
     is_array glob = false -> is_nonempty_string glob = false ->
     picomatch glob options returnState
     = throw (TypeError "Expected pattern to be a non-empty string"))
  /\ (forall input options returnOutput returnState,
        is_nonempty_string input = false ->
        makeRe input options returnOutput returnState
        = throw (TypeError "Expected a non-empty string"))
  /\ (forall input regex options ctx,
        is_string input = false ->
        test input regex options ctx = throw (TypeError "Expected input to be a string"))
  /\ (forall regex options ctx,
        test (JStr "") regex options ctx
        = ret {| TestResult.isMatch := false; TestResult.match_ := MUndefined;
                 TestResult.output := "" |}).
Proof.
  repeat split.
  - intros [[| c s] | l | t] options rs Harr Hstr; try discriminate; reflexivity.
  - intros [[| c s] | l | t] options ro rs Hstr; try discriminate; reflexivity.
  - intros [s | l | t] regex options ctx Hstr; try discriminate; reflexivity.
Qed.

(** C10. The empty array is accepted as a pattern: the factory returns a
    matcher, and the matcher returns false on every input, calling no
    callback; an element of an array is checked like a single pattern. *)
Theorem empty_array_matches_nothing (options : Options.t) (returnState : bool) :
  (exists m,
     picomatch (JArr []) options returnState = inr m
     /\ forall input returnObject,
          Matcher.call m input returnObject = ([], inr (RBool false)))
  /\ picomatch (JArr [JStr ""]) options returnState
     = throw (TypeError "Expected pattern to be a non-empty string").
Proof.
  split; [| reflexivity].
  eexists; split; [reflexivity |].
  intros input ro; reflexivity.
Qed.

(** C3 (what the code does). [split] returns the Scanner's [base] as it
    is, leading slash included: the stripped copy it computes is not used.
    [glob] is the Scanner's, and [cwd] is the Scanner's base resolved
    against [options.cwd], or against the working directory of the process
    when that option is not set. *)
Theorem split_returns_the_scanner_base (pattern : string) (options : Options.t) :
  split pattern options
  = {| Split.base := Scan.base (scan pattern options);
       Split.glob := Scan.glob (scan pattern options);
       Split.cwd :=
         path_resolve (if Options.cwd options =? "" then process_cwd
                       else Options.cwd options)
           (Scan.base (scan pattern options)) |}.
Proof.
  unfold split; destruct (Options.cwd options =? ""); reflexivity.
Qed.

(** C5. The matcher of an array of patterns is the disjunction of the
    matchers of its elements: on a string it returns the boolean "some
    element accepts it", and it calls the element matchers from left to
    right up to the first that accepts, so that the callbacks called are
    theirs, in that order.  With a regex for [b.*] that rejects [a.a] and
    one for [*.a] that accepts it, [isMatch('a.a', ['b.*', '*.a'])] is true
    and [isMatch('a.a', 'b.*')] is false. *)
Theorem array_matcher_is_left_to_right_or :
  (forall globs options returnState m,
     picomatch (JArr globs) options returnState = inr m ->
     exists fns,
       Forall2 (fun glob f => picomatch glob options returnState = inr f) globs fns
       /\ forall (s : string) (returnObject : bool),
            Matcher.call m (JStr s) returnObject
            = (concat (map (fun f => fst (Matcher.call f (JStr s) false)) (called fns s)),
               inr (RBool (existsb (fun f => accepts f s) fns))))
  /\ (forall b a,
        makeRe (JStr "b.*") Options.empty false true = inr (ReRegex b) ->
        makeRe (JStr "*.a") Options.empty false true = inr (ReRegex a) ->
        RegExp_exec (Regex.re b) "a.a" = None ->
        RegExp_exec (Regex.re a) "a.a" <> None ->
        isMatch (JStr "a.a") (JArr [JStr "b.*"; JStr "*.a"]) Options.empty
        = ([], inr (RBool true))
        /\ isMatch (JStr "a.a") (JStr "b.*") Options.empty = ([], inr (RBool false))).
Proof.
  split.
  - intros globs options rs m H. rewrite picomatch_array in H.
    apply bind_inr in H as (fns & Hfns & H); inversion H; subst; clear H.
    apply map_res_inr in Hfns. exists fns; split; [exact Hfns |].
    intros s ro; simpl. apply any_match_spec.
    clear - Hfns. induction Hfns as [| g f globs fns Hg _ IH]; constructor; auto.
    eapply picomatch_well_behaved; eassumption.
  - intros b a Hb Ha Hrej Hacc.
    unfold isMatch. rewrite picomatch_array; cbn [map_res].
    rewrite !picomatch_string, Hb, Ha; simpl.
    rewrite !run_bind_lift_inr; simpl.
    rewrite !matcher_plain by reflexivity; simpl.
    rewrite Hrej, !run_bind_inr_eq; simpl.
    destruct (RegExp_exec (Regex.re a) "a.a"); [split; reflexivity | contradiction].
Qed.

(** C6 (as the code has it). The matcher of an array of patterns takes no
    [returnObject] flag: whatever the flag, it calls its element matchers
    without it, and it returns a boolean, true when some element matcher
    accepts the input and false otherwise; it never returns a result
    object. *)
Theorem array_matcher_returns_booleans (globs : list JsVal) (options : Options.t)
    (returnState : bool) (m : Matcher.t) :
  picomatch (JArr globs) options returnState = inr m ->
  (forall input returnObject,
     Matcher.call m input returnObject = Matcher.call m input false
     /\ yields (fun v => exists b, v = RBool b) (Matcher.call m input returnObject))
  /\ exists fns,
       Forall2 (fun glob f => picomatch glob options returnState = inr f) globs fns
       /\ forall (s : string) (returnObject : bool),
            exists ev,
              Matcher.call m (JStr s) returnObject
              = (ev, inr (RBool (existsb (fun f => accepts f s) fns))).
Proof.
  intros H.
  pose proof (picomatch_well_behaved _ _ _ H) as [_ Hbool].
  rewrite picomatch_array in H.
  apply bind_inr in H as (fns & Hfns & H); inversion H; subst; clear H.
  apply map_res_inr in Hfns.
  split.
  - intros input ro; split; [reflexivity |].
    intros ev v Hv. specialize (Hbool input ev v Hv).
    destruct v as [b | r]; [eauto | discriminate].
  - exists fns; split; [exact Hfns |].
    intros s ro; cbn [Matcher.call].
    assert (Hwb : Forall well_behaved fns).
    { clear - Hfns. induction Hfns as [| g f globs fns Hg _ IH]; constructor; auto.
      eapply picomatch_well_behaved; eassumption. }
    rewrite (any_match_spec s Hwb); eexists; reflexivity.
Qed.

(** C4 (for regexes without state). When the regex flags hold neither
    [g] nor [y], so that the regexes of the matcher and of its ignore
    matcher are the same objects at every call, a matcher built with the
    [ignore] option never reports a match on an input that the ignore
    matcher accepts; the ignore matcher is the one the factory builds from
    the ignore patterns with [ignore] and [onMatch] cleared.  The matcher
    then returns false, or a result object whose [isMatch] is false.  With
    the [g] flag the regexes keep a [lastIndex] between the calls, and an
    ignored input can be reported as a match. *)
Theorem ignored_input_is_never_matched (glob ignore : JsVal) (options : Options.t)
    (returnState : bool) (m isIgnored : Matcher.t) :
  stateless_flags options = true ->
  Options.ignore options = Some ignore ->
  truthy ignore = true ->
  picomatch glob options returnState = inr m ->
  picomatch ignore (Options.for_ignore options) returnState = inr isIgnored ->
  forall input returnObject ev w,
    Matcher.call isIgnored input false = (ev, inr w) ->
    returned_truthy w = true ->
    yields (fun v => reports_true v = false) (Matcher.call m input returnObject).
Proof.
  intros _ Hopt Htruthy Hm Hign input ro ev w Hcall Hw.
  revert m ro Hm.
  induction glob as [s | globs IH | t] using JsVal_nested_ind; intros m ro Hm.
  - destruct s as [| c s]; [discriminate |].
    rewrite picomatch_string, Hopt, Htruthy, Hign in Hm.
    apply bind_inr in Hm as ([out | regex] & _ & Hm); [discriminate |].
    inversion Hm; subst; simpl.
    eapply matcher_ignored; eassumption.
  - rewrite picomatch_array in Hm.
    apply bind_inr in Hm as (fns & Hfns & Hm); inversion Hm; subst; clear Hm.
    apply map_res_inr in Hfns; simpl.
    induction Hfns as [| g f globs fns Hg _ IHf]; simpl.
    + apply yields_ret; reflexivity.
    + inversion IH as [| ? ? IHg IHrest]; subst.
      intros ev' v H.
      apply run_bind_inr in H as (ev1 & a & ev2 & Hf & Hk & _).
      destruct (returned_truthy a) eqn:Ha.
      * pose proof (picomatch_well_behaved _ _ _ Hg) as [_ Hbool].
        pose proof (Hbool input ev1 a Hf) as Hb.
        pose proof (IHg f false Hg ev1 a Hf) as Hr.
        destruct a as [b | r]; [| discriminate]; simpl in *; congruence.
      * eapply IHf; eassumption.
  - discriminate.
Qed.

End FactoryClaims.

(* ------------------------------------------------------------------ *)
(** * Lemmas: strings and paths *)

Lemma string_app_assoc (a b c : string) : (a ++ b) ++ c = a ++ (b ++ c).
Proof. induction a as [| x a IH]; simpl; [reflexivity | rewrite IH; reflexivity]. Qed.

Lemma string_app_empty (a : string) : a ++ "" = a.
Proof. induction a as [| x a IH]; simpl; [reflexivity | rewrite IH; reflexivity]. Qed.

Lemma ends_with_app (p a : string) : ends_with p (a ++ p) = true.
Proof.
  induction a as [| x a IH]; simpl.
  - destruct p; simpl; rewrite ?Ascii.eqb_refl, ?String.eqb_refl; reflexivity.
  - rewrite IH; apply orb_true_r.
Qed.

Lemma ends_with_longer (a : string) (x y : ascii) (p : string) :
  ends_with (String x "") (a ++ String y p) = ends_with (String x "") (String y p).
Proof.
  induction a as [| z a IH]; [reflexivity |].
  cbn [append ends_with]; rewrite IH.
  replace (String z (a ++ String y p) =? String x "") with false; [reflexivity |].
  symmetry; simpl. destruct (z =? x)%char; [| reflexivity].
  destruct a; reflexivity.
Qed.

Lemma string_exists_app (f : ascii -> bool) (a b : string) :
  string_exists f (a ++ b) = string_exists f a || string_exists f b.
Proof.
  induction a as [| x a IH]; simpl; [reflexivity |].
  rewrite IH, orb_assoc; reflexivity.
Qed.

Lemma string_exists_concat (f : ascii -> bool) (sep : string) (l : list string) :
  string_exists f sep = false ->
  Forall (fun s => string_exists f s = false) l ->
  string_exists f (String.concat sep l) = false.
Proof.
  intros Hsep; induction 1 as [| s l Hs Hl IH]; simpl; [reflexivity |].
  destruct l as [| s' l]; [exact Hs |].
  rewrite !string_exists_app, Hs, Hsep, IH; reflexivity.
Qed.

Lemma toPosixSlashes_no_backslash (s : string) :
  string_exists (Ascii.eqb "\") (toPosixSlashes s) = false.
Proof.
  induction s as [| c s IH]; simpl; [reflexivity |].
  rewrite IH, orb_false_r.
  destruct (Ascii.eqb_spec c "\") as [-> | Hc]; [reflexivity |].
  destruct (Ascii.eqb_spec "\" c) as [<- | _]; [contradiction | reflexivity].
Qed.

Lemma toPosixSlashes_id (s : string) :
  string_exists (Ascii.eqb "\") s = false -> toPosixSlashes s = s.
Proof.
  induction s as [| c s IH]; simpl; [reflexivity |].
  intros H; apply orb_false_iff in H as [Hc Hs].
  rewrite IH by exact Hs.
  destruct (Ascii.eqb_spec c "\") as [-> | _]; [discriminate | reflexivity].
Qed.

Lemma concat_snoc (sep : string) (l : list string) (x : string) :
  String.concat sep (l ++ [x])
  = match l with
    | [] => x
    | _ :: _ => String.concat sep l ++ sep ++ x
    end.
Proof.
  induction l as [| a l IH]; [reflexivity |].
  cbn [app String.concat].
  destruct l as [| b l]; [reflexivity |].
  change ((b :: l) ++ [x])%list with (b :: (l ++ [x]))%list in *.
  rewrite IH, !string_app_assoc; reflexivity.
Qed.

Module PathFacts.

Lemma split_nonempty (s : string) : Path.split s <> [].
Proof.
  destruct s as [| c s]; simpl; [discriminate |].
  destruct (c =? "/")%char; [discriminate |].
  destruct (Path.split s); discriminate.
Qed.

Lemma split_app (a b : string) :
  Path.split (a ++ String "/" b) = (Path.split a ++ Path.split b)%list.
Proof.
  induction a as [| c a IH]; [reflexivity |].
  cbn [append Path.split]; rewrite IH.
  destruct (c =? "/")%char; [reflexivity |].
  pose proof (split_nonempty a) as Hne.
  destruct (Path.split a); [contradiction | reflexivity].
Qed.

Lemma split_no (f : ascii -> bool) (s : string) :
  string_exists f s = false ->
  Forall (fun seg => string_exists f seg = false) (Path.split s).
Proof.
  induction s as [| c s IH]; simpl; intros H.
  - repeat constructor.
  - apply orb_false_iff in H as [Hc Hs]; specialize (IH Hs).
    destruct (c =? "/")%char; [constructor; [reflexivity | exact IH] |].
    destruct (Path.split s) as [| h t]; [repeat constructor; simpl; rewrite Hc; reflexivity |].
    inversion IH; subst; constructor; [simpl; rewrite Hc; assumption | assumption].
Qed.

Lemma normalize_no (f : ascii -> bool) (allow : bool) (segs acc : list string) :
  f "."%char = false ->
  Forall (fun seg => string_exists f seg = false) segs ->
  Forall (fun seg => string_exists f seg = false) acc ->
  Forall (fun seg => string_exists f seg = false)
    (fold_left (Path.normalize_step allow) segs acc).
Proof.
  intros Hdot Hsegs; revert acc; induction Hsegs as [| seg segs Hseg _ IH]; simpl;
    intros acc Hacc; [exact Hacc |].
  apply IH; unfold Path.normalize_step.
  destruct ((seg =? "") || (seg =? ".")); [exact Hacc |].
  destruct (seg =? "..").
  - destruct acc as [| last acc']; [destruct allow; repeat constructor; simpl; rewrite Hdot; reflexivity |].
    inversion Hacc; subst.
    destruct (last =? ".."); [destruct allow |]; try assumption.
    constructor; [simpl; rewrite Hdot; reflexivity | assumption].
  - constructor; assumption.
Qed.

(** A path without a slash is one segment. *)
Lemma split_no_slash (s : string) :
  string_exists (Ascii.eqb "/") s = false -> Path.split s = [s].
Proof.
  induction s as [| c s IH]; [reflexivity |].
  cbn [string_exists Path.split]; intros H; apply orb_false_iff in H as [Hc Hs].
  rewrite Ascii.eqb_sym, Hc, (IH Hs); reflexivity.
Qed.

(** Joining a glob that is one plain segment onto an absolute base. *)
Lemma join_absolute (base glob : string) :
  Path.isAbsolute base = true ->
  Path.split glob = [glob] ->
  (glob =? "") = false -> (glob =? ".") = false -> (glob =? "..") = false ->
  ends_with "/" glob = false ->
  Path.isAbsolute (Path.join [base; glob]) = true
  /\ ends_with ("/" ++ glob) (Path.join [base; glob]) = true
  /\ forall f, f "."%char = false -> f "/"%char = false ->
       string_exists f base = false -> string_exists f glob = false ->
       string_exists f (Path.join [base; glob]) = false.
Proof.
  intros Habs Hsplit Hne Hdot Hdots Htrail.
  destruct base as [| c base]; [discriminate |].
  assert (Hglob : exists y g, glob = String y g)
    by (destruct glob; [discriminate | eauto]).
  destruct Hglob as (y & g & Hg).
  set (p := String c base ++ String "/" glob).
  assert (Hjoin : Path.join [String c base; glob] = Path.normalize p).
  { unfold Path.join; cbn [filter String.eqb negb]; rewrite Hne; reflexivity. }
  assert (F1 : (p =? "") = false) by reflexivity.
  assert (F2 : Path.isAbsolute p = true) by exact Habs.
  assert (F3 : ends_with "/" p = false).
  { replace p with ((String c base ++ "/") ++ String y g)
      by (unfold p; rewrite string_app_assoc, Hg; reflexivity).
    rewrite ends_with_longer, <- Hg; exact Htrail. }
  set (X := fold_left (Path.normalize_step false) (Path.split (String c base)) []).
  assert (F4 : Path.normalizeString p false = String.concat "/" (rev X ++ [glob])).
  { unfold Path.normalizeString, p.
    rewrite split_app, Hsplit, fold_left_app; cbn [fold_left]; fold X.
    unfold Path.normalize_step; rewrite Hne, Hdot, Hdots; reflexivity. }
  assert (Hform : exists q, String.concat "/" (rev X ++ [glob]) = q ++ glob
                            /\ (q = "" \/ exists q', q = q' ++ "/")
                            /\ (forall f, f "."%char = false -> f "/"%char = false ->
                                  string_exists f (String c base) = false ->
                                  string_exists f q = false)).
  { rewrite concat_snoc. destruct (rev X) as [| a l] eqn:HX.
    - exists ""; repeat split; auto.
    - exists (String.concat "/" (a :: l) ++ "/"); repeat split.
      + rewrite string_app_assoc; reflexivity.
      + eauto.
      + intros f Hfd Hfs Hb. rewrite string_exists_app.
        replace (string_exists f "/") with false by (simpl; rewrite Hfs; reflexivity).
        rewrite orb_false_r.
        apply string_exists_concat; [simpl; rewrite Hfs; reflexivity |].
        rewrite <- HX. apply Forall_rev. subst X.
        apply normalize_no; [assumption | apply split_no; assumption | constructor]. }
  destruct Hform as (q & Hcat & Hq & Hnob).
  assert (Hnorm : Path.normalize p = "/" ++ q ++ glob).
  { unfold Path.normalize; rewrite F1, F2, F3; cbn [negb]; rewrite F4, Hcat.
    replace (q ++ glob =? "") with false by (rewrite Hg; destruct q; reflexivity).
    rewrite string_app_empty; reflexivity. }
  rewrite Hjoin, Hnorm; repeat split.
  - destruct Hq as [-> | (q' & ->)].
    + apply (ends_with_app ("/" ++ glob) "").
    + rewrite string_app_assoc.
      change ("/" ++ q' ++ "/" ++ glob) with (String "/" q' ++ ("/" ++ glob)).
      apply ends_with_app.
  - intros f Hfd Hfs Hb Hgl.
    cbn [append string_exists]; rewrite Hfs, string_exists_app, Hgl, (Hnob f Hfd Hfs Hb).
    reflexivity.
Qed.

End PathFacts.

Module JoinFacts.

(** Joining the segments of a path gives the path back. *)
Lemma concat_split (s : string) : String.concat "/" (Path.split s) = s.
Proof.
  induction s as [| c s IH]; [reflexivity |].
  cbn [Path.split].
  destruct (Ascii.eqb_spec c "/") as [-> | Hc].
  - cbn [String.concat]. pose proof (PathFacts.split_nonempty s) as Hne.
    destruct (Path.split s) as [| h t]; [contradiction |].
    rewrite IH; reflexivity.
  - pose proof (PathFacts.split_nonempty s) as Hne.
    destruct (Path.split s) as [| h t]; [contradiction |].
    cbn [String.concat] in *.
    destruct t; [rewrite IH; reflexivity |].
    rewrite <- IH; reflexivity.
Qed.

(** No segment holds a slash. *)
Lemma split_segments (s : string) :
  Forall (fun seg => string_exists (Ascii.eqb "/") seg = false) (Path.split s).
Proof.
  induction s as [| c s IH]; cbn [Path.split]; [repeat constructor |].
  destruct (Ascii.eqb_spec c "/") as [-> | Hc]; [constructor; [reflexivity | exact IH] |].
  destruct (Path.split s) as [| h t]; [repeat constructor |].
  - cbn [string_exists]. destruct (Ascii.eqb_spec "/" c); [congruence | reflexivity].
  - inversion IH; subst; constructor; [| assumption].
    cbn [string_exists]. destruct (Ascii.eqb_spec "/" c); [congruence | assumption].
Qed.

Lemma no_slash_no_trailing (s : string) :
  string_exists (Ascii.eqb "/") s = false -> ends_with "/" s = false.
Proof.
  induction s as [| c s IH]; [reflexivity |].
  cbn [string_exists ends_with]; intros H; apply orb_false_iff in H as [Hc Hs].
  rewrite (IH Hs), orb_false_r.
  cbn [String.eqb]. rewrite Ascii.eqb_sym, Hc; reflexivity.
Qed.

Lemma ends_with_app_nonempty (a b : string) :
  (b =? "") = false -> ends_with "/" (a ++ b) = ends_with "/" b.
Proof.
  destruct b as [| y p]; [discriminate |]; intros _; apply ends_with_longer.
Qed.

(** Normalization pushes the segments it keeps. *)
Lemma kept_fold (allow : bool) (segs acc : list string) :
  forallb kept_segment segs = true ->
  fold_left (Path.normalize_step allow) segs acc = (rev segs ++ acc)%list.
Proof.
  revert acc; induction segs as [| seg segs IH]; intros acc; [reflexivity |].
  cbn [forallb fold_left rev]; intros H; apply andb_true_iff in H as [Hseg Hsegs].
  rewrite (IH _ Hsegs), <- app_assoc; cbn [app].
  unfold kept_segment in Hseg.
  apply andb_true_iff in Hseg as [Hseg H3]; apply andb_true_iff in Hseg as [H1 H2].
  apply negb_true_iff in H1, H2, H3.
  unfold Path.normalize_step; rewrite H1, H2, H3; reflexivity.
Qed.

Lemma concat_app (l1 l2 : list string) :
  l2 <> [] ->
  String.concat "/" (l1 ++ l2)
  = match l1 with
    | [] => String.concat "/" l2
    | _ :: _ => String.concat "/" l1 ++ "/" ++ String.concat "/" l2
    end.
Proof.
  intros Hne; induction l1 as [| a l1 IH]; [reflexivity |].
  cbn [app String.concat].
  destruct l1 as [| b l1].
  - cbn [app]. destruct l2; [contradiction | reflexivity].
  - change ((b :: l1) ++ l2)%list with (b :: (l1 ++ l2))%list in *.
    rewrite IH, !string_app_assoc; reflexivity.
Qed.

(** What is known of a plain glob. *)
Lemma plain_glob_facts (glob : string) :
  plain_glob glob = true ->
  (glob =? "") = false /\ Path.isAbsolute glob = false /\ ends_with "/" glob = false.
Proof.
  unfold plain_glob; intros H.
  destruct glob as [| y g]; [discriminate |].
  split; [reflexivity |]; split.
  - unfold Path.isAbsolute; cbn [starts_with andb].
    destruct (Ascii.eqb_spec "/" y) as [<- | _]; [| reflexivity].
    cbn [Path.split] in H; rewrite Ascii.eqb_refl in H; discriminate.
  - pose proof (concat_split (String y g)) as Hcat.
    pose proof (split_segments (String y g)) as Hseg.
    pose proof (PathFacts.split_nonempty (String y g)) as Hne.
    destruct (exists_last Hne) as (init & l & Hsplit).
    rewrite Hsplit in *.
    rewrite forallb_app in H; apply andb_true_iff in H as [_ Hl].
    cbn [forallb] in Hl; rewrite andb_true_r in Hl.
    apply Forall_app in Hseg as [_ Hseg]; inversion Hseg as [| ? ? Hno _]; subst.
    assert (Hlne : (l =? "") = false).
    { unfold kept_segment in Hl; destruct (l =? ""); [discriminate | reflexivity]. }
    rewrite concat_snoc in Hcat. rewrite <- Hcat.
    destruct init as [| a init]; [apply no_slash_no_trailing; exact Hno |].
    rewrite <- string_app_assoc, (@ends_with_app_nonempty _ _ Hlne).
    apply no_slash_no_trailing; exact Hno.
Qed.

(** Joining a plain glob onto a base keeps the glob as it is, at the end. *)
Lemma join_plain_glob (base glob : string) :
  plain_glob glob = true ->
  exists q,
    Path.join [base; glob] = q ++ glob
    /\ (q = "" \/ ends_with "/" q = true)
    /\ (Path.isAbsolute base = true -> Path.isAbsolute q = true)
    /\ (forall f, f "."%char = false -> f "/"%char = false ->
          string_exists f base = false -> string_exists f q = false).
Proof.
  intros Hplain; destruct (@plain_glob_facts _ Hplain) as (Hne & Hrel & Htrail).
  assert (Hgs : Path.split glob <> []) by apply PathFacts.split_nonempty.
  destruct base as [| c base].
  - exists ""; split; [| split; [left; reflexivity | split; [discriminate | reflexivity]]].
    unfold Path.join; cbn [filter String.eqb negb]; rewrite Hne; cbn [negb String.concat].
    unfold Path.normalize; rewrite Hne, Hrel, Htrail; cbn [negb].
    unfold Path.normalizeString.
    rewrite (@kept_fold _ _ _ Hplain), app_nil_r, rev_involutive, concat_split, Hne.
    apply string_app_empty.
  - set (p := String c base ++ String "/" glob).
    assert (Hjoin : Path.join [String c base; glob] = Path.normalize p).
    { unfold Path.join; cbn [filter String.eqb negb]; rewrite Hne; reflexivity. }
    assert (F3 : ends_with "/" p = false).
    { unfold p.
      change (String c base ++ String "/" glob) with (String c base ++ ("/" ++ glob)).
      rewrite <- string_app_assoc, (@ends_with_app_nonempty _ _ Hne); exact Htrail. }
    set (abs := Path.isAbsolute (String c base)).
    set (X := fold_left (Path.normalize_step (negb abs)) (Path.split (String c base)) []).
    assert (F4 : Path.normalizeString p (negb abs)
                 = match rev X with
                   | [] => glob
                   | _ :: _ => String.concat "/" (rev X) ++ "/" ++ glob
                   end).
    { unfold Path.normalizeString, p.
      rewrite PathFacts.split_app, fold_left_app; fold X.
      rewrite (@kept_fold _ _ _ Hplain), rev_app_distr, rev_involutive.
      rewrite (@concat_app _ _ Hgs), concat_split; reflexivity. }
    exists ((if abs then "/" else "")
            ++ match rev X with
               | [] => ""
               | _ :: _ => String.concat "/" (rev X) ++ "/"
               end).
    split; [| split; [| split]].
    + rewrite Hjoin; unfold Path.normalize.
      change (p =? "") with false; cbv iota.
      change (Path.isAbsolute p) with abs.
      rewrite F3, F4.
      replace (match rev X with
               | [] => glob
               | _ :: _ => String.concat "/" (rev X) ++ "/" ++ glob
               end =? "") with false
        by (destruct (rev X) as [| a l]; [rewrite Hne; reflexivity |];
            destruct (String.concat "/" (a :: l)); reflexivity).
      rewrite string_app_empty, !string_app_assoc.
      destruct (rev X); [reflexivity | rewrite !string_app_assoc; reflexivity].
    + destruct (rev X) as [| a l].
      * destruct abs; [right | left]; reflexivity.
      * right. rewrite <- string_app_assoc. apply ends_with_app.
    + unfold abs; intros ->; reflexivity.
    + intros f Hfd Hfs Hb.
      rewrite string_exists_app.
      replace (string_exists f (if abs then "/" else "")) with false
        by (destruct abs; cbn [string_exists]; rewrite ?Hfs; reflexivity).
      cbn [orb].
      destruct (rev X) as [| a l] eqn:HX; [reflexivity |].
      rewrite string_exists_app.
      replace (string_exists f "/") with false by (simpl; rewrite Hfs; reflexivity).
      rewrite orb_false_r.
      apply string_exists_concat; [simpl; rewrite Hfs; reflexivity |].
      rewrite <- HX. apply Forall_rev. subst X.
      apply PathFacts.normalize_no; [assumption | apply PathFacts.split_no; assumption |
                                      constructor].
Qed.

(** Joining a plain glob onto the current directory gives the glob. *)
Lemma join_dot (glob : string) : plain_glob glob = true -> Path.join ["."; glob] = glob.
Proof.
  intros Hplain; destruct (@plain_glob_facts glob Hplain) as (Hne & Hrel & Htrail).
  set (p := "." ++ String "/" glob).
  assert (Hjoin : Path.join ["."; glob] = Path.normalize p).
  { unfold Path.join; cbn [filter String.eqb negb]; rewrite Hne; reflexivity. }
  assert (F3 : ends_with "/" p = false).
  { unfold p; change ("." ++ String "/" glob) with ("./" ++ glob).
    rewrite (@ends_with_app_nonempty "./" glob Hne); exact Htrail. }
  assert (F4 : Path.normalizeString p true = glob).
  { unfold Path.normalizeString, p.
    rewrite PathFacts.split_app, fold_left_app.
    change (fold_left (Path.normalize_step true) (Path.split ".") []) with (@nil string).
    rewrite (@kept_fold true _ [] Hplain), app_nil_r, rev_involutive.
    apply concat_split. }
  rewrite Hjoin; unfold Path.normalize.
  change (p =? "") with false; cbv iota.
  change (Path.isAbsolute p) with false; cbn [negb].
  rewrite F3, F4, Hne; apply string_app_empty.
Qed.

(** The loop of [resolve] stops at the working directory at the latest. *)
Lemma resolve_loop_absolute (cwd : string) (paths : list string) (acc : string) :
  Path.isAbsolute cwd = true ->
  snd (Path.resolve_loop (paths ++ [cwd]) acc) = true.
Proof.
  intros Hcwd; revert acc; induction paths as [| path paths IH]; intros acc;
    cbn [app Path.resolve_loop].
  - destruct cwd as [| c cwd]; [discriminate |].
    cbn [String.eqb]; rewrite Hcwd; reflexivity.
  - destruct (path =? ""); [apply IH |].
    destruct (Path.isAbsolute path); [reflexivity | apply IH].
Qed.

(** [path.posix.resolve] returns an absolute path when the working
    directory is one. *)
Lemma resolve_absolute (cwd : string) (args : list string) :
  Path.isAbsolute cwd = true -> Path.isAbsolute (Path.resolve cwd args) = true.
Proof.
  intros Hcwd; unfold Path.resolve.
  pose proof (@resolve_loop_absolute cwd (rev args) "" Hcwd) as H.
  destruct (Path.resolve_loop (rev args ++ [cwd]) "") as [p abs]; cbn [snd] in H.
  subst abs; reflexivity.
Qed.

Lemma toPosixSlashes_absolute (s : string) :
  Path.isAbsolute s = true -> Path.isAbsolute (toPosixSlashes s) = true.
Proof.
  destruct s as [| c s]; [discriminate |].
  unfold Path.isAbsolute; cbn [toPosixSlashes starts_with].
  destruct (Ascii.eqb_spec c "\") as [-> | _]; [reflexivity | exact (fun H => H)].
Qed.

End JoinFacts.

(** Joining and resolving the paths that normalization leaves as they
    are. *)
Module ResolveFacts.

Lemma toPosixSlashes_app (a b : string) :
  toPosixSlashes (a ++ b) = toPosixSlashes a ++ toPosixSlashes b.
Proof. induction a as [| c a IH]; cbn [append toPosixSlashes]; congruence. Qed.

(** A plain path is its own normal form. *)
Lemma normalize_plain (p : string) : plain_glob p = true -> Path.normalize p = p.
Proof.
  intros Hplain; destruct (@JoinFacts.plain_glob_facts p Hplain) as (Hne & Hrel & Htrail).
  unfold Path.normalize; rewrite Hne, Hrel, Htrail; cbn [negb].
  unfold Path.normalizeString.
  rewrite (@JoinFacts.kept_fold true _ [] Hplain), app_nil_r, rev_involutive.
  rewrite JoinFacts.concat_split, Hne; apply string_app_empty.
Qed.

(** Plain paths joined by slashes make a plain path. *)
Lemma plain_concat (a : string) (l : list string) :
  Forall (fun x => plain_glob x = true) (a :: l) ->
  plain_glob (String.concat "/" (a :: l)) = true.
Proof.
  revert a; induction l as [| b l IH]; intros a H; inversion H as [| ? ? Ha Hl]; subst.
  - exact Ha.
  - change (String.concat "/" (a :: b :: l))
      with (a ++ String "/" (String.concat "/" (b :: l))).
    unfold plain_glob; rewrite PathFacts.split_app, forallb_app.
    fold (plain_glob a); fold (plain_glob (String.concat "/" (b :: l))).
    rewrite Ha, (IH b Hl); reflexivity.
Qed.

Lemma filter_nonempty_plain (l : list string) :
  Forall (fun x => plain_glob x = true) l ->
  filter (fun a => negb (a =? "")) l = l.
Proof.
  induction 1 as [| a l Ha _ IH]; cbn [filter]; [reflexivity |].
  destruct (@JoinFacts.plain_glob_facts a Ha) as (Hne & _).
  rewrite Hne, IH; reflexivity.
Qed.

(** [path.posix.join] of plain paths puts slashes between them. *)
Lemma join_plain (a : string) (l : list string) :
  Forall (fun x => plain_glob x = true) (a :: l) ->
  Path.join (a :: l) = String.concat "/" (a :: l).
Proof.
  intros H; unfold Path.join; rewrite (@filter_nonempty_plain _ H).
  apply normalize_plain, plain_concat; exact H.
Qed.

Lemma ends_with_inv (p s : string) : ends_with p s = true -> exists a, s = a ++ p.
Proof.
  induction s as [| c s IH]; cbn [ends_with]; intros H; apply orb_true_iff in H as [H | H].
  - apply String.eqb_eq in H; exists ""; exact H.
  - discriminate.
  - apply String.eqb_eq in H; exists ""; exact H.
  - destruct (IH H) as (a & ->); exists (String c a); reflexivity.
Qed.

Lemma starts_with_app (p a b : string) :
  starts_with p a = true -> starts_with p (a ++ b) = true.
Proof.
  revert a; induction p as [| x p IH]; intros a; [reflexivity |].
  destruct a as [| y a]; [discriminate |].
  cbn [starts_with append]; intros H; apply andb_true_iff in H as [-> H].
  rewrite (IH _ H); reflexivity.
Qed.

Lemma toPosixSlashes_concat (l : list string) :
  toPosixSlashes (String.concat "/" l) = String.concat "/" (map toPosixSlashes l).
Proof.
  induction l as [| a l IH]; [reflexivity |].
  destruct l as [| b l]; [reflexivity |].
  change (String.concat "/" (a :: b :: l))
    with (a ++ "/" ++ String.concat "/" (b :: l)).
  rewrite !toPosixSlashes_app, IH; reflexivity.
Qed.

(** An absolute path with plain segments is its own normal form. *)
Lemma normalize_absolute_plain (p : string) :
  plain_glob p = true -> Path.normalize ("/" ++ p) = "/" ++ p.
Proof.
  intros Hplain; destruct (@JoinFacts.plain_glob_facts p Hplain) as (Hne & Hrel & Htrail).
  unfold Path.normalize.
  change ("/" ++ p =? "") with false; change (Path.isAbsolute ("/" ++ p)) with true.
  cbv iota; cbn [negb].
  rewrite (@JoinFacts.ends_with_app_nonempty "/" p Hne), Htrail.
  unfold Path.normalizeString.
  change (Path.split ("/" ++ p)) with ("" :: Path.split p).
  change (fold_left (Path.normalize_step false) ("" :: Path.split p) [])
    with (fold_left (Path.normalize_step false) (Path.split p) []).
  rewrite (@JoinFacts.kept_fold false _ [] Hplain), app_nil_r, rev_involutive.
  rewrite JoinFacts.concat_split, Hne, string_app_empty; reflexivity.
Qed.

Lemma plain_paths (l : list string) :
  Forall (fun a => plain_path a = true) l ->
  Forall (fun a => plain_glob a = true) l
  /\ Forall (fun a => plain_glob a = true) (map toPosixSlashes l).
Proof.
  induction 1 as [| a l Ha _ [IH1 IH2]]; [split; constructor |].
  apply andb_true_iff in Ha as [H1 H2]; split; constructor; assumption.
Qed.

(** Joining a plain glob onto a path that ends with plain segments puts a
    slash between them. *)
Lemma join_after_plain (Z seg glob : string) :
  plain_glob seg = true -> plain_glob glob = true ->
  Z = "" \/ ends_with "/" Z = true ->
  ends_with ("/" ++ glob) (Path.join [Z ++ seg; glob]) = true.
Proof.
  intros Hseg Hglob HZ.
  assert (Hboth : plain_glob (seg ++ "/" ++ glob) = true)
    by (apply (@plain_concat seg [glob]); repeat constructor; assumption).
  destruct (@JoinFacts.plain_glob_facts _ Hseg) as (Hsne & _).
  destruct (@JoinFacts.plain_glob_facts _ Hglob) as (Hgne & _).
  destruct HZ as [-> | HZ].
  - cbn [append]. rewrite (@join_plain seg [glob]) by (repeat constructor; assumption).
    apply (ends_with_app ("/" ++ glob) seg).
  - apply ends_with_inv in HZ as (Z' & ->).
    assert (Hjoin : Path.join [(Z' ++ "/") ++ seg; glob]
                    = Path.normalize (Z' ++ "/" ++ seg ++ "/" ++ glob)).
    { unfold Path.join; cbn [filter]; rewrite Hgne.
      replace ((Z' ++ "/") ++ seg =? "") with false
        by (destruct Z'; cbn [append String.eqb]; reflexivity).
      cbn [negb String.concat]; rewrite !string_app_assoc; reflexivity. }
    destruct Z' as [| c Z'].
    + rewrite Hjoin; cbn [append].
      change (String "/" (seg ++ String "/" glob)) with ("/" ++ (seg ++ "/" ++ glob)).
      rewrite (@normalize_absolute_plain _ Hboth).
      change ("/" ++ seg ++ "/" ++ glob) with (("/" ++ seg) ++ ("/" ++ glob)).
      apply ends_with_app.
    + destruct (@JoinFacts.join_plain_glob (String c Z') _ Hboth) as (q & Hq & _).
      assert (Hsame : Path.join [String c Z'; seg ++ "/" ++ glob]
                      = Path.normalize (String c Z' ++ "/" ++ seg ++ "/" ++ glob)).
      { unfold Path.join; cbn [filter String.eqb negb].
        replace (seg ++ "/" ++ glob =? "") with false
          by (destruct seg; [discriminate | reflexivity]).
        reflexivity. }
      rewrite Hjoin, <- Hsame, Hq.
      change (seg ++ "/" ++ glob) with (seg ++ ("/" ++ glob)).
      rewrite <- string_app_assoc; apply ends_with_app.
Qed.

(** The loop of [resolve] on relative paths reaches the working
    directory. *)
Lemma resolve_loop_plain (c : string) (l : list string) (acc : string) :
  Forall (fun a => plain_glob a = true) l ->
  Path.resolve_loop (rev l ++ ["/" ++ c]) acc
  = ("/" ++ String.concat "/" (c :: l) ++ "/" ++ acc, true).
Proof.
  intros H; revert acc; induction l as [| x l IH] using rev_ind; intros acc.
  - reflexivity.
  - apply Forall_app in H as [Hl Hx]; inversion Hx as [| ? ? Hx' _]; subst.
    destruct (@JoinFacts.plain_glob_facts _ Hx') as (Hne & Hrel & _).
    rewrite rev_app_distr; cbn [rev app Path.resolve_loop].
    rewrite Hne, Hrel, (IH Hl _).
    change (c :: l ++ [x])%list with ((c :: l) ++ [x])%list.
    rewrite concat_snoc; cbn [app].
    rewrite !string_app_assoc; reflexivity.
Qed.

(** [path.posix.resolve] of plain relative paths, from a plain absolute
    working directory. *)
Lemma resolve_plain (c : string) (l : list string) :
  Forall (fun a => plain_glob a = true) (c :: l) ->
  Path.resolve ("/" ++ c) l = "/" ++ String.concat "/" (c :: l).
Proof.
  intros H; inversion H as [| ? ? Hc Hl]; subst.
  unfold Path.resolve; rewrite (@resolve_loop_plain c l "" Hl).
  pose proof (@plain_concat _ _ H) as Hplain.
  set (P := String.concat "/" (c :: l)) in *.
  unfold Path.normalizeString.
  change ("/" ++ P ++ "/" ++ "") with (String "/" (P ++ String "/" "")).
  cbn [Path.split Ascii.eqb]. rewrite Ascii.eqb_refl.
  rewrite PathFacts.split_app.
  change (fold_left (Path.normalize_step (negb true)) ("" :: Path.split P ++ Path.split "") [])
    with (fold_left (Path.normalize_step false) (Path.split P ++ [""]) []).
  rewrite fold_left_app, (@JoinFacts.kept_fold false _ [] Hplain), app_nil_r.
  cbn [fold_left]. unfold Path.normalize_step at 1; cbn [String.eqb orb].
  rewrite rev_involutive, JoinFacts.concat_split; reflexivity.
Qed.

(** [path.posix.resolve] of one plain segment: the segment comes last,
    after a slash unless nothing comes before it. *)
Lemma resolve_segment (cwd seg : string) :
  plain_glob seg = true ->
  string_exists (Ascii.eqb "/") seg = false ->
  exists Z,
    Path.resolve cwd [seg] = Z ++ seg
    /\ (Z = "" \/ ends_with "/" Z = true)
    /\ (starts_with "\" cwd = true -> string_exists (Ascii.eqb "/") cwd = false ->
        Z = cwd ++ "/").
Proof.
  intros Hseg Hno.
  destruct (@JoinFacts.plain_glob_facts _ Hseg) as (Hne & Hrel & _).
  assert (Hsplit : Path.split seg = [seg]) by (apply PathFacts.split_no_slash; exact Hno).
  assert (Hkept : kept_segment seg = true).
  { unfold plain_glob in Hseg; rewrite Hsplit in Hseg; cbn [forallb] in Hseg.
    rewrite andb_true_r in Hseg; exact Hseg. }
  assert (Hstep : forall allow res, Path.normalize_step allow res seg = seg :: res).
  { intros allow res. apply (@JoinFacts.kept_fold allow [seg] res).
    cbn [forallb]; rewrite Hkept; reflexivity. }
  unfold Path.resolve; cbn [rev app Path.resolve_loop]; rewrite Hne, Hrel.
  destruct (cwd =? "") eqn:Hcwd.
  - exists ""; split; [| split; [left; reflexivity |]].
    + cbn [negb]. unfold Path.normalizeString.
      change (seg ++ "/" ++ "") with (seg ++ String "/" "").
      rewrite PathFacts.split_app, Hsplit; cbn [app fold_left Path.split].
      rewrite Hstep; unfold Path.normalize_step; cbn [String.eqb orb rev app String.concat].
      rewrite Hne; reflexivity.
    + apply String.eqb_eq in Hcwd; subst cwd; discriminate.
  - set (abs := Path.isAbsolute cwd).
    set (X := fold_left (Path.normalize_step (negb abs)) (Path.split cwd) []).
    assert (Hloop : (if abs then (cwd ++ "/" ++ seg ++ "/" ++ "", true)
                     else (cwd ++ "/" ++ seg ++ "/" ++ "", false))
                    = (cwd ++ "/" ++ seg ++ "/" ++ "", abs))
      by (destruct abs; reflexivity).
    rewrite Hloop.
    assert (Hnorm : Path.normalizeString (cwd ++ "/" ++ seg ++ "/" ++ "") (negb abs)
                    = match rev X with
                      | [] => seg
                      | _ :: _ => String.concat "/" (rev X) ++ "/" ++ seg
                      end).
    { unfold Path.normalizeString.
      change (cwd ++ "/" ++ seg ++ "/" ++ "") with (cwd ++ String "/" (seg ++ String "/" "")).
      rewrite !PathFacts.split_app, Hsplit, fold_left_app; fold X.
      cbn [app fold_left Path.split]; rewrite Hstep.
      unfold Path.normalize_step; cbn [String.eqb orb rev].
      apply concat_snoc. }
    rewrite Hnorm.
    exists ((if abs then "/" else "")
            ++ match rev X with
               | [] => ""
               | _ :: _ => String.concat "/" (rev X) ++ "/"
               end).
    split; [| split].
    + destruct abs.
      * destruct (rev X); [reflexivity |].
        cbn [append]; rewrite !string_app_assoc; reflexivity.
      * replace (match rev X with
                 | [] => seg
                 | _ :: _ => String.concat "/" (rev X) ++ "/" ++ seg
                 end =? "") with false
          by (destruct (rev X) as [| a l]; [rewrite Hne; reflexivity |];
              destruct (String.concat "/" (a :: l)); reflexivity).
        destruct (rev X); [reflexivity |].
        cbn [append]; rewrite !string_app_assoc; reflexivity.
    + destruct (rev X) as [| a l].
      * destruct abs; [right | left]; reflexivity.
      * right; rewrite <- string_app_assoc; apply ends_with_app.
    + intros Hbs Hns.
      assert (Hback : exists rest, cwd = String "\" rest).
      { destruct cwd as [| c rest]; [discriminate |].
        cbn [starts_with] in Hbs; apply andb_true_iff in Hbs as [Hc _].
        apply Ascii.eqb_eq in Hc; subst c; eauto. }
      destruct Hback as (rest & Hrest).
      assert (Habs : abs = false) by (unfold abs; rewrite Hrest; reflexivity).
      assert (HX : X = [cwd]).
      { unfold X. rewrite (@PathFacts.split_no_slash _ Hns).
        apply (@JoinFacts.kept_fold (negb abs) [cwd] []).
        rewrite Hrest; reflexivity. }
      rewrite Habs, HX; cbn [rev app String.concat append]; reflexivity.
Qed.

End ResolveFacts.


Section PathClaims.

Context {R : Runtime}.

Lemma pop_snoc {A} (args : list A) (glob : A) : pop (args ++ [glob]) = (Some glob, args).
Proof.
  unfold pop; rewrite map_app, removelast_last; simpl.
  rewrite last_last; reflexivity.
Qed.

(** C9 (as the code has it). [join] pops the glob, joins the arguments
    before it as a POSIX path, turns the backslashes of the result into
    slashes and POSIX-joins the glob onto it: arguments that normalization
    leaves as they are end up separated by slashes, so that
    [join('a', 'b', '*.js')] is ['a/b/*.js'], and a plain glob is always
    the end of the result, after a slash when something comes before it,
    and after no backslash.  [resolve] does the same with the base
    resolved against the directory [path.posix.resolve] falls back on: from
    a plain absolute directory the result is that directory, the arguments
    and the glob, separated by slashes.  On every host
    [resolve('a', '*.js')] ends in [/*.js] and holds no backslash; it is
    absolute when that directory is absolute, or is a backslash path that
    starts with a backslash. *)
Theorem join_and_resolve_put_the_glob_last :
  (forall args glob,
     Forall (fun a => plain_path a = true) args -> plain_glob glob = true ->
     join (args ++ [glob]) = ret (String.concat "/" (map toPosixSlashes args ++ [glob])))
  /\ join ["a"; "b"; "*.js"] = ret "a/b/*.js"
  /\ (forall args glob,
        plain_glob glob = true ->
        exists q,
          join (args ++ [glob]) = ret (q ++ glob)
          /\ (q = "" \/ ends_with "/" q = true)
          /\ string_exists (Ascii.eqb "\") q = false)
  /\ (forall args glob,
        plain_glob glob = true ->
        exists q,
          resolve (args ++ [glob]) = ret (q ++ glob)
          /\ (q = "" \/ ends_with "/" q = true)
          /\ string_exists (Ascii.eqb "\") q = false
          /\ (Path.isAbsolute posix_cwd = true -> Path.isAbsolute q = true))
  /\ (forall c args glob,
        posix_cwd = "/" ++ c ->
        Forall (fun a => plain_path a = true) (c :: args) -> plain_glob glob = true ->
        resolve (args ++ [glob])
        = ret ("/" ++ String.concat "/" (map toPosixSlashes (c :: args) ++ [glob])))
  /\ exists p,
       resolve ["a"; "*.js"] = ret p
       /\ ends_with "/*.js" p = true
       /\ string_exists (Ascii.eqb "\") p = false
       /\ (Path.isAbsolute posix_cwd = true
           \/ (starts_with "\" posix_cwd = true
               /\ string_exists (Ascii.eqb "/") posix_cwd = false) ->
           Path.isAbsolute p = true).
Proof.
  assert (Hback : forall f : ascii -> bool, f = Ascii.eqb "\" ->
                    f "."%char = false /\ f "/"%char = false)
    by (intros f ->; split; reflexivity).
  split; [| split; [| split; [| split; [| split]]]].
  - intros args glob Hargs Hglob.
    destruct (@ResolveFacts.plain_paths _ Hargs) as (Hplain & Hposix).
    unfold join; rewrite pop_snoc; f_equal.
    destruct args as [| a args].
    + change (toPosixSlashes (Path.join [])) with ".".
      apply JoinFacts.join_dot; exact Hglob.
    + rewrite (@ResolveFacts.join_plain _ _ Hplain), ResolveFacts.toPosixSlashes_concat.
      set (P := String.concat "/" (map toPosixSlashes (a :: args))).
      assert (HP : plain_glob P = true) by (apply ResolveFacts.plain_concat; exact Hposix).
      rewrite (@ResolveFacts.join_plain P [glob]) by (repeat constructor; assumption).
      unfold P; rewrite concat_snoc; reflexivity.
  - reflexivity.
  - intros args glob Hglob; unfold join; rewrite pop_snoc.
    destruct (@JoinFacts.join_plain_glob (toPosixSlashes (Path.join args)) _ Hglob)
      as (q & Hq & Hend & _ & Hno).
    exists q; split; [rewrite Hq; reflexivity | split; [exact Hend |]].
    destruct (Hback _ eq_refl) as [Hd Hs].
    apply (Hno _ Hd Hs), toPosixSlashes_no_backslash.
  - intros args glob Hglob; unfold resolve; rewrite pop_snoc.
    destruct (@JoinFacts.join_plain_glob
                (toPosixSlashes (Path.resolve posix_cwd args)) _ Hglob)
      as (q & Hq & Hend & Habs & Hno).
    exists q; split; [rewrite Hq; reflexivity | split; [exact Hend | split]].
    + destruct (Hback _ eq_refl) as [Hd Hs].
      apply (Hno _ Hd Hs), toPosixSlashes_no_backslash.
    + intros Hcwd; apply Habs, JoinFacts.toPosixSlashes_absolute.
      apply JoinFacts.resolve_absolute; exact Hcwd.
  - intros c args glob Hcwd Hargs Hglob.
    destruct (@ResolveFacts.plain_paths _ Hargs) as (Hplain & Hposix).
    unfold resolve; rewrite pop_snoc, Hcwd; f_equal.
    rewrite (@ResolveFacts.resolve_plain _ _ Hplain).
    change (toPosixSlashes ("/" ++ String.concat "/" (c :: args)))
      with ("/" ++ toPosixSlashes (String.concat "/" (c :: args))).
    rewrite ResolveFacts.toPosixSlashes_concat.
    set (P := String.concat "/" (map toPosixSlashes (c :: args))).
    assert (HP : plain_glob P = true) by (apply ResolveFacts.plain_concat; exact Hposix).
    assert (Hboth : plain_glob (P ++ "/" ++ glob) = true)
      by (apply (@ResolveFacts.plain_concat P [glob]); repeat constructor; assumption).
    destruct (@JoinFacts.plain_glob_facts _ Hglob) as (Hgne & _).
    assert (Hjoin : Path.join ["/" ++ P; glob] = Path.normalize ("/" ++ P ++ "/" ++ glob)).
    { unfold Path.join; cbn [filter append String.eqb negb]; rewrite Hgne.
      cbn [negb String.concat append]; reflexivity. }
    rewrite Hjoin, (@ResolveFacts.normalize_absolute_plain _ Hboth).
    unfold P; rewrite concat_snoc; reflexivity.
  - exists (Path.join [toPosixSlashes (Path.resolve posix_cwd ["a"]); "*.js"]).
    split; [reflexivity |].
    destruct (@ResolveFacts.resolve_segment posix_cwd "a" eq_refl eq_refl) as (Z & HZ & Hend & Hbs).
    rewrite HZ, ResolveFacts.toPosixSlashes_app.
    change (toPosixSlashes "a") with "a".
    assert (Hend' : toPosixSlashes Z = "" \/ ends_with "/" (toPosixSlashes Z) = true).
    { destruct Hend as [-> | Hend]; [left; reflexivity | right].
      apply ResolveFacts.ends_with_inv in Hend as (Z' & ->).
      rewrite ResolveFacts.toPosixSlashes_app; apply ends_with_app. }
    destruct (@JoinFacts.join_plain_glob (toPosixSlashes Z ++ "a") "*.js" eq_refl)
      as (q & Hq & _ & Habs & Hno).
    split; [| split].
    + apply (@ResolveFacts.join_after_plain (toPosixSlashes Z) "a" "*.js" eq_refl eq_refl Hend').
    + destruct (Hback _ eq_refl) as [Hd Hs].
      rewrite Hq, string_exists_app, (Hno _ Hd Hs); [reflexivity |].
      rewrite string_exists_app, toPosixSlashes_no_backslash; reflexivity.
    + intros Hcwd. rewrite Hq; apply ResolveFacts.starts_with_app, Habs.
      destruct Hcwd as [Hcwd | [Hcwd Hns]].
      * change (toPosixSlashes Z ++ "a") with (toPosixSlashes Z ++ toPosixSlashes "a").
        rewrite <- ResolveFacts.toPosixSlashes_app, <- HZ.
        apply JoinFacts.toPosixSlashes_absolute, JoinFacts.resolve_absolute; exact Hcwd.
      * rewrite (Hbs Hcwd Hns), ResolveFacts.toPosixSlashes_app.
        destruct posix_cwd as [| x rest]; [discriminate |].
        cbn [starts_with] in Hcwd; apply andb_true_iff in Hcwd as [Hx _].
        apply Ascii.eqb_eq in Hx; subst x; reflexivity.
Qed.

End PathClaims.

(** C9 in the working directory [/home/user], and [join] on an argument
    with a backslash. *)
Lemma join_and_resolve_put_the_glob_last_witness :
  @resolve (node "/home/user") ["src"; "lib"; "*.js"] = ret "/home/user/src/lib/*.js"
  /\ join ["a\b"; "c"; "*.js"] = ret "a/b/c/*.js"
  /\ exists p,
       @resolve (node "/home/user") ["a"; "*.js"] = ret p
       /\ Path.isAbsolute p = true
       /\ ends_with "/*.js" p = true
       /\ string_exists (Ascii.eqb "\") p = false.
Proof.
  destruct (@join_and_resolve_put_the_glob_last (node "/home/user"))
    as (Hjoin & _ & _ & _ & Hresolve & p & Hp & Hend & Hno & Habs).
  split; [| split].
  - apply (Hresolve "home/user" ["src"; "lib"] "*.js" eq_refl); [| reflexivity].
    repeat constructor.
  - apply (Hjoin ["a\b"; "c"] "*.js"); [| reflexivity].
    repeat constructor.
  - exists p; split; [exact Hp | split; [| split; [exact Hend | exact Hno]]].
    apply Habs; left; reflexivity.
Defined.

(** C9 fails in a working directory with a drive letter, on a host whose
    [path.posix.resolve] falls back on [process.cwd()] as it is: the
    backslashes of the directory become slashes, and the result starts
    with the drive letter, not with a slash. *)
Lemma resolve_keeps_the_drive_letter :
  @resolve (node "C:\Users\x") ["a"; "*.js"] = ret "C:/Users/x/a/*.js"
  /\ Path.isAbsolute "C:/Users/x/a/*.js" = false.
Proof. split; reflexivity. Qed.

(* ------------------------------------------------------------------ *)
(** * Lemmas: regular expression sources *)

Module ESFacts.

Import ES.

Lemma chars_app (a b : string) :
  list_ascii_of_string (a ++ b)
  = (list_ascii_of_string a ++ list_ascii_of_string b)%list.
Proof. induction a as [| c a IH]; simpl; [reflexivity | rewrite IH; reflexivity]. Qed.

Lemma run_app (st : pstate) (s1 s2 : list ascii) :
  run st (s1 ++ s2)
  = match run st s1 with
    | Ok st' => run st' s2
    | Malformed => Malformed
    | Unsupported => Unsupported
    end.
Proof.
  revert st; induction s1 as [| c s1 IH]; intros st; simpl; [reflexivity |].
  destruct (step st c); [apply IH | reflexivity | reflexivity].
Qed.

Lemma step_normal_under (below : list (group_kind * frame)) (st st' : pstate) (c : ascii) :
  step_normal st c = Ok st' ->
  step_normal (under below st) c = Ok (under below st').
Proof.
  unfold step_normal, quantify.
  repeat match goal with
         | |- context [if ?b then _ else _] => destruct b
         end;
    try (intros H; inversion H; subst; reflexivity).
  - destruct st as [m [| [k parent] stk] f]; simpl; intros H; inversion H; reflexivity.
  - cbn [under top stack]. destruct (terms (top st)) as [| t ts]; [discriminate |].
    destruct (quantifiable t); [| destruct t; discriminate].
    intros H; inversion H; reflexivity.
  - cbn [under top stack]. destruct (terms (top st)) as [| t ts]; [discriminate |].
    destruct (quantifiable t); [| destruct t; discriminate].
    intros H; inversion H; reflexivity.
  - cbn [under top stack]. destruct (terms (top st)) as [| t ts]; [discriminate |].
    destruct (quantifiable t); [| destruct t; discriminate].
    intros H; inversion H; reflexivity.
Qed.

Lemma step_under (below : list (group_kind * frame)) (st st' : pstate) (c : ascii) :
  step st c = Ok st' -> step (under below st) c = Ok (under below st').
Proof.
  unfold step; cbn [under pmode].
  destruct (pmode st) eqn:Hmode.
  - apply step_normal_under.
  - destruct (is_alnum c); intros H; inversion H; reflexivity.
  - destruct (c =? "?")%char; [intros H; inversion H; reflexivity |].
    apply (step_normal_under below (open Capture st)).
  - repeat match goal with
           | |- context [if ?b then _ else _] => destruct b
           end; intros H; inversion H; reflexivity.
  - destruct (c =? "?")%char.
    + cbn [under top stack]. destruct (terms (top st)) as [| [] ts]; try discriminate.
      destruct lazy; intros H; inversion H; reflexivity.
    + apply (step_normal_under below (set_mode Normal st)).
  - destruct (c =? "^")%char; [intros H; inversion H; reflexivity |].
    unfold step_class.
    repeat match goal with
           | |- context [if ?b then _ else _] => destruct b
           | |- context [match class_ranges ?l with _ => _ end] => destruct (class_ranges l)
           end; intros H; inversion H; reflexivity.
  - unfold step_class.
    repeat match goal with
           | |- context [if ?b then _ else _] => destruct b
           | |- context [match class_ranges ?l with _ => _ end] => destruct (class_ranges l)
           end; intros H; inversion H; reflexivity.
  - destruct (is_alnum c); intros H; inversion H; reflexivity.
Qed.

Lemma run_under (below : list (group_kind * frame)) (s : list ascii) (st st' : pstate) :
  run st s = Ok st' -> run (under below st) s = Ok (under below st').
Proof.
  revert st; induction s as [| c s IH]; simpl; intros st H.
  - inversion H; reflexivity.
  - destruct (step st c) as [st1 | |] eqn:Hstep; try discriminate.
    rewrite (@step_under below st st1 c Hstep); apply IH; exact H.
Qed.

(** A source that is a regular expression of its own, followed by a
    closing parenthesis, closes the group that was opened before it. *)
Lemma run_group (k : group_kind) (st : pstate) (src : string) (r : re) :
  parse_source src = Ok r ->
  run (open k st) (list_ascii_of_string src ++ [")"%char]) = Ok (push (close k r) st).
Proof.
  unfold parse_source; intros H.
  destruct (run init (list_ascii_of_string src)) as [st1 | |] eqn:Hrun;
    try discriminate.
  rewrite run_app.
  change (open k st) with (under ((k, top st) :: stack st) init).
  rewrite (@run_under _ _ _ _ Hrun).
  unfold finalize in H.
  destruct st1 as [m stk f]; cbn [pmode stack top] in H.
  destruct m; try discriminate; destruct stk; try discriminate;
    inversion H; subst; reflexivity.
Qed.

Lemma parse_anchored (src : string) (r : re) :
  parse_source src = Ok r ->
  parse_source ("^(?:" ++ src ++ ")$") = Ok (Seq Bol (Seq (Group r) (Seq Eol Empty))).
Proof.
  intros H; unfold parse_source.
  change ("^(?:" ++ src ++ ")$")
    with (String "^" (String "(" (String "?" (String ":" (src ++ ")$"))))).
  cbn [list_ascii_of_string run].
  change (step init "^") with (Ok (push Bol init)); cbv iota.
  change (step (push Bol init) "(") with (Ok (set_mode Open1 (push Bol init))); cbv iota.
  change (step (set_mode Open1 (push Bol init)) "?")
    with (Ok (set_mode Open2 (push Bol init))); cbv iota.
  change (step (set_mode Open2 (push Bol init)) ":")
    with (Ok (open NonCapture (push Bol init))); cbv iota.
  rewrite chars_app.
  change (list_ascii_of_string ")$") with ([")"%char] ++ ["$"%char])%list.
  rewrite app_assoc, run_app, (@run_group NonCapture _ _ _ H).
  reflexivity.
Qed.

Lemma parse_unanchored (src : string) (r : re) :
  parse_source src = Ok r ->
  parse_source ("(?:" ++ src ++ ")") = Ok (Seq (Group r) Empty).
Proof.
  intros H; unfold parse_source.
  change ("(?:" ++ src ++ ")") with (String "(" (String "?" (String ":" (src ++ ")")))).
  cbn [list_ascii_of_string run].
  change (step init "(") with (Ok (set_mode Open1 init)); cbv iota.
  change (step (set_mode Open1 init) "?") with (Ok (set_mode Open2 init)); cbv iota.
  change (step (set_mode Open2 init) ":") with (Ok (open NonCapture init)); cbv iota.
  rewrite chars_app.
  change (list_ascii_of_string ")") with [")"%char].
  rewrite (@run_group NonCapture _ _ _ H).
  reflexivity.
Qed.

Lemma parse_negated (src : string) (r : re) :
  parse_source src = Ok r ->
  parse_source ("^(?!" ++ src ++ ").*$")
  = Ok (Seq Bol (Seq (Look false r) (Seq (Quant Star false Any) (Seq Eol Empty)))).
Proof.
  intros H; unfold parse_source.
  change ("^(?!" ++ src ++ ").*$")
    with (String "^" (String "(" (String "?" (String "!" (src ++ ").*$"))))).
  cbn [list_ascii_of_string run].
  change (step init "^") with (Ok (push Bol init)); cbv iota.
  change (step (push Bol init) "(") with (Ok (set_mode Open1 (push Bol init))); cbv iota.
  change (step (set_mode Open1 (push Bol init)) "?")
    with (Ok (set_mode Open2 (push Bol init))); cbv iota.
  change (step (set_mode Open2 (push Bol init)) "!")
    with (Ok (open LookNeg (push Bol init))); cbv iota.
  rewrite chars_app.
  change (list_ascii_of_string ").*$")
    with ([")"%char] ++ ["."%char; "*"%char; "$"%char])%list.
  rewrite app_assoc, run_app, (@run_group LookNeg _ _ _ H).
  reflexivity.
Qed.

End ESFacts.

(** Regex objects without the [g] and [y] flags. *)
Module ObjectFacts.

Lemma string_exists_or (f g : ascii -> bool) (s : string) :
  string_exists (fun c => f c || g c) s = string_exists f s || string_exists g s.
Proof.
  induction s as [| c s IH]; [reflexivity |].
  cbn [string_exists]; rewrite IH.
  destruct (f c), (g c), (string_exists f s), (string_exists g s); reflexivity.
Qed.

Lemma string_exists_ext (f g : ascii -> bool) (s : string) :
  (forall c, f c = g c) -> string_exists f s = string_exists g s.
Proof.
  intros H; induction s as [| c s IH]; [reflexivity |].
  cbn [string_exists]; rewrite H, IH; reflexivity.
Qed.

(** Without the [g] and [y] flags, [exec] searches from the start of the
    string and leaves [lastIndex] as it is. *)
Lemma exec_at_stateless (o : ES.object) (str : string) :
  ES.global o = false -> ES.sticky o = false ->
  ES.exec_at o str = (ES.exec (ES.rx o) str, ES.lastIndex o).
Proof.
  intros Hg Hy; unfold ES.exec_at, ES.exec; rewrite Hg, Hy; cbn [orb].
  unfold Nat.ltb; cbn [Nat.leb]; rewrite Nat.sub_0_r.
  destruct (ES.exec_from _ _ _ 0 _) as [[b e] |]; reflexivity.
Qed.

(** A regex that [toRegex] builds from flags without [g] and [y] is the
    same object after [exec] as before. *)
Lemma toRegex_stateless (cwd source : string) (options : Options.t) (o : ES.object)
    (str : string) :
  stateless_flags options = true ->
  toRegex (R := node_objects cwd) source options = inr o ->
  ES.exec_at o str = (ES.exec (ES.rx o) str, ES.lastIndex o).
Proof.
  unfold stateless_flags; intros Hflags Ho.
  apply negb_true_iff in Hflags; rewrite string_exists_or in Hflags.
  apply orb_false_iff in Hflags as [Hg Hy].
  rewrite (string_exists_ext _ (Ascii.eqb "g") _ (fun c => Ascii.eqb_sym c "g")) in Hg.
  rewrite (string_exists_ext _ (Ascii.eqb "y") _ (fun c => Ascii.eqb_sym c "y")) in Hy.
  apply exec_at_stateless.
  - unfold toRegex in Ho; cbn [RegExp_new node_objects] in Ho.
    unfold ES.compile_object in Ho.
    destruct (ES.parse_source source); [destruct (ES.flags_ok _) |..];
      try (destruct (Options.debug options); inversion Ho; reflexivity);
      inversion Ho; exact Hg.
  - unfold toRegex in Ho; cbn [RegExp_new node_objects] in Ho.
    unfold ES.compile_object in Ho.
    destruct (ES.parse_source source); [destruct (ES.flags_ok _) |..];
      try (destruct (Options.debug options); inversion Ho; reflexivity);
      inversion Ho; exact Hy.
Qed.

End ObjectFacts.

(* ------------------------------------------------------------------ *)
(** * Lemmas: matching *)

Module MatchFacts.

Import ES.

Local Open Scope nat_scope.

Lemma nonempty_app {A} (l1 l2 : list A) : nonempty (l1 ++ l2) = nonempty l1 || nonempty l2.
Proof. destruct l1; reflexivity. Qed.

Lemma nonempty_flat_map {A B} (f : A -> list B) (l : list A) :
  nonempty (flat_map f l) = existsb (fun a => nonempty (f a)) l.
Proof.
  induction l as [| a l IH]; simpl; [reflexivity |].
  rewrite nonempty_app, IH; reflexivity.
Qed.

Lemma existsb_pointwise {A} (f g : A -> bool) (l : list A) :
  (forall a, f a = g a) -> existsb f l = existsb g l.
Proof.
  intros Hfg; induction l as [| a l IH]; simpl; [reflexivity |].
  rewrite Hfg, IH; reflexivity.
Qed.

Lemma ends_eol (ic : bool) (s : list ascii) (e : nat) :
  nonempty (ends ic s (Seq Eol Empty) e) = (length s =? e).
Proof.
  cbn [ends]. rewrite (Nat.eqb_sym (length s) e).
  destruct (e =? length s); reflexivity.
Qed.

(** An expression anchored at the start matches at position 0 or nowhere. *)
Lemma exec_from_bol (ic : bool) (s : list ascii) (X : re) (n start : nat) :
  exec_from ic s (Seq Bol X) (S start) n = None.
Proof.
  revert start; induction n as [| n IH]; intros start; simpl; [reflexivity |].
  apply IH.
Qed.

Lemma anchored_accepts (src : string) (ic : bool) (X : re) (s : string) :
  regex_accepts {| source := src; ignoreCase := ic; ast := Seq Bol X |} s
  = nonempty (ends ic (list_ascii_of_string s) X 0).
Proof.
  unfold regex_accepts, exec; cbn [ignoreCase ast exec_from].
  cbn [ends Nat.eqb flat_map]; rewrite app_nil_r.
  destruct (ends ic (list_ascii_of_string s) X 0); [| reflexivity].
  rewrite exec_from_bol; reflexivity.
Qed.

Lemma nth_error_skipn {A} (l : list A) (i : nat) :
  skipn i l = match nth_error l i with
              | Some d => d :: skipn (S i) l
              | None => []
              end.
Proof.
  revert i; induction l as [| a l IH]; intros [| i]; simpl; try reflexivity.
  rewrite IH; destruct (nth_error l i); reflexivity.
Qed.

(** Zero or more single characters from [i] reach the end of the input
    exactly when every character left is one of them. *)
Lemma star_one_reaches_end (ok : ascii -> bool) (s : list ascii) (n i : nat) :
  i <= length s -> length s - i < n ->
  existsb (Nat.eqb (length s)) (star (one ok s) false n i) = forallb ok (skipn i s).
Proof.
  revert i; induction n as [| n IH]; intros i Hi Hn; [lia |].
  cbn [star]; unfold one at 2.
  rewrite (nth_error_skipn s i), existsb_app; cbn [existsb].
  destruct (nth_error s i) as [d |] eqn:Hd.
  - assert (Hlt : i < length s) by (apply nth_error_Some; congruence).
    replace (length s =? i) with false by (symmetry; apply Nat.eqb_neq; lia).
    cbn [forallb]. destruct (ok d); cbn [filter flat_map andb orb].
    + replace (i <? S i) with true by (symmetry; apply Nat.ltb_lt; lia).
      cbn [flat_map]; rewrite app_nil_r, orb_false_r.
      apply IH; lia.
    + reflexivity.
  - assert (Hge : length s <= i) by (apply nth_error_None; exact Hd).
    replace (length s =? i) with true by (symmetry; apply Nat.eqb_eq; lia).
    reflexivity.
Qed.

(** [.*] from [i] reaches the end of the input exactly when no line
    terminator is left. *)
Lemma star_any_reaches_end (ic : bool) (s : list ascii) (n i : nat) :
  i <= length s -> length s - i < n ->
  existsb (Nat.eqb (length s)) (star (ends ic s Any) false n i)
  = forallb (fun d => negb (line_terminator d)) (skipn i s).
Proof. exact (@star_one_reaches_end (fun d => negb (line_terminator d)) s n i). Qed.

Lemma no_line_terminator_chars (s : string) :
  no_line_terminator s
  = forallb (fun d => negb (line_terminator d)) (list_ascii_of_string s).
Proof.
  unfold no_line_terminator; induction s as [| c s IH]; simpl; [reflexivity |].
  rewrite <- IH, negb_orb; reflexivity.
Qed.

(** What [^(?!W).*$] accepts, for any [W]. *)
Lemma negated_accepts (src : string) (ic : bool) (W : re) (s : string) :
  regex_accepts
    {| source := src; ignoreCase := ic;
       ast := Seq Bol (Seq (Look false W) (Seq (Quant Star false Any) (Seq Eol Empty))) |} s
  = is_nil (ends ic (list_ascii_of_string s) W 0) && no_line_terminator s.
Proof.
  rewrite anchored_accepts, no_line_terminator_chars.
  set (cs := list_ascii_of_string s).
  cbn [ends]. unfold is_nil.
  destruct (ends ic cs W 0) as [| e l]; [| reflexivity].
  cbn [flat_map nonempty negb andb]; rewrite app_nil_r, nonempty_flat_map.
  transitivity (existsb (Nat.eqb (length cs))
                  (star (ends ic cs Any) false (S (length cs - 0)) 0)).
  - apply existsb_pointwise; intros e; exact (ends_eol ic cs e).
  - apply (@star_any_reaches_end ic cs (S (length cs - 0)) 0); lia.
Qed.

Lemma flat_map_singleton {A} (l : list A) : flat_map (fun a => [a]) l = l.
Proof. induction l as [| a l IH]; simpl; [reflexivity | rewrite IH; reflexivity]. Qed.

Lemma everything_reaches_end (ic : bool) (s : list ascii) :
  existsb (Nat.eqb (length s)) (ends ic s everything 0) = true.
Proof.
  unfold everything. cbn [ends]. rewrite !flat_map_singleton. cbn [app existsb].
  destruct s as [| c s]; [reflexivity |].
  cbn [length Nat.eqb orb].
  unfold one at 2; cbn [nth_error xorb].
  replace (in_class ic c []) with false
    by (unfold in_class; simpl; destruct ic; reflexivity).
  cbn [negb flat_map]; rewrite app_nil_r.
  change (ends ic (c :: s) (Class true []))
    with (one (fun d => xorb true (in_class ic d [])) (c :: s)).
  rewrite (@star_one_reaches_end _ (c :: s) (S (length (c :: s))) 1)
    by (simpl; lia).
  cbn [skipn]. apply forallb_forall; intros d _.
  unfold in_class; simpl; destruct ic; reflexivity.
Qed.

(** [^(?:(|[^]+))$] accepts every string. *)
Lemma everything_matches (ic : bool) (s : list ascii) :
  nonempty (ends ic s (Seq Bol (Seq (Group everything) (Seq Eol Empty))) 0) = true.
Proof.
  cbn [ends Nat.eqb flat_map]; rewrite app_nil_r, nonempty_flat_map.
  rewrite (existsb_pointwise _ (Nat.eqb (length s)) _ (ends_eol ic s)).
  apply everything_reaches_end.
Qed.

End MatchFacts.

Lemma substring_all (s : string) : substring 0 (String.length s) s = s.
Proof. induction s as [| c s IH]; simpl; [reflexivity | rewrite IH; reflexivity]. Qed.

(* ------------------------------------------------------------------ *)
(** * Lemmas: patterns without glob characters *)

Module LiteralFacts.

Import ES.

Lemma glob_char_false (c : ascii) :
  glob_char c = false ->
  (c =? "-")%char = false /\ (c =? "!")%char = false /\ (c =? "[")%char = false
  /\ (c =? "$")%char = false /\ (c =? "*")%char = false /\ (c =? "+")%char = false
  /\ (c =? "?")%char = false /\ (c =? "^")%char = false /\ (c =? "{")%char = false
  /\ (c =? "}")%char = false /\ (c =? "(")%char = false /\ (c =? "|")%char = false
  /\ (c =? ")")%char = false /\ (c =? "\")%char = false /\ (c =? "]")%char = false.
Proof.
  unfold glob_char; cbn [list_ascii_of_string existsb]; intros H.
  repeat (apply orb_false_iff in H as [? H]).
  repeat split; assumption.
Qed.

Lemma step_plain (st : pstate) (c : ascii) :
  pmode st = Normal -> glob_char c = false ->
  (c =? ".")%char = false ->
  step st c = Ok (push (Chr c) st).
Proof.
  intros Hmode Hc Hdot; unfold step; rewrite Hmode; unfold step_normal.
  destruct (glob_char_false c Hc)
    as (H1 & H2 & H3 & H4 & H5 & H6 & H7 & H8 & H9 & H10 & H11 & H12 & H13 & H14 & H15).
  rewrite H14, H11, H13, H12, H5, H6, H7, H3, H15, H9, H10, Hdot, H8, H4.
  reflexivity.
Qed.

Lemma step_escaped (st : pstate) (c : ascii) :
  pmode st = Normal -> is_alnum c = false ->
  run st ["\"%char; c] = Ok (push (Chr c) st).
Proof.
  intros Hmode Hc; cbn [run]; unfold step at 1; rewrite Hmode.
  change (step_normal st "\") with (Ok (set_mode Escape st)); cbv iota.
  unfold step; cbn [set_mode pmode]; rewrite Hc; reflexivity.
Qed.

Lemma literal_run (p : string) (st : pstate) :
  has_glob_chars p = false -> pmode st = Normal ->
  run st (list_ascii_of_string (escape_dot_slash p))
  = Ok (push_chars (list_ascii_of_string p) st).
Proof.
  revert st; induction p as [| c p IH]; intros st Hp Hmode.
  - destruct st as [m stk [a t]]; simpl in *; subst; reflexivity.
  - cbn [has_glob_chars string_exists] in Hp; apply orb_false_iff in Hp as [Hc Hp].
    cbn [escape_dot_slash].
    destruct ((c =? ".")%char || (c =? "/")%char) eqn:Hesc.
    + cbn [list_ascii_of_string].
      change ("\"%char :: c :: list_ascii_of_string (escape_dot_slash p))
        with (["\"%char; c] ++ list_ascii_of_string (escape_dot_slash p))%list.
      rewrite ESFacts.run_app, step_escaped; [| exact Hmode |].
      * rewrite IH; [| exact Hp | reflexivity].
        unfold push_chars, push; cbn [stack top alts terms rev map].
        rewrite <- app_assoc; reflexivity.
      * apply orb_true_iff in Hesc as [H | H]; apply Ascii.eqb_eq in H; subst; reflexivity.
    + apply orb_false_iff in Hesc as [Hdot _].
      cbn [list_ascii_of_string run]; rewrite (@step_plain st c Hmode Hc Hdot).
      rewrite IH; [| exact Hp | reflexivity].
      unfold push_chars, push; cbn [stack top alts terms rev map].
      rewrite <- app_assoc; reflexivity.
Qed.

Lemma parse_literal (p : string) :
  has_glob_chars p = false ->
  parse_source (escape_dot_slash p) = Ok (seq_of (map Chr (list_ascii_of_string p))).
Proof.
  intros Hp; unfold parse_source.
  rewrite (@literal_run p init Hp eq_refl).
  unfold finalize, push_chars, finish; cbn [pmode stack top terms alts init].
  rewrite app_nil_r, rev_involutive; reflexivity.
Qed.

Local Open Scope nat_scope.

(** A sequence of characters ends where it started plus its length. *)
Lemma literal_ends (ic : bool) (s q : list ascii) (i e : nat) :
  In e (ends ic s (seq_of (map Chr q)) i) -> e = i + length q.
Proof.
  revert i; induction q as [| c q IH]; intros i; cbn [map seq_of fold_right ends].
  - intros [<- | []]; simpl; lia.
  - intros H; apply in_flat_map in H as (x & Hx & He).
    unfold one in Hx. destruct (nth_error s i) as [d |]; [| contradiction].
    destruct (same_char ic c d); [| contradiction].
    destruct Hx as [<- | []].
    apply IH in He; cbn [length]; lia.
Qed.

(** The regex of a literal pattern rejects a string of another length. *)
Lemma literal_rejects (src : string) (ic : bool) (q : list ascii) (s : string) :
  String.length s <> length q ->
  regex_accepts
    {| source := src; ignoreCase := ic;
       ast := Seq Bol (Seq (Group (seq_of (map Chr q))) (Seq Eol Empty)) |} s = false.
Proof.
  intros Hlen; rewrite MatchFacts.anchored_accepts.
  set (cs := list_ascii_of_string s).
  assert (Hcs : length cs = String.length s).
  { subst cs; clear; induction s; simpl; congruence. }
  cbn [ends].
  rewrite MatchFacts.nonempty_flat_map.
  apply not_true_is_false; intros H; apply existsb_exists in H as (e & He & Hne).
  apply literal_ends in He.
  pose proof (MatchFacts.ends_eol ic cs e) as Heol; cbn [ends] in Heol.
  rewrite Heol in Hne; apply Nat.eqb_eq in Hne; lia.
Qed.

End LiteralFacts.

(* ------------------------------------------------------------------ *)
(** * Lemmas: stripping the leading [./] *)

(** [if (input.startsWith('./')) input = input.slice(2)] *)
Lemma strip_dot_slash_spec (input : string) :
  (starts_with "./" input = false /\ strip_dot_slash input = input)
  \/ input = "./" ++ strip_dot_slash input.
Proof.
  unfold strip_dot_slash.
  destruct (starts_with "./" input) eqn:H; [right | left; split; reflexivity].
  destruct input as [| a [| b rest]]; try discriminate.
  - simpl in H; rewrite andb_false_r in H; discriminate.
  - cbn [starts_with] in H.
    apply andb_true_iff in H as [Ha H]; apply andb_true_iff in H as [Hb _].
    apply Ascii.eqb_eq in Ha, Hb; subst.
    cbn [String.length Nat.sub substring append].
    replace (String.length rest - 0)%nat with (String.length rest) by lia.
    rewrite substring_all; reflexivity.
Qed.

Lemma has_glob_chars_strip (input : string) :
  has_glob_chars input = false -> has_glob_chars (strip_dot_slash input) = false.
Proof.
  intros H; destruct (strip_dot_slash_spec input) as [[_ ->] | Heq]; [exact H |].
  rewrite Heq in H; unfold has_glob_chars in *.
  rewrite string_exists_app in H; apply orb_false_iff in H as [_ H]; exact H.
Qed.

Lemma string_length_app (a b : string) :
  String.length (a ++ b) = (String.length a + String.length b)%nat.
Proof. induction a as [| c a IH]; simpl; [reflexivity | rewrite IH; reflexivity]. Qed.

Lemma no_glob_chars_no_backslash (s : string) :
  has_glob_chars s = false -> toPosixSlashes s = s.
Proof.
  intros H; apply toPosixSlashes_id.
  induction s as [| c s IH]; [reflexivity |].
  cbn [has_glob_chars string_exists] in *; apply orb_false_iff in H as [Hc Hs].
  rewrite (IH Hs), orb_false_r.
  destruct (LiteralFacts.glob_char_false c Hc)
    as (_ & _ & _ & _ & _ & _ & _ & _ & _ & _ & _ & _ & _ & H14 & _).
  destruct (Ascii.eqb_spec "\" c) as [<- | _]; [discriminate | reflexivity].
Qed.

(* ------------------------------------------------------------------ *)
(** * Lemmas: the regex assembler *)

Section AssemblerFacts.

Context {R : Runtime} {S : Siblings}.

Lemma makeRe_string (c : ascii) (s : string) (options : Options.t) (ro rs : bool) :
  makeRe (JStr (String c s)) options ro rs
  = (if ro then ret (ReOutput (snd (compile_output (String c s) options)))
     else
       regex <- toRegex (assemble_source (fst (compile_output (String c s) options))
                           (snd (compile_output (String c s) options)) options) options ;;
       ret (ReRegex {| Regex.re := regex;
                       Regex.state :=
                         if rs then Some (fst (compile_output (String c s) options))
                         else None |})).
Proof.
  unfold makeRe; destruct (compile_output (String c s) options); reflexivity.
Qed.

(** A pattern without glob characters that the fast paths leave
    uncompiled takes the literal path. *)
Lemma compile_output_literal (input : string) (options : Options.t) :
  has_glob_chars input = false ->
  uncompiled_by_fast_paths input options ->
  compile_output input options
  = ({| State.output := None; State.negated := false; State.fastpaths := true |},
     Some (escape_dot_slash (strip_dot_slash input))).
Proof.
  intros Hglob Hmiss; unfold compile_output, uncompiled_by_fast_paths in *.
  rewrite (has_glob_chars_strip _ Hglob).
  destruct (Options.fastpaths options && _); [rewrite (Hmiss eq_refl) |]; reflexivity.
Qed.

(** A negated state comes from the Syntax Compiler. *)
Lemma compile_output_negated (input : string) (options : Options.t) :
  State.negated (fst (compile_output input options)) = true ->
  compile_output input options
  = (parse (strip_dot_slash input) options,
     State.output (parse (strip_dot_slash input) options)).
Proof.
  unfold compile_output.
  destruct (Options.fastpaths options && _).
  - destruct (parse_fastpaths (strip_dot_slash input) options) as [o |].
    + destruct (negb (o =? "") && _); discriminate.
    + destruct (negb (has_glob_chars (strip_dot_slash input))); [discriminate | reflexivity].
  - destruct (negb (has_glob_chars (strip_dot_slash input))); [discriminate | reflexivity].
Qed.

Lemma toRegex_valid (source : string) (options : Options.t) (regex : RegExp) :
  RegExp_new source (regex_flags options) = Some regex ->
  toRegex source options = ret regex.
Proof. unfold toRegex; intros ->; reflexivity. Qed.

Lemma toRegex_invalid (source : string) (options : Options.t) :
  RegExp_new source (regex_flags options) = None ->
  toRegex source options
  = if Options.debug options then throw SyntaxError else ret RegExp_never.
Proof. unfold toRegex; intros ->; reflexivity. Qed.

(** Outside debug mode the construction of the regex does not throw. *)
Lemma toRegex_returns (source : string) (options : Options.t) :
  Options.debug options = false -> exists regex, toRegex source options = ret regex.
Proof.
  intros Hdebug; unfold toRegex; rewrite Hdebug.
  destruct (RegExp_new source (regex_flags options)); eauto.
Qed.

Lemma matcher_not_matched (glob : string) (state : option State.t) (regex : Regex.t)
    (posix : bool) (options : Options.t) (isIgnored : Matcher.t) (input : JsVal)
    (ro : bool) :
  (forall t, test input regex options {| Ctx.glob := Some glob; Ctx.posix := Some posix |}
             = inr t -> TestResult.isMatch t = false) ->
  yields (fun v => reports_true v = false)
    (matcher glob state regex posix options isIgnored input ro).
Proof.
  intros Htest; unfold matcher.
  destruct (test input regex options _) as [e | t] eqn:Ht.
  - intros ev v H; discriminate.
  - rewrite run_bind_lift_inr, (Htest t eq_refl).
    apply yields_bind; intros _; apply yields_ret; destruct ro; reflexivity.
Qed.

End AssemblerFacts.

(* ------------------------------------------------------------------ *)
(** * Theorems: the regular expressions of the assembler *)

Section RegexClaims.

Context {S : Siblings}.
Variable cwd : string.

Lemma chars_length (s : string) : length (list_ascii_of_string s) = String.length s.
Proof. induction s; simpl; congruence. Qed.

Lemma compile_flags (source : string) (options : Options.t) (r : ES.re) :
  Options.flags options = "" ->
  ES.parse_source source = ES.Ok r ->
  ES.compile source (regex_flags options)
  = Some {| ES.source := source; ES.ignoreCase := Options.nocase options; ES.ast := r |}.
Proof.
  intros Hflags Hparse; unfold ES.compile, regex_flags; rewrite Hparse, Hflags; simpl.
  destruct (Options.nocase options); reflexivity.
Qed.

Lemma toRegex_node (source : string) (options : Options.t) (r : ES.re) :
  Options.flags options = "" ->
  ES.parse_source source = ES.Ok r ->
  toRegex (R := node cwd) source options
  = ret {| ES.source := source; ES.ignoreCase := Options.nocase options; ES.ast := r |}.
Proof.
  intros Hflags Hparse; unfold toRegex.
  change (RegExp_new (Runtime := node cwd) source (regex_flags options))
    with (ES.compile source (regex_flags options)).
  rewrite (compile_flags _ _ Hflags Hparse); reflexivity.
Qed.

(** The regex literal [/$^/] is what its source compiles to. *)
Lemma never_is_compiled : ES.compile "$^" "" = Some ES.never.
Proof. reflexivity. Qed.

Lemma never_rejects (s : string) : (s =? "") = false -> regex_accepts ES.never s = false.
Proof.
  intros Hs; unfold regex_accepts, ES.exec; cbn [ES.never ES.ignoreCase ES.ast].
  set (cs := list_ascii_of_string s).
  assert (Hlen : length cs <> 0) by (subst cs; destruct s; simpl; [discriminate | lia]).
  assert (Hnone : forall n start,
             ES.exec_from false cs (ES.Seq ES.Eol (ES.Seq ES.Bol ES.Empty)) start n = None).
  { induction n as [| n IH]; intros start; cbn [ES.exec_from]; [reflexivity |].
    cbn [ES.ends].
    destruct (Nat.eqb_spec start (length cs)) as [-> | _]; cbn [flat_map].
    - destruct (Nat.eqb_spec (length cs) 0) as [H0 | _]; [contradiction | apply IH].
    - apply IH. }
  rewrite Hnone; reflexivity.
Qed.

(** C1 (as the code has it). For a pattern whose compilation reports
    [negated = true], the source of the regex is the wrapped expression
    put once inside [^(?!...).*$].  When the [contains] and [flags] options
    are not set and the fragment of the pattern is a regular expression,
    the regex matches a string exactly when the string holds no line
    terminator and is outside the set the wrapped expression
    [^(?:fragment)$] matches; so it matches some string exactly when some
    string without line terminators is outside that set. *)
Theorem negated_regex_complement_without_line_terminators
    (input : string) (options : Options.t) (state : State.t) (output : option string)
    (fragment : ES.re) :
  (input =? "") = false ->
  compile_output input options = (state, output) ->
  State.negated state = true ->
  assemble_source state output options
  = "^(?!" ++ ((if Options.contains options then "" else "^")
               ++ "(?:" ++ interpolate output ++ ")"
               ++ (if Options.contains options then "" else "$")) ++ ").*$"
  /\ (Options.contains options = false ->
      Options.flags options = "" ->
      ES.parse_source (interpolate output) = ES.Ok fragment ->
      exists negated inner,
        makeRe (R := node cwd) (JStr input) options false true
        = ret (ReRegex {| Regex.re := negated; Regex.state := Some state |})
        /\ ES.source negated = "^(?!" ++ ("^(?:" ++ interpolate output ++ ")$") ++ ").*$"
        /\ toRegex (R := node cwd) ("^(?:" ++ interpolate output ++ ")$") options
           = ret inner
        /\ (forall s,
              regex_accepts negated s
              = no_line_terminator s && negb (regex_accepts inner s))
        /\ ((exists s, regex_accepts negated s = true)
            <-> (exists s, no_line_terminator s = true /\ regex_accepts inner s = false))).
Proof.
  intros Hne Hout Hneg; split.
  - unfold assemble_source; rewrite Hneg; reflexivity.
  - intros Hcontains Hflags Hfrag.
    pose proof (ESFacts.parse_anchored _ Hfrag) as Hinner.
    pose proof (ESFacts.parse_negated _ Hinner) as Hnegated.
    eexists; eexists.
    assert (Hsrc : assemble_source state output options
                   = "^(?!" ++ ("^(?:" ++ interpolate output ++ ")$") ++ ").*$").
    { unfold assemble_source; rewrite Hneg, Hcontains; reflexivity. }
    assert (Hre : forall s,
               regex_accepts
                 {| ES.source := "^(?!" ++ ("^(?:" ++ interpolate output ++ ")$") ++ ").*$";
                    ES.ignoreCase := Options.nocase options;
                    ES.ast := ES.Seq ES.Bol
                                (ES.Seq (ES.Look false
                                           (ES.Seq ES.Bol
                                              (ES.Seq (ES.Group fragment)
                                                 (ES.Seq ES.Eol ES.Empty))))
                                   (ES.Seq (ES.Quant ES.Star false ES.Any)
                                      (ES.Seq ES.Eol ES.Empty))) |} s
               = no_line_terminator s
                 && negb (regex_accepts
                            {| ES.source := "^(?:" ++ interpolate output ++ ")$";
                               ES.ignoreCase := Options.nocase options;
                               ES.ast := ES.Seq ES.Bol
                                           (ES.Seq (ES.Group fragment)
                                              (ES.Seq ES.Eol ES.Empty)) |} s)).
    { intros s; rewrite MatchFacts.negated_accepts, MatchFacts.anchored_accepts.
      cbn [ES.ends Nat.eqb flat_map]; rewrite app_nil_r.
      unfold is_nil; apply andb_comm. }
    split; [| split; [| split; [| split]]].
    + destruct input as [| c rest]; [discriminate |].
      rewrite makeRe_string, Hout; cbn [fst snd]; rewrite Hsrc.
      rewrite (toRegex_node _ _ Hflags Hnegated); reflexivity.
    + reflexivity.
    + apply (toRegex_node _ _ Hflags Hinner).
    + exact Hre.
    + split; intros (s & Hs); exists s; rewrite Hre in *.
      * apply andb_true_iff in Hs as [Hlt Hin]; split; [exact Hlt |].
        apply negb_true_iff; exact Hin.
      * destruct Hs as [-> ->]; reflexivity.
Qed.

(** What the executor returns when the regex decides. *)
Lemma test_decided_by_regex (s glob : string) (regex : Regex.t (R := node cwd))
    (options : Options.t) (posix : bool) :
  (s =? "") = false ->
  Options.capture options = true
  \/ ((s =? glob) = false /\ (formatted options (Some posix) s =? glob) = false) ->
  exists t,
    test (R := node cwd) (JStr s) regex options
      {| Ctx.glob := Some glob; Ctx.posix := Some posix |} = inr t
    /\ TestResult.isMatch t
       = regex_accepts (Regex.re regex)
           (if Options.matchBase options || Options.basename options
            then Path.basename s else formatted options (Some posix) s).
Proof.
  intros Hne Hcase; rewrite (@test_cases (node cwd) S s _ _ _ Hne); cbn [Ctx.glob Ctx.posix].
  replace (negb ((s =? glob) || (formatted options (Some posix) s =? glob))
           || Options.capture options) with true
    by (destruct Hcase as [-> | [-> ->]]; [rewrite orb_true_r |]; reflexivity).
  unfold regex_accepts.
  destruct (Options.matchBase options || Options.basename options).
  - unfold matchBase; cbn [bind ret].
    change (path_basename (Runtime := node cwd) s) with (Path.basename s).
    change (RegExp_exec (Runtime := node cwd)) with ES.exec.
    destruct posix; eexists; split; try reflexivity;
      cbn [TestResult.isMatch match_truthy];
      destruct (ES.exec (Regex.re regex) (Path.basename s)); reflexivity.
  - change (RegExp_exec (Runtime := node cwd)) with ES.exec.
    cbn [bind ret]; eexists; split; [reflexivity |].
    cbn [TestResult.isMatch match_truthy].
    destruct (ES.exec (Regex.re regex) (formatted options (Some posix) s)); reflexivity.
Qed.

(** C2 (as the code has it). When the assembled source is not a regular
    expression, [makeRe] throws in debug mode; outside debug mode it throws
    nothing and returns the regex [/$^/], which rejects every non-empty
    string.  Whenever the regex decides (the [capture] option is set, or
    the input differs from the pattern, also once formatted) and the
    matched subject (the formatted input, or its base name in base-name
    mode) is not empty, the matcher returns false, or a result object
    whose [isMatch] is false.  Without the [capture] option, a non-empty
    input that equals the pattern, as it is or once formatted, is accepted
    by the comparison of lines 100-106, before any regex is executed. *)
Theorem invalid_source_falls_back
    (glob : string) (options : Options.t) (state : State.t) (output : option string) :
  (glob =? "") = false ->
  compile_output glob options = (state, output) ->
  ES.parse_source (assemble_source state output options) = ES.Malformed ->
  (Options.debug options = true ->
   forall rs,
     makeRe (R := node cwd) (JStr glob) options false rs = throw SyntaxError
     /\ picomatch (R := node cwd) (JStr glob) options rs = throw SyntaxError)
  /\ (Options.debug options = false ->
      (forall rs,
         makeRe (R := node cwd) (JStr glob) options false rs
         = ret (ReRegex (R := node cwd)
                  {| Regex.re := ES.never : RegExp (Runtime := node cwd);
                     Regex.state := if rs then Some state else None |}))
      /\ (Options.ignore options = None ->
          forall rs,
            picomatch (R := node cwd) (JStr glob) options rs
            = ret {| Matcher.call :=
                       matcher glob (Some state)
                         {| Regex.re := ES.never : RegExp (Runtime := node cwd);
                            Regex.state := None |}
                         (utils_isWindows options) options not_ignored;
                     Matcher.state := if rs then Some state else None |})
      /\ (forall s, (s =? "") = false -> regex_accepts ES.never s = false)
      /\ (forall st posix isIgnored s ro,
            Options.capture options = true
            \/ ((s =? glob) = false
                /\ (formatted options (Some posix) s =? glob) = false) ->
            ((if Options.matchBase options || Options.basename options
              then Path.basename s else formatted options (Some posix) s) =? "") = false ->
            exists ev v,
              matcher (R := node cwd) glob st
                {| Regex.re := ES.never : RegExp (Runtime := node cwd);
                   Regex.state := None |}
                posix options isIgnored (JStr s) ro = (ev, inr v)
              /\ reports_true v = false)
      /\ (forall st posix s ro,
            Options.capture options = false ->
            (s =? "") = false ->
            (s =? glob) = true \/ (formatted options (Some posix) s =? glob) = true ->
            test (R := node cwd) (JStr s)
              {| Regex.re := ES.never : RegExp (Runtime := node cwd);
                 Regex.state := None |}
              options {| Ctx.glob := Some glob; Ctx.posix := Some posix |}
            = inr {| TestResult.isMatch := true; TestResult.match_ := MBool true;
                     TestResult.output := formatted options (Some posix) s |}
            /\ exists ev v,
                 matcher (R := node cwd) glob st
                   {| Regex.re := ES.never : RegExp (Runtime := node cwd);
                      Regex.state := None |}
                   posix options not_ignored (JStr s) ro = (ev, inr v)
                 /\ reports_true v = true)).
Proof.
  intros Hne Hout Hmalformed.
  assert (Hinvalid : ES.compile (assemble_source state output options)
                       (regex_flags options) = None)
    by (unfold ES.compile; rewrite Hmalformed; reflexivity).
  destruct glob as [| c g]; [discriminate |].
  assert (Hre : forall rs,
             makeRe (R := node cwd) (JStr (String c g)) options false rs
             = (regex <- (if Options.debug options then throw SyntaxError
                          else ret (ES.never : RegExp (Runtime := node cwd))) ;;
                ret (ReRegex {| Regex.re := regex;
                                Regex.state := if rs then Some state else None |}))).
  { intros rs; rewrite makeRe_string, Hout; cbn [fst snd].
    rewrite (toRegex_invalid (R := node cwd) _ _ Hinvalid); reflexivity. }
  split.
  - intros Hdebug rs; split.
    + rewrite Hre, Hdebug; reflexivity.
    + rewrite picomatch_string, Hre, Hdebug; reflexivity.
  - intros Hdebug; split; [| split; [| split; [| split]]].
    + intros rs; rewrite Hre, Hdebug; reflexivity.
    + intros Hignore rs. rewrite picomatch_string, Hre, Hdebug, Hignore; reflexivity.
    + exact never_rejects.
    + intros st posix isIgnored s ro Hcase Hsubject.
      assert (Ht : exists t,
                 test (R := node cwd) (JStr s)
                   {| Regex.re := ES.never : RegExp (Runtime := node cwd);
                      Regex.state := None |}
                   options {| Ctx.glob := Some (String c g); Ctx.posix := Some posix |}
                 = inr t
                 /\ TestResult.isMatch t = false).
      { destruct (s =? "") eqn:Hs.
        - apply String.eqb_eq in Hs; subst s; eexists; split; reflexivity.
        - destruct (@test_decided_by_regex s (String c g)
                      {| Regex.re := ES.never : RegExp (Runtime := node cwd);
                         Regex.state := None |} options posix Hs Hcase)
            as (t & Ht & Hm).
          exists t; split; [exact Ht |].
          rewrite Hm; cbn [Regex.re]; apply never_rejects; exact Hsubject. }
      destruct Ht as (t & Ht & Hm).
      rewrite (@matcher_string (node cwd) S _ _ _ _ _ isIgnored s ro t []
                 (RBool false) Ht);
        [| rewrite Hm; discriminate].
      rewrite Hm; cbn [andb]; eexists; eexists; split; [reflexivity |].
      destruct ro; reflexivity.
    + intros st posix s ro Hcap Hs Hsame.
      assert (Ht : test (R := node cwd) (JStr s)
                     {| Regex.re := ES.never : RegExp (Runtime := node cwd);
                        Regex.state := None |}
                     options {| Ctx.glob := Some (String c g); Ctx.posix := Some posix |}
                   = inr {| TestResult.isMatch := true; TestResult.match_ := MBool true;
                            TestResult.output := formatted options (Some posix) s |}).
      { rewrite (@test_cases (node cwd) S s _ _ _ Hs); cbn [Ctx.glob Ctx.posix].
        replace ((s =? String c g) || (formatted options (Some posix) s =? String c g))
          with true by (destruct Hsame as [-> | ->]; [| rewrite orb_true_r]; reflexivity).
        rewrite Hcap; reflexivity. }
      split; [exact Ht |].
      rewrite (@matcher_string (node cwd) S _ _ _ _ _ not_ignored s ro _ []
                 (RBool false) Ht (fun _ => eq_refl)).
      cbn [TestResult.isMatch returned_truthy negb andb].
      eexists; eexists; split; [reflexivity |].
      destruct ro; reflexivity.
Qed.

Lemma first_char_app (s : string) (cs : list ascii) :
  first_char_in (s ++ "x") cs = if s =? "" then first_char_in "x" cs else first_char_in s cs.
Proof. destruct s; reflexivity. Qed.

Lemma strip_dot_slash_app (s : string) :
  first_char_in (strip_dot_slash s) ["."%char] = false ->
  strip_dot_slash (s ++ "x") = strip_dot_slash s ++ "x".
Proof.
  destruct (strip_dot_slash_spec s) as [[Hno Hid] | Heq].
  - rewrite Hid; intros Hdot; unfold strip_dot_slash.
    replace (starts_with "./" (s ++ "x")) with false; [reflexivity |].
    destruct s as [| a [| b s]]; try reflexivity.
    + cbn [first_char_in existsb] in Hdot; rewrite orb_false_r in Hdot.
      cbn [append starts_with]. rewrite Ascii.eqb_sym, Hdot; reflexivity.
    + symmetry; exact Hno.
  - intros _. rewrite Heq at 1.
    destruct (strip_dot_slash_spec (("./" ++ strip_dot_slash s) ++ "x")) as [[Hno _] | Heq'].
    + discriminate.
    + rewrite string_app_assoc in Heq' at 1. cbn [append] in Heq'.
      inversion Heq' as [H]. rewrite string_app_assoc. cbn [append]. symmetry; exact H.
Qed.

(** A pattern without glob characters whose first character, the leading
    [./] apart, is not a dot does not reach the fast-path table. *)
Lemma no_dot_uncompiled (s : string) (options : Options.t) :
  has_glob_chars s = false ->
  first_char_in (strip_dot_slash s) ["."%char] = false ->
  uncompiled_by_fast_paths s options.
Proof.
  intros Hglob Hdot Hfast; exfalso.
  apply andb_true_iff in Hfast as [_ Hfirst].
  pose proof (has_glob_chars_strip _ Hglob) as Hstrip.
  destruct (strip_dot_slash s) as [| c p]; [discriminate |].
  cbn [first_char_in existsb] in *; rewrite orb_false_r in *.
  cbn [has_glob_chars string_exists] in Hstrip; apply orb_false_iff in Hstrip as [Hc _].
  destruct (LiteralFacts.glob_char_false c Hc) as (_ & _ & _ & _ & Hstar & _).
  rewrite Hdot, Hstar in Hfirst; discriminate.
Qed.

(** C7. For a non-empty string [s] without glob characters:
    [isMatch(s, s)] is true, and the executor answers by the equality of
    input and pattern, whatever the regex, unless [capture] is set; when
    the fast paths leave the pattern uncompiled, the assembler compiles [s]
    to the literal fragment, in which only dots and slashes are escaped,
    and [isMatch(s, s + 'x')] is false.  The fast paths leave both patterns
    uncompiled when [s], its leading [./] apart, does not start with a
    dot. *)
Theorem literal_pattern_matches_only_itself (s : string) :
  (s =? "") = false ->
  has_glob_chars s = false ->
  isMatch (R := node cwd) (JStr s) (JStr s) Options.empty = ([], inr (RBool true))
  /\ (forall (regex : Regex.t (R := node cwd)) options posix,
        Options.capture options = false ->
        test (JStr s) regex options {| Ctx.glob := Some s; Ctx.posix := posix |}
        = inr {| TestResult.isMatch := true; TestResult.match_ := MBool true;
                 TestResult.output := formatted options posix s |})
  /\ (uncompiled_by_fast_paths s Options.empty ->
      compile_output s Options.empty
      = ({| State.output := None; State.negated := false; State.fastpaths := true |},
         Some (escape_dot_slash (strip_dot_slash s))))
  /\ (uncompiled_by_fast_paths (s ++ "x") Options.empty ->
      isMatch (R := node cwd) (JStr s) (JStr (s ++ "x")) Options.empty
      = ([], inr (RBool false)))
  /\ (first_char_in (strip_dot_slash s) ["."%char] = false ->
      uncompiled_by_fast_paths s Options.empty
      /\ uncompiled_by_fast_paths (s ++ "x") Options.empty).
Proof.
  intros Hne Hglob.
  assert (Hp : has_glob_chars (s ++ "x") = false).
  { unfold has_glob_chars; rewrite string_exists_app; fold (has_glob_chars s).
    rewrite Hglob; reflexivity. }
  split; [| split; [| split; [| split]]].
  - destruct s as [| c p]; [discriminate |].
    unfold isMatch; rewrite picomatch_string, makeRe_string.
    destruct (toRegex_returns (R := node cwd)
                (assemble_source (fst (compile_output (String c p) Options.empty))
                   (snd (compile_output (String c p) Options.empty)) Options.empty)
                Options.empty eq_refl) as [regex ->].
    simpl. rewrite run_bind_lift_inr; cbn [Matcher.call]; unfold matcher.
    rewrite (test_literal (R := node cwd)) by (exact Hne || reflexivity).
    reflexivity.
  - intros regex options posix Hcap; apply test_literal; assumption.
  - intros Hmiss; apply compile_output_literal; assumption.
  - intros Hmiss.
    destruct (s ++ "x") as [| c p] eqn:Heq; [destruct s; discriminate |].
    assert (Hmake : makeRe (R := node cwd) (JStr (String c p)) Options.empty false true
                    = ret (ReRegex (R := node cwd)
                             {| Regex.re :=
                                  literal_regex (strip_dot_slash (String c p))
                                  : RegExp (Runtime := node cwd);
                                Regex.state :=
                                  Some {| State.output := None; State.negated := false;
                                          State.fastpaths := true |} |})).
    { rewrite makeRe_string, compile_output_literal by assumption; cbn [fst snd].
      change (assemble_source _ _ Options.empty)
        with ("^(?:" ++ escape_dot_slash (strip_dot_slash (String c p)) ++ ")$").
      rewrite (toRegex_node _ Options.empty eq_refl
                 (ESFacts.parse_anchored _
                    (LiteralFacts.parse_literal _ (has_glob_chars_strip _ Hp)))).
      reflexivity. }
    unfold isMatch; rewrite picomatch_string, Hmake; simpl.
    rewrite run_bind_lift_inr; cbn [Matcher.call].
    rewrite (matcher_plain (R := node cwd)).
    + cbn [Regex.re].
      change (RegExp_exec (Runtime := node cwd)) with ES.exec.
      change (match ES.exec (literal_regex (strip_dot_slash (String c p))) s with
              | Some _ => true
              | None => false
              end)
        with (regex_accepts (literal_regex (strip_dot_slash (String c p))) s).
      unfold literal_regex.
      rewrite LiteralFacts.literal_rejects; [reflexivity |].
      rewrite chars_length.
      assert (Hlen : String.length (String c p) = String.length s + 1)
        by (rewrite <- Heq, string_length_app; reflexivity).
      destruct (strip_dot_slash_spec (String c p)) as [[_ ->] | Hstrip]; [lia |].
      rewrite Hstrip, string_length_app in Hlen; cbn [String.length] in Hlen; lia.
    + exact Hne.
    + rewrite <- Heq. apply String.eqb_neq; intros H.
      apply (f_equal String.length) in H; rewrite string_length_app in H; simpl in H; lia.
    + apply no_glob_chars_no_backslash; exact Hglob.
  - intros Hdot; split; [apply no_dot_uncompiled; assumption |].
    apply no_dot_uncompiled; [exact Hp |].
    rewrite (strip_dot_slash_app _ Hdot), first_char_app.
    destruct (strip_dot_slash s =? ""); [reflexivity | exact Hdot].
Qed.

End RegexClaims.

(* ------------------------------------------------------------------ *)
(** * Further properties: strings *)

(** X1. [toPosixSlashes] replaces every backslash, not the first one only,
    and changes nothing else: at every index its result holds a slash
    where its argument holds a backslash, and the character of the
    argument elsewhere.  So the result holds no backslash and has the
    length of the argument, [toPosixSlashes] is idempotent, and it leaves
    a string without backslashes as it is. *)
Theorem toPosixSlashes_replaces_every_backslash (s : string) :
  (forall i,
     String.get i (toPosixSlashes s)
     = option_map (fun c => if (c =? "\")%char then "/"%char else c) (String.get i s))
  /\ string_exists (Ascii.eqb "\") (toPosixSlashes s) = false
  /\ String.length (toPosixSlashes s) = String.length s
  /\ toPosixSlashes (toPosixSlashes s) = toPosixSlashes s
  /\ (string_exists (Ascii.eqb "\") s = false -> toPosixSlashes s = s).
Proof.
  split; [induction s as [| c s IH]; intros [| i]; cbn [toPosixSlashes String.get];
          [reflexivity | reflexivity | reflexivity | apply IH] |].
  split; [apply toPosixSlashes_no_backslash |].
  split; [induction s as [| c s IH]; cbn [toPosixSlashes String.length]; congruence |].
  split; [apply toPosixSlashes_id, toPosixSlashes_no_backslash | apply toPosixSlashes_id].
Qed.

(* ------------------------------------------------------------------ *)
(** * Further properties: the executor *)

Section ExecutorProperties.

Context {R : Runtime} {S : Siblings}.

(** X2. The executor returns the formatted input as [output], whether the
    input matches or not, and [isMatch] is the truth value of [match]. *)
Theorem executor_returns_the_formatted_input (s : string) (regex : Regex.t)
    (options : Options.t) (ctx : Ctx.t) :
  (s =? "") = false ->
  exists t,
    test (JStr s) regex options ctx = inr t
    /\ TestResult.output t = formatted options (Ctx.posix ctx) s
    /\ TestResult.isMatch t = match_truthy (TestResult.match_ t).
Proof.
  intros Hne; rewrite (@test_cases _ _ s _ _ _ Hne).
  destruct (negb _ || Options.capture options); [| eexists; repeat split].
  destruct (Options.matchBase options || Options.basename options);
    [| eexists; repeat split].
  destruct (matchBase_regex s regex options (Ctx.posix ctx)) as [b ->].
  eexists; repeat split.
Qed.

(** X3. An input that equals the pattern once it is formatted is a match,
    whatever the regex, unless [capture] is set: [match] is [true]. *)
Theorem formatted_input_equal_to_the_pattern_is_a_match (s : string) (regex : Regex.t)
    (options : Options.t) (posix : option bool) :
  (s =? "") = false ->
  Options.capture options = false ->
  test (JStr s) regex options
    {| Ctx.glob := Some (formatted options posix s); Ctx.posix := posix |}
  = inr {| TestResult.isMatch := true; TestResult.match_ := MBool true;
           TestResult.output := formatted options posix s |}.
Proof.
  intros Hne Hcap; rewrite (@test_cases _ _ s _ _ _ Hne); cbn [Ctx.glob Ctx.posix].
  rewrite String.eqb_refl, orb_true_r, Hcap; reflexivity.
Qed.

(** X4. When the comparison with the pattern does not decide (the input
    differs from the pattern, also once formatted, or [capture] is set),
    the regex does: it is run on the formatted input, or, in base-name
    mode, on the base name of the input as it was given. *)
Theorem executor_leaves_the_decision_to_the_regex (s glob : string) (regex : Regex.t)
    (options : Options.t) (posix : bool) :
  (s =? "") = false ->
  Options.capture options = true
  \/ ((s =? glob) = false /\ (formatted options (Some posix) s =? glob) = false) ->
  test (JStr s) regex options {| Ctx.glob := Some glob; Ctx.posix := Some posix |}
  = inr (if Options.matchBase options || Options.basename options then
           let b := match RegExp_exec (Regex.re regex)
                            (if posix then Path.basename s else path_basename s) with
                    | Some _ => true
                    | None => false
                    end in
           {| TestResult.isMatch := b; TestResult.match_ := MBool b;
              TestResult.output := formatted options (Some posix) s |}
         else
           {| TestResult.isMatch :=
                match RegExp_exec (Regex.re regex) (formatted options (Some posix) s) with
                | Some _ => true
                | None => false
                end;
              TestResult.match_ :=
                MExec (RegExp_exec (Regex.re regex) (formatted options (Some posix) s));
              TestResult.output := formatted options (Some posix) s |}).
Proof.
  intros Hne Hcase; rewrite (@test_cases _ _ s _ _ _ Hne); cbn [Ctx.glob Ctx.posix].
  replace (negb ((s =? glob) || (formatted options (Some posix) s =? glob))
           || Options.capture options) with true
    by (destruct Hcase as [-> | [-> ->]]; [rewrite orb_true_r |]; reflexivity).
  destruct (Options.matchBase options || Options.basename options).
  - unfold matchBase; simpl.
    destruct (RegExp_exec _ _); reflexivity.
  - simpl. destruct (RegExp_exec _ _); reflexivity.
Qed.

End ExecutorProperties.

(* ------------------------------------------------------------------ *)
(** * Further properties: the matchers and the factory *)

Section MatcherProperties.

Context {R : Runtime} {S : Siblings}.

(** What the factory builds for one pattern. *)
Lemma picomatch_single (glob : string) (options : Options.t) (rs : bool) (m : Matcher.t) :
  picomatch (JStr glob) options rs = inr m ->
  exists re isIgnored,
    let state := Some (fst (compile_output glob options)) in
    (glob =? "") = false
    /\ makeRe (JStr glob) options false true
       = inr (ReRegex {| Regex.re := re; Regex.state := state |})
    /\ match ignore_patterns options with
       | Some ignore => picomatch ignore (Options.for_ignore options) rs
       | None => ret not_ignored
       end = inr isIgnored
    /\ well_behaved isIgnored
    /\ m = {| Matcher.call :=
                matcher glob state {| Regex.re := re; Regex.state := None |}
                  (utils_isWindows options) options isIgnored;
              Matcher.state := if rs then state else None |}.
Proof.
  destruct glob as [| c g]; [discriminate |].
  rewrite picomatch_string, makeRe_string; cbn [bind].
  destruct (toRegex _ options) as [e | re]; [discriminate |]; cbn [bind ret].
  intros H; apply bind_inr in H as (isIgnored & Hign & H).
  exists re, isIgnored; cbn zeta.
  assert (Hign' : match ignore_patterns options with
                  | Some ignore => picomatch ignore (Options.for_ignore options) rs
                  | None => ret not_ignored
                  end = inr isIgnored).
  { unfold ignore_patterns.
    destruct (Options.ignore options) as [ig |]; [destruct (truthy ig) |]; exact Hign. }
  repeat split; [exact Hign' | | | inversion H; reflexivity].
  - destruct (ignore_patterns options) as [ig |].
    + destruct (picomatch_well_behaved _ _ _ Hign') as [H1 H2]; exact H1.
    + inversion Hign'; apply not_ignored_well_behaved.
  - destruct (ignore_patterns options) as [ig |].
    + destruct (picomatch_well_behaved _ _ _ Hign') as [H1 H2]; exact H2.
    + inversion Hign'; apply not_ignored_well_behaved.
Qed.

(** An array matcher whose element matchers all return false; [P] is
    kept by the events of the calls. *)
Lemma any_match_none (P : list Event -> Prop) (fns : list Matcher.t) (input : JsVal) :
  P [] -> (forall a b, P a -> P b -> P (a ++ b)%list) ->
  Forall (fun f => exists ev, Matcher.call f input false = (ev, inr (RBool false)) /\ P ev)
    fns ->
  exists ev, any_match fns input = (ev, inr (RBool false)) /\ P ev.
Proof.
  intros Hnil Happ; induction 1 as [| f fns (ev & Hf & Hev) _ (ev' & IH & Hev')];
    cbn [any_match].
  - exists []; split; [reflexivity | exact Hnil].
  - rewrite Hf, run_bind_inr_eq; cbn [returned_truthy]; rewrite IH.
    eexists; split; [reflexivity | apply Happ; assumption].
Qed.

Lemma forallb_app_true {A} (f : A -> bool) (a b : list A) :
  forallb f a = true -> forallb f b = true -> forallb f (a ++ b) = true.
Proof. intros Ha Hb; rewrite forallb_app, Ha, Hb; reflexivity. Qed.

(** X5. No matcher accepts the empty string: the executor answers before the
    pattern or the regex is looked at.  Of the callbacks only [onResult]
    is called. *)
Theorem empty_string_is_never_matched (glob : JsVal) (options : Options.t) (rs : bool)
    (m : Matcher.t) :
  picomatch glob options rs = inr m ->
  forall returnObject, exists ev v,
    Matcher.call m (JStr "") returnObject = (ev, inr v)
    /\ reports_true v = false
    /\ forallb is_onResult ev = true.
Proof.
  revert m; induction glob as [g | globs IH | t] using JsVal_nested_ind; intros m Hm ro.
  - apply picomatch_single in Hm as (re & isIgnored & _ & _ & _ & _ & ->).
    cbn [Matcher.call].
    rewrite (@matcher_string _ _ _ _ _ _ _ isIgnored "" ro
               {| TestResult.isMatch := false; TestResult.match_ := MUndefined;
                  TestResult.output := "" |} [] (RBool false));
      [| reflexivity | discriminate].
    cbn [TestResult.isMatch andb]; eexists; eexists; split; [reflexivity |].
    split; [destruct ro; reflexivity | destruct (Options.onResult options); reflexivity].
  - rewrite picomatch_array in Hm.
    apply bind_inr in Hm as (fns & Hfns & Hm); inversion Hm; subst; clear Hm.
    apply map_res_inr in Hfns; cbn [Matcher.call].
    destruct (@any_match_none (fun ev => forallb is_onResult ev = true) fns (JStr ""))
      as (ev & Hev & Hall); [reflexivity | apply forallb_app_true | |].
    + induction Hfns as [| g f globs fns Hg _ IHf]; [constructor |].
      inversion IH as [| ? ? IHg IHrest]; subst; constructor; [| auto].
      destruct (IHg f Hg false) as (ev & v & Hcall & Hv & Hev).
      destruct (picomatch_well_behaved _ _ _ Hg) as [_ Hbool].
      pose proof (Hbool _ _ _ Hcall) as Hb.
      destruct v as [[|] | r]; try discriminate.
      exists ev; split; assumption.
    + exists ev, (RBool false); repeat split; assumption.
  - discriminate.
Qed.

(** X6. A matcher called on a value that is not a string throws the
    executor's [TypeError] before any callback is called; only the matcher
    of an array that holds no pattern at all returns false instead. *)
Theorem non_string_input_is_rejected (glob : JsVal) (options : Options.t) (rs : bool)
    (m : Matcher.t) (input : JsVal) :
  picomatch glob options rs = inr m ->
  is_string input = false ->
  forall returnObject,
    Matcher.call m input returnObject
    = ([], if nonempty (leaves glob)
           then throw (TypeError "Expected input to be a string")
           else ret (RBool false)).
Proof.
  intros Hm Hin; revert m Hm.
  induction glob as [g | globs IH | t] using JsVal_nested_ind; intros m Hm ro.
  - apply picomatch_single in Hm as (re & isIgnored & _ & _ & _ & _ & ->).
    cbn [Matcher.call].
    unfold matcher, test. destruct input as [s | l | b]; [discriminate | |]; reflexivity.
  - rewrite picomatch_array in Hm.
    apply bind_inr in Hm as (fns & Hfns & Hm); inversion Hm; subst; clear Hm.
    apply map_res_inr in Hfns; cbn [Matcher.call leaves].
    induction Hfns as [| g f globs fns Hg _ IHf]; [reflexivity |].
    inversion IH as [| ? ? IHg IHrest]; subst.
    cbn [any_match flat_map]; rewrite (IHg f Hg false), MatchFacts.nonempty_app.
    destruct (nonempty (leaves g)); [reflexivity |].
    rewrite run_bind_inr_eq; cbn [returned_truthy fst snd app orb].
    rewrite (IHf IHrest); destruct (nonempty (flat_map leaves globs)); reflexivity.
  - discriminate.
Qed.

(** X7. Errors are thrown when a matcher is built, or when it is called on a
    value that is not a string: a matcher called on a string returns, with
    the [returnObject] flag or without it, and without the flag it returns
    a boolean.  The callbacks and the [format] function are taken to return
    normally. *)
Theorem matcher_returns_on_every_string (glob : JsVal) (options : Options.t) (rs : bool)
    (m : Matcher.t) :
  picomatch glob options rs = inr m ->
  forall s,
    (exists ev b, Matcher.call m (JStr s) false = (ev, inr (RBool b)))
    /\ (exists ev v, Matcher.call m (JStr s) true = (ev, inr v)).
Proof.
  intros Hm s.
  destruct (picomatch_well_behaved _ _ _ Hm) as [Htot Hbool].
  split; [| apply Htot].
  destruct (Htot s false) as (ev & v & Hcall).
  specialize (Hbool _ _ _ Hcall).
  destruct v as [b | r]; [eauto | discriminate].
Qed.

(** X8. When the regex flags hold neither [g] nor [y], so that the regexes
    of the matcher are the same objects at both calls, the [returnObject]
    flag of the matcher of one pattern changes what is returned and
    nothing else: the same callbacks are called, and the boolean returned
    without the flag is the [isMatch] of the object returned with it.  The
    object holds the pattern, the input, the formatted input, the state of
    the compilation, and the regex without its [state] property. *)
Theorem result_object_agrees_with_the_boolean (glob : string) (options : Options.t)
    (rs : bool) (m : Matcher.t) :
  stateless_flags options = true ->
  picomatch (JStr glob) options rs = inr m ->
  forall s, exists ev r,
    Matcher.call m (JStr s) true = (ev, inr (RObject r))
    /\ Matcher.call m (JStr s) false = (ev, inr (RBool (Result.isMatch r)))
    /\ Result.glob r = glob
    /\ Result.input r = s
    /\ Result.output r
       = (if s =? "" then ""
          else formatted options (Some (utils_isWindows options)) s)
    /\ Result.posix r = utils_isWindows options
    /\ Result.state r = Some (fst (compile_output glob options))
    /\ Regex.state (Result.regex r) = None.
Proof.
  intros _ Hm s.
  apply picomatch_single in Hm as (re & isIgnored & _ & _ & _ & [Htot _] & ->).
  cbn [Matcher.call].
  destruct (test_string s {| Regex.re := re; Regex.state := None |} options
              {| Ctx.glob := Some glob; Ctx.posix := Some (utils_isWindows options) |})
    as [t Ht].
  destruct (Htot s false) as (evi & w & Hw).
  rewrite !(@matcher_string _ _ _ _ _ _ _ isIgnored s _ t evi w Ht (fun _ => Hw)).
  pose proof (test_output _ _ _ _ Ht) as Hout; cbn [Ctx.posix] in Hout.
  destruct (TestResult.isMatch t && negb (returned_truthy w)) eqn:Hacc;
    eexists; eexists; (split; [reflexivity |]);
    cbn [Result.isMatch Result.set_isMatch result_of];
    repeat split; try exact Hout.
  apply andb_true_iff in Hacc as [-> _]; reflexivity.
Qed.


(** The callbacks called by a sequence of two computations. *)
Lemma run_bind_events {A B} (m : Run A) (k : A -> Run B) :
  fst (run_bind m k)
  = (fst m ++ match snd m with
              | inr a => fst (k a)
              | inl _ => []
              end)%list.
Proof.
  destruct m as [ev [e | a]]; unfold run_bind; cbn [fst snd];
    [rewrite app_nil_r |]; reflexivity.
Qed.

(** A matcher built without [ignore] and without [onMatch], as the ignore
    matcher is, calls no callback but [onResult]. *)
Lemma ignore_matcher_events (glob : JsVal) (options : Options.t) (rs : bool)
    (m : Matcher.t) :
  Options.ignore options = None ->
  Options.onMatch options = false ->
  picomatch glob options rs = inr m ->
  forall input ro, forallb is_onResult (fst (Matcher.call m input ro)) = true.
Proof.
  intros Hign Hom; revert m.
  induction glob as [g | globs IH | t] using JsVal_nested_ind; intros m Hm input ro.
  - apply picomatch_single in Hm as (re & isIgnored & _ & _ & Hi & _ & ->).
    unfold ignore_patterns in Hi; rewrite Hign in Hi; inversion Hi; subst isIgnored.
    cbn [Matcher.call].
    destruct input as [s | l | b]; [| reflexivity | reflexivity].
    destruct (test_string s {| Regex.re := re; Regex.state := None |} options
                {| Ctx.glob := Some g; Ctx.posix := Some (utils_isWindows options) |})
      as [t Ht].
    rewrite (@matcher_string _ _ _ _ _ _ _ not_ignored s _ t [] (RBool false) Ht
               (fun _ => eq_refl)); cbn [fst returned_truthy].
    rewrite Hom. destruct (Options.onResult options), (TestResult.isMatch t); reflexivity.
  - rewrite picomatch_array in Hm.
    apply bind_inr in Hm as (fns & Hfns & Hm); inversion Hm; subst; clear Hm.
    apply map_res_inr in Hfns; cbn [Matcher.call].
    induction Hfns as [| g f globs fns Hg _ IHf]; [reflexivity |].
    inversion IH as [| ? ? IHg IHrest]; subst.
    cbn [any_match]; rewrite run_bind_events.
    apply forallb_app_true; [apply (IHg f Hg) |].
    destruct (snd (Matcher.call f input false)) as [e | v]; [reflexivity |].
    destruct (returned_truthy v); [reflexivity | apply (IHf IHrest)].
  - discriminate.
Qed.

(** X10. The callbacks of the matcher of one pattern, in the order of the
    calls: [onResult] first, on every input; then what the ignore matcher
    calls, which is [onResult] only; then [onMatch] when the input is
    accepted, [onIgnore] when it matched and was ignored, and nothing when
    it did not match.  A callback that is not a function is left out. *)
Theorem callbacks_follow_the_outcome (glob : string) (options : Options.t) (rs : bool)
    (m : Matcher.t) :
  picomatch (JStr glob) options rs = inr m ->
  forall s returnObject, exists r evi,
    fst (Matcher.call m (JStr s) returnObject)
    = ((if Options.onResult options then [OnResult r] else [])
       ++ evi
       ++ (if accepts m s then (if Options.onMatch options then [OnMatch r] else [])
           else if Result.isMatch r
                then (if Options.onIgnore options then [OnIgnore r] else [])
                else []))%list
    /\ forallb is_onResult evi = true
    /\ Result.glob r = glob
    /\ Result.input r = s.
Proof.
  intros Hm s ro.
  apply picomatch_single in Hm as (re & isIgnored & _ & _ & Hign & [Htot _] & ->).
  cbn [Matcher.call].
  destruct (test_string s {| Regex.re := re; Regex.state := None |} options
              {| Ctx.glob := Some glob; Ctx.posix := Some (utils_isWindows options) |})
    as [t Ht].
  destruct (Htot s false) as (evi & w & Hw).
  assert (Hevi : forallb is_onResult evi = true).
  { destruct (ignore_patterns options) as [ig |].
    - change evi with (fst (evi, @inr Error _ w)); rewrite <- Hw.
      eapply ignore_matcher_events; [| | exact Hign]; reflexivity.
    - inversion Hign; subst isIgnored; inversion Hw; reflexivity. }
  unfold accepts; cbn [Matcher.call].
  rewrite (@matcher_string _ _ _ _ _ _ _ isIgnored s false t evi w Ht (fun _ => Hw)).
  rewrite (@matcher_string _ _ _ _ _ _ _ isIgnored s ro t evi w Ht (fun _ => Hw)).
  cbn [fst snd].
  exists (result_of glob (Some (fst (compile_output glob options)))
            {| Regex.re := re; Regex.state := None |} (utils_isWindows options) s t).
  exists (if TestResult.isMatch t then evi else []).
  cbn [result_of Result.isMatch Result.glob Result.input].
  repeat split; [| destruct (TestResult.isMatch t); [exact Hevi | reflexivity]].
  destruct (TestResult.isMatch t), (returned_truthy w); reflexivity.
Qed.

(** Mapping a function that fails with one and the same error. *)
Lemma map_res_all {A B} (f : A -> Res B) (valid : A -> bool) (e : Error) (l : list A) :
  Forall (fun a => if valid a then exists b, f a = inr b else f a = inl e) l ->
  if forallb valid l then exists bs, map_res f l = inr bs else map_res f l = inl e.
Proof.
  induction 1 as [| a l Ha _ IH]; cbn [forallb map_res]; [eexists; reflexivity |].
  destruct (valid a); cbn [andb].
  - destruct Ha as [b ->]; cbn [bind].
    destruct (forallb valid l).
    + destruct IH as [bs ->]; eexists; reflexivity.
    + rewrite IH; reflexivity.
  - rewrite Ha; reflexivity.
Qed.

Lemma forallb_flat_map {A B} (p : B -> bool) (f : A -> list B) (l : list A) :
  forallb p (flat_map f l) = forallb (fun a => forallb p (f a)) l.
Proof.
  induction l as [| a l IH]; cbn [flat_map forallb]; [reflexivity |].
  rewrite forallb_app, IH; reflexivity.
Qed.

Lemma is_nil_flat_map {A B} (f : A -> list B) (l : list A) :
  is_nil (flat_map f l) = forallb (fun a => is_nil (f a)) l.
Proof.
  unfold is_nil; induction l as [| a l IH]; cbn [flat_map forallb]; [reflexivity |].
  rewrite MatchFacts.nonempty_app, negb_orb, IH; reflexivity.
Qed.

Lemma forallb_andb {A} (p q : A -> bool) (l : list A) :
  forallb (fun a => p a && q a) l = forallb p l && forallb q l.
Proof.
  induction l as [| a l IH]; cbn [forallb]; [reflexivity |].
  rewrite IH; destruct (p a), (q a), (forallb p l); reflexivity.
Qed.

(** Outside debug mode, whether the factory returns is decided by the
    patterns, given what the construction of the ignore matcher does. *)
Lemma picomatch_constructs (options : Options.t) (rs : bool) (ignore_ok : bool) :
  Options.debug options = false ->
  match ignore_patterns options with
  | Some ignore =>
      if ignore_ok then exists mi, picomatch ignore (Options.for_ignore options) rs = inr mi
      else picomatch ignore (Options.for_ignore options) rs
           = throw (TypeError "Expected pattern to be a non-empty string")
  | None => ignore_ok = true
  end ->
  forall glob,
    if valid_patterns glob && (is_nil (leaves glob) || ignore_ok)
    then exists m, picomatch glob options rs = inr m
    else picomatch glob options rs
         = throw (TypeError "Expected pattern to be a non-empty string").
Proof.
  intros Hdebug Hign glob.
  induction glob as [g | globs IH | t] using JsVal_nested_ind.
  - destruct g as [| c g]; [reflexivity |].
    unfold valid_patterns; cbn [leaves forallb is_nonempty_string String.eqb negb is_nil
                               nonempty andb orb].
    rewrite picomatch_string, makeRe_string; cbn [bind].
    destruct (toRegex_returns
                (assemble_source (fst (compile_output (String c g) options))
                   (snd (compile_output (String c g) options)) options)
                options Hdebug) as [re ->]; cbn [bind ret].
    unfold ignore_patterns in Hign.
    destruct (Options.ignore options) as [ig |]; [destruct (truthy ig) |].
    + destruct ignore_ok; [destruct Hign as [mi ->]; eexists | rewrite Hign]; reflexivity.
    + subst ignore_ok; eexists; reflexivity.
    + subst ignore_ok; eexists; reflexivity.
  - rewrite picomatch_array.
    unfold valid_patterns; cbn [leaves].
    rewrite forallb_flat_map, is_nil_flat_map.
    pose proof (@map_res_all _ _ (fun input => picomatch input options rs)
                  (fun g => valid_patterns g && (is_nil (leaves g) || ignore_ok))
                  (TypeError "Expected pattern to be a non-empty string") globs IH) as H.
    rewrite forallb_andb in H.
    fold valid_patterns.
    replace (forallb (fun g => is_nil (leaves g) || ignore_ok) globs)
      with (forallb (fun a => is_nil (leaves a)) globs || ignore_ok) in H.
    + match type of H with (if ?b then _ else _) => destruct b end.
      * destruct H as [fns ->]; eexists; reflexivity.
      * rewrite H; reflexivity.
    + destruct ignore_ok.
      * rewrite orb_true_r; symmetry; apply forallb_forall; intros; apply orb_true_r.
      * rewrite orb_false_r; clear; induction globs as [| g globs IHg]; [reflexivity |].
        cbn [forallb]; rewrite IHg, orb_false_r; reflexivity.
  - reflexivity.
Qed.

(** X11. Outside debug mode the factory returns a matcher exactly when every
    pattern, in nested arrays too, is a non-empty string and, if there is a
    pattern at all, the same holds of the ignore patterns; otherwise it
    throws the [TypeError] of an invalid pattern.  A source that is no
    regular expression does not make it throw. *)
Theorem factory_throws_exactly_on_invalid_patterns (glob : JsVal) (options : Options.t)
    (rs : bool) :
  Options.debug options = false ->
  if constructible glob options
  then exists m, picomatch glob options rs = inr m
  else picomatch glob options rs
       = throw (TypeError "Expected pattern to be a non-empty string").
Proof.
  intros Hdebug; unfold constructible.
  apply (picomatch_constructs options rs
           match ignore_patterns options with
           | Some ignore => valid_patterns ignore
           | None => true
           end Hdebug).
  destruct (ignore_patterns options) as [ig |]; [| reflexivity].
  pose proof (@picomatch_constructs (Options.for_ignore options) rs true Hdebug eq_refl ig)
    as H.
  rewrite orb_true_r, andb_true_r in H; exact H.
Qed.

(** X12. The [state] property is set on the matcher of one pattern when
    [returnState] is true, and only then; it is the state of the
    compilation of the pattern.  The matcher of an array never has it. *)
Theorem state_is_attached_on_request (glob : JsVal) (options : Options.t) (rs : bool)
    (m : Matcher.t) :
  picomatch glob options rs = inr m ->
  Matcher.state m
  = match glob with
    | JStr g => if rs then Some (fst (compile_output g options)) else None
    | _ => None
    end.
Proof.
  destruct glob as [g | globs | t]; intros Hm.
  - apply picomatch_single in Hm as (re & isIgnored & _ & _ & _ & _ & ->); reflexivity.
  - rewrite picomatch_array in Hm.
    apply bind_inr in Hm as (fns & _ & Hm); inversion Hm; reflexivity.
  - discriminate.
Qed.

Lemma existsb_concat {A} (f : A -> bool) (ls : list (list A)) :
  existsb f (concat ls) = existsb (existsb f) ls.
Proof.
  induction ls as [| l ls IH]; cbn [concat existsb]; [reflexivity |].
  rewrite existsb_app, IH; reflexivity.
Qed.

(** X13. Arrays of patterns may be nested, and the nesting makes no difference:
    the factory builds a matcher for every pattern, in the order of the
    patterns, and the matcher it returns accepts a string exactly when one
    of them does. *)
Theorem nested_arrays_are_flattened (glob : JsVal) (options : Options.t) (rs : bool)
    (m : Matcher.t) :
  picomatch glob options rs = inr m ->
  exists fns,
    Forall2 (fun pattern f => picomatch pattern options rs = inr f) (leaves glob) fns
    /\ forall s, accepts m s = existsb (fun f => accepts f s) fns.
Proof.
  revert m; induction glob as [g | globs IH | t] using JsVal_nested_ind; intros m Hm.
  - exists [m]; split; [repeat constructor; exact Hm |].
    intros s; cbn [existsb]; rewrite orb_false_r; reflexivity.
  - pose proof Hm as Hm'. rewrite picomatch_array in Hm.
    apply bind_inr in Hm as (fns & Hfns & Hm); inversion Hm; subst; clear Hm.
    apply map_res_inr in Hfns.
    assert (Hwb : Forall well_behaved fns).
    { clear - Hfns. induction Hfns as [| g f globs fns Hg _ IHf]; constructor; auto.
      eapply picomatch_well_behaved; eassumption. }
    assert (Hflat : exists fnss,
               Forall2 (fun pattern f => picomatch pattern options rs = inr f)
                 (flat_map leaves globs) (concat fnss)
               /\ forall s, existsb (fun f => accepts f s) fns
                            = existsb (existsb (fun f => accepts f s)) fnss).
    { clear Hm' Hwb. induction Hfns as [| g f globs fns Hg _ IHf].
      - exists []; split; [constructor | reflexivity].
      - inversion IH as [| ? ? IHg IHrest]; subst.
        destruct (IHg f Hg) as (fg & Hfg & Hacc).
        destruct (IHf IHrest) as (fnss & Hall & Haccs).
        exists (fg :: fnss); split.
        + cbn [flat_map concat]; apply Forall2_app; assumption.
        + intros s; cbn [existsb]; rewrite Hacc, Haccs; reflexivity. }
    destruct Hflat as (fnss & Hall & Haccs).
    exists (concat fnss); split; [exact Hall |].
    intros s; unfold accepts at 1; cbn [Matcher.call].
    rewrite (any_match_spec s Hwb); cbn [snd returned_truthy].
    rewrite Haccs, existsb_concat; reflexivity.
  - discriminate.
Qed.

End MatcherProperties.

(* ------------------------------------------------------------------ *)
(** * Further properties: the regex assembler *)

Section AssemblerProperties.

Context {R : Runtime} {S : Siblings}.



(** X15. A negated state comes from the Syntax Compiler alone: the pattern
    holds a glob character, the fast paths gave no output for it, and state
    and output are the Syntax Compiler's.  The literal path and the fast
    paths never negate. *)
Theorem negation_comes_from_the_syntax_compiler (input : string) (options : Options.t) :
  State.negated (fst (compile_output input options)) = true ->
  has_glob_chars (strip_dot_slash input) = true
  /\ compile_output input options
     = (parse (strip_dot_slash input) options,
        State.output (parse (strip_dot_slash input) options))
  /\ State.negated (parse (strip_dot_slash input) options) = true.
Proof.
  intros Hneg; pose proof (compile_output_negated _ _ Hneg) as Hout.
  split; [| split; [exact Hout | rewrite Hout in Hneg; exact Hneg]].
  revert Hneg; unfold compile_output.
  destruct (has_glob_chars (strip_dot_slash input)); [reflexivity |]; cbn [negb].
  destruct (Options.fastpaths options && _); [| discriminate].
  destruct (parse_fastpaths (strip_dot_slash input) options) as [o |]; [| discriminate].
  destruct (negb (o =? "") && _); discriminate.
Qed.

End AssemblerProperties.

Module LiteralMatch.

Import ES.

Local Open Scope nat_scope.

(** A sequence of characters matches at [i] exactly when it stands
    there. *)
Lemma literal_ends_exact (ic : bool) (s q : list ascii) (i : nat) :
  ends ic s (seq_of (map Chr q)) i
  = if same_prefix ic q (skipn i s) then [i + length q] else [].
Proof.
  revert i; induction q as [| c q IH]; intros i;
    cbn [map seq_of fold_right ends same_prefix].
  - rewrite Nat.add_0_r; reflexivity.
  - unfold one; rewrite (MatchFacts.nth_error_skipn s i).
    destruct (nth_error s i) as [d |]; [| reflexivity].
    destruct (same_char ic c d); cbn [flat_map andb]; [| reflexivity].
    rewrite app_nil_r, IH; cbn [length].
    replace (S i + length q) with (i + S (length q)) by lia; reflexivity.
Qed.

(** What [^(?:p)$] accepts, for a sequence of characters [p]. *)
Lemma anchored_literal_accepts (src : string) (ic : bool) (p s : string) :
  regex_accepts
    {| source := src; ignoreCase := ic;
       ast := Seq Bol (Seq (Group (seq_of (map Chr (list_ascii_of_string p))))
                         (Seq Eol Empty)) |} s
  = same_string ic p s.
Proof.
  rewrite MatchFacts.anchored_accepts; unfold same_string.
  rewrite <- !chars_length.
  set (cs := list_ascii_of_string s); set (q := list_ascii_of_string p).
  change (ends ic cs (Seq (Group (seq_of (map Chr q))) (Seq Eol Empty)) 0)
    with (flat_map (ends ic cs (Seq Eol Empty)) (ends ic cs (seq_of (map Chr q)) 0)).
  rewrite MatchFacts.nonempty_flat_map, literal_ends_exact; cbn [skipn].
  destruct (same_prefix ic q cs); [| reflexivity].
  cbn [existsb Nat.add andb]; rewrite orb_false_r.
  apply MatchFacts.ends_eol.
Qed.

(** What [(?:p)] accepts. *)
Lemma unanchored_literal_accepts (src : string) (ic : bool) (p s : string) :
  regex_accepts
    {| source := src; ignoreCase := ic;
       ast := Seq (Group (seq_of (map Chr (list_ascii_of_string p)))) Empty |} s
  = contains_string ic p s.
Proof.
  unfold regex_accepts, exec, contains_string; cbn [ignoreCase ast].
  set (cs := list_ascii_of_string s); set (q := list_ascii_of_string p).
  set (r := Seq (Group (seq_of (map Chr q))) Empty).
  assert (H : forall n start,
             start <= length cs -> n = S (length cs - start) ->
             match exec_from ic cs r start n with
             | Some _ => true
             | None => false
             end = occurs_in ic q (skipn start cs)).
  { induction n as [| n IH]; intros start Hle Hn; [discriminate |].
    cbn [exec_from]. subst r.
    change (ends ic cs (Seq (Group (seq_of (map Chr q))) Empty) start)
      with (flat_map (ends ic cs Empty) (ends ic cs (seq_of (map Chr q)) start)).
    rewrite literal_ends_exact.
    rewrite (MatchFacts.nth_error_skipn cs start).
    destruct (nth_error cs start) as [d |] eqn:Hd.
    - assert (Hlt : start < length cs) by (apply nth_error_Some; congruence).
      cbn [occurs_in].
      destruct (same_prefix ic q (d :: skipn (S start) cs)); [reflexivity |].
      cbn [flat_map orb]; apply IH; lia.
    - assert (Hge : length cs <= start) by (apply nth_error_None; exact Hd).
      cbn [occurs_in]; rewrite orb_false_r.
      destruct (same_prefix ic q []); [reflexivity |].
      cbn [flat_map]. destruct n; [reflexivity | lia]. }
  specialize (H (S (length cs)) 0 (Nat.le_0_l _)).
  rewrite Nat.sub_0_r in H; specialize (H eq_refl); cbn [skipn] in H.
  rewrite <- H.
  destruct (exec_from ic cs r 0 (S (length cs))) as [[b e] |]; reflexivity.
Qed.

(** Without [ic] the comparison is the equality of strings. *)
Lemma same_string_exact (p s : string) : same_string false p s = (p =? s)%string.
Proof.
  unfold same_string; revert s; induction p as [| c p IH]; intros [| d s];
    cbn [list_ascii_of_string same_prefix String.length Nat.eqb andb String.eqb same_char];
    try reflexivity.
  rewrite <- andb_assoc, IH; reflexivity.
Qed.

End LiteralMatch.

Section LiteralProperties.

Context {S : Siblings}.
Variable cwd : string.

(** The regex of a pattern without glob characters that the fast paths
    leave uncompiled. *)
Lemma makeRe_literal (p : string) (options : Options.t) (rs : bool) :
  (p =? "") = false ->
  has_glob_chars p = false ->
  uncompiled_by_fast_paths p options ->
  Options.flags options = "" ->
  let state := {| State.output := None; State.negated := false;
                  State.fastpaths := true |} in
  makeRe (R := node cwd) (JStr p) options false rs
  = ret (ReRegex (R := node cwd)
           {| Regex.re :=
                {| ES.source := assemble_source state
                                  (Some (escape_dot_slash (strip_dot_slash p))) options;
                   ES.ignoreCase := Options.nocase options;
                   ES.ast :=
                     let chars :=
                       ES.Group (ES.seq_of (map ES.Chr (list_ascii_of_string
                                                          (strip_dot_slash p)))) in
                     if Options.contains options then ES.Seq chars ES.Empty
                     else ES.Seq ES.Bol (ES.Seq chars (ES.Seq ES.Eol ES.Empty)) |}
                : RegExp (Runtime := node cwd);
              Regex.state := if rs then Some state else None |}).
Proof.
  intros Hne Hglob Hmiss Hflags state; subst state.
  destruct p as [| c p]; [discriminate |].
  rewrite makeRe_string, compile_output_literal by assumption; cbn [fst snd].
  pose proof (LiteralFacts.parse_literal _ (has_glob_chars_strip _ Hglob)) as Hparse.
  set (X := escape_dot_slash (strip_dot_slash (String c p))) in *.
  replace (assemble_source _ (Some X) options)
    with (if Options.contains options then "(?:" ++ X ++ ")" else "^(?:" ++ X ++ ")$")
    by (unfold assemble_source; destruct (Options.contains options); reflexivity).
  destruct (Options.contains options).
  - rewrite (toRegex_node cwd _ options Hflags (ESFacts.parse_unanchored _ Hparse)).
    reflexivity.
  - rewrite (toRegex_node cwd _ options Hflags (ESFacts.parse_anchored _ Hparse)).
    reflexivity.
Qed.

(** The same regex, as [compiled] gives it. *)
Lemma compiled_literal (p : string) (options : Options.t) :
  (p =? "") = false ->
  has_glob_chars p = false ->
  uncompiled_by_fast_paths p options ->
  Options.flags options = "" ->
  compiled cwd p options
  = Some {| ES.source := assemble_source
                           {| State.output := None; State.negated := false;
                              State.fastpaths := true |}
                           (Some (escape_dot_slash (strip_dot_slash p))) options;
            ES.ignoreCase := Options.nocase options;
            ES.ast :=
              let chars := ES.Group (ES.seq_of (map ES.Chr (list_ascii_of_string
                                                             (strip_dot_slash p)))) in
              if Options.contains options then ES.Seq chars ES.Empty
              else ES.Seq ES.Bol (ES.Seq chars (ES.Seq ES.Eol ES.Empty)) |}.
Proof.
  intros Hne Hglob Hmiss Hflags; unfold compiled.
  rewrite (makeRe_literal false Hne Hglob Hmiss Hflags); reflexivity.
Qed.

(** X16. The regex of a pattern without glob characters accepts the pattern,
    its leading [./] apart, and nothing else: a dot of the pattern stands
    for a dot.  With [nocase] the case of the letters is not compared. *)
Theorem literal_regex_accepts_exactly_the_pattern (p : string) (options : Options.t)
    (s : string) :
  (p =? "") = false ->
  has_glob_chars p = false ->
  uncompiled_by_fast_paths p options ->
  Options.flags options = "" ->
  Options.contains options = false ->
  accepted_by (compiled cwd p options) s
  = Some (same_string (Options.nocase options) (strip_dot_slash p) s)
  /\ (Options.nocase options = false ->
      accepted_by (compiled cwd p options) s = Some (strip_dot_slash p =? s)).
Proof.
  intros Hne Hglob Hmiss Hflags Hcontains.
  rewrite (compiled_literal Hne Hglob Hmiss Hflags), Hcontains.
  unfold accepted_by, option_map; cbv zeta.
  rewrite LiteralMatch.anchored_literal_accepts.
  split; [reflexivity |].
  intros ->; rewrite LiteralMatch.same_string_exact; reflexivity.
Qed.

(** X17. With the [contains] option the regex of a pattern without glob
    characters accepts the strings in which the pattern, its leading [./]
    apart, occurs. *)
Theorem literal_regex_with_contains_accepts_what_contains_the_pattern
    (p : string) (options : Options.t) (s : string) :
  (p =? "") = false ->
  has_glob_chars p = false ->
  uncompiled_by_fast_paths p options ->
  Options.flags options = "" ->
  Options.contains options = true ->
  accepted_by (compiled cwd p options) s
  = Some (contains_string (Options.nocase options) (strip_dot_slash p) s).
Proof.
  intros Hne Hglob Hmiss Hflags Hcontains.
  rewrite (compiled_literal Hne Hglob Hmiss Hflags), Hcontains.
  unfold accepted_by, option_map; cbv zeta.
  rewrite LiteralMatch.unanchored_literal_accepts; reflexivity.
Qed.

(** X18. With no option set, a pattern without glob characters accepts an
    input exactly when the input, as given or formatted, is the pattern, or
    when the formatted input is the pattern without its leading [./]. *)
Theorem plain_pattern_accepts_exactly_itself (p s : string) :
  (p =? "") = false ->
  (s =? "") = false ->
  has_glob_chars p = false ->
  uncompiled_by_fast_paths p Options.empty ->
  let output := formatted Options.empty (Some (utils_isWindows Options.empty)) s in
  isMatch (R := node cwd) (JStr s) (JStr p) Options.empty
  = ([], inr (RBool ((s =? p) || (output =? p) || (strip_dot_slash p =? output)))).
Proof.
  intros Hp Hs Hglob Hmiss output.
  unfold isMatch.
  destruct p as [| c p]; [discriminate |].
  rewrite picomatch_string, (makeRe_literal true Hp Hglob Hmiss eq_refl).
  cbn [bind ret Options.ignore Options.empty Regex.state Regex.re].
  rewrite run_bind_lift_inr; cbn [Matcher.call].
  pose proof (@test_cases (node cwd) S s
                {| Regex.re := literal_regex (strip_dot_slash (String c p))
                               : RegExp (Runtime := node cwd);
                   Regex.state := None |}
                Options.empty
                {| Ctx.glob := Some (String c p);
                   Ctx.posix := Some (utils_isWindows Options.empty) |} Hs) as Ht.
  cbn [Ctx.glob Ctx.posix Options.capture Options.matchBase Options.basename
       Options.empty orb Regex.re] in Ht.
  fold output in Ht.
  change (RegExp_exec (Runtime := node cwd)) with ES.exec in Ht.
  destruct ((s =? String c p) || (output =? String c p)) eqn:Hlit;
    cbn [negb orb bind ret] in Ht.
  - rewrite (@matcher_string (node cwd) S _ _ _ _ _ not_ignored s false _ []
               (RBool false) Ht (fun _ => eq_refl)).
    reflexivity.
  - rewrite (@matcher_string (node cwd) S _ _ _ _ _ not_ignored s false _ []
               (RBool false) Ht (fun _ => eq_refl)).
    cbn [TestResult.isMatch match_truthy Options.onResult Options.onMatch Options.empty
         returned_truthy negb app].
    change (match ES.exec (literal_regex (strip_dot_slash (String c p))) output with
            | Some _ => true
            | None => false
            end)
      with (regex_accepts (literal_regex (strip_dot_slash (String c p))) output).
    unfold literal_regex.
    rewrite LiteralMatch.anchored_literal_accepts, LiteralMatch.same_string_exact.
    destruct (strip_dot_slash (String c p) =? output); reflexivity.
Qed.

End LiteralProperties.

Section WholeMatch.

Context {S : Siblings}.
Variable cwd : string.

(** X19. The regex of a pattern that is not negated accepts a string exactly
    when the compiled fragment matches the whole of it: the fragment is
    wrapped in a group between the anchors, so that an alternation inside
    it stays inside.  With [nocase] the regex is built with the [i]
    flag. *)
Theorem regex_accepts_what_the_fragment_matches_entirely
    (input : string) (options : Options.t) (state : State.t) (output : option string)
    (fragment : ES.re) (s : string) :
  (input =? "") = false ->
  compile_output input options = (state, output) ->
  State.negated state = false ->
  Options.contains options = false ->
  Options.flags options = "" ->
  ES.parse_source (interpolate output) = ES.Ok fragment ->
  accepted_by (compiled cwd input options) s
  = Some (matches_whole (Options.nocase options) fragment s).
Proof.
  intros Hne Hout Hneg Hcontains Hflags Hfrag.
  destruct input as [| c rest]; [discriminate |].
  unfold compiled; rewrite makeRe_string, Hout; cbn [fst snd].
  replace (assemble_source state output options) with ("^(?:" ++ interpolate output ++ ")$")
    by (unfold assemble_source; rewrite Hneg, Hcontains; reflexivity).
  rewrite (toRegex_node cwd _ options Hflags (ESFacts.parse_anchored _ Hfrag)).
  cbn [bind ret Regex.re accepted_by option_map]; f_equal.
  rewrite MatchFacts.anchored_accepts; unfold matches_whole.
  rewrite <- chars_length.
  set (cs := list_ascii_of_string s).
  change (ES.ends (Options.nocase options) cs
            (ES.Seq (ES.Group fragment) (ES.Seq ES.Eol ES.Empty)) 0)
    with (flat_map (ES.ends (Options.nocase options) cs (ES.Seq ES.Eol ES.Empty))
            (ES.ends (Options.nocase options) cs fragment 0)).
  rewrite MatchFacts.nonempty_flat_map.
  apply MatchFacts.existsb_pointwise; intros e; apply MatchFacts.ends_eol.
Qed.

(** [exec] tries every start position in turn. *)
Lemma exec_from_somewhere (ic : bool) (cs : list ascii) (r : ES.re) (n start : nat) :
  match ES.exec_from ic cs r start n with
  | Some _ => true
  | None => false
  end = existsb (fun i => nonempty (ES.ends ic cs r i)) (seq start n).
Proof.
  revert start; induction n as [| n IH]; intros start; cbn [ES.exec_from seq existsb];
    [reflexivity |].
  destruct (ES.ends ic cs r start); [apply IH | reflexivity].
Qed.

(** X20. With the [contains] option the regex of a pattern that is not negated
    accepts a string exactly when the compiled fragment matches some part
    of it: the anchors are left out. *)
Theorem regex_with_contains_accepts_what_the_fragment_matches_somewhere
    (input : string) (options : Options.t) (state : State.t) (output : option string)
    (fragment : ES.re) (s : string) :
  (input =? "") = false ->
  compile_output input options = (state, output) ->
  State.negated state = false ->
  Options.contains options = true ->
  Options.flags options = "" ->
  ES.parse_source (interpolate output) = ES.Ok fragment ->
  accepted_by (compiled cwd input options) s
  = Some (matches_somewhere (Options.nocase options) fragment s).
Proof.
  intros Hne Hout Hneg Hcontains Hflags Hfrag.
  destruct input as [| c rest]; [discriminate |].
  unfold compiled; rewrite makeRe_string, Hout; cbn [fst snd].
  replace (assemble_source state output options) with ("(?:" ++ interpolate output ++ ")")
    by (unfold assemble_source; rewrite Hneg, Hcontains; reflexivity).
  rewrite (toRegex_node cwd _ options Hflags (ESFacts.parse_unanchored _ Hfrag)).
  cbn [bind ret Regex.re accepted_by option_map]; f_equal.
  unfold regex_accepts, ES.exec, matches_somewhere; cbn [ES.ignoreCase ES.ast].
  rewrite <- chars_length.
  set (cs := list_ascii_of_string s).
  pose proof (exec_from_somewhere (Options.nocase options) cs
                (ES.Seq (ES.Group fragment) ES.Empty) (Datatypes.S (length cs)) 0) as H.
  rewrite (MatchFacts.existsb_pointwise _
             (fun i => nonempty (ES.ends (Options.nocase options) cs fragment i))) in H.
  - destruct (ES.exec_from _ cs _ 0 (Datatypes.S (length cs))) as [[b e] |];
      rewrite <- H; reflexivity.
  - intros i.
    change (ES.ends (Options.nocase options) cs (ES.Seq (ES.Group fragment) ES.Empty) i)
      with (flat_map (fun e => [e]) (ES.ends (Options.nocase options) cs fragment i)).
    rewrite MatchFacts.flat_map_singleton; reflexivity.
Qed.

End WholeMatch.

(* ------------------------------------------------------------------ *)
(** * Further properties: paths *)

Section PathProperties.

Context {R : Runtime} {S : Siblings}.

(** X21. [join] keeps a plain glob as it is, at the end of what it returns:
    what stands before the glob is empty or ends with a slash, and holds no
    backslash, while the backslashes of the glob are kept. *)
Theorem join_keeps_a_plain_glob_at_the_end (args : list string) (glob : string) :
  plain_glob glob = true ->
  exists q,
    join (args ++ [glob]) = ret (q ++ glob)
    /\ (q = "" \/ ends_with "/" q = true)
    /\ string_exists (Ascii.eqb "\") q = false.
Proof.
  intros Hplain; unfold join; rewrite pop_snoc.
  destruct (@JoinFacts.join_plain_glob (toPosixSlashes (Path.join args)) glob Hplain)
    as (q & Hjoin & Hq & _ & Hno).
  exists q; rewrite Hjoin; repeat split; [exact Hq |].
  apply Hno; try reflexivity. apply toPosixSlashes_no_backslash.
Qed.

(** X22. When the directory [path.posix.resolve] starts from is absolute,
    [resolve] returns an absolute path that ends with the plain glob it was
    given, after a slash; what stands before the glob holds no backslash. *)
Theorem resolve_returns_an_absolute_path (args : list string) (glob : string) :
  Path.isAbsolute posix_cwd = true ->
  plain_glob glob = true ->
  exists q,
    resolve (args ++ [glob]) = ret (q ++ glob)
    /\ Path.isAbsolute (q ++ glob) = true
    /\ ends_with "/" q = true
    /\ string_exists (Ascii.eqb "\") q = false.
Proof.
  intros Hcwd Hplain; unfold resolve; rewrite pop_snoc.
  destruct (@JoinFacts.join_plain_glob (toPosixSlashes (Path.resolve posix_cwd args)) glob
              Hplain) as (q & Hjoin & Hq & Habs & Hno).
  assert (Hqabs : Path.isAbsolute q = true).
  { apply Habs, JoinFacts.toPosixSlashes_absolute, JoinFacts.resolve_absolute; exact Hcwd. }
  exists q; rewrite Hjoin; repeat split.
  - destruct q; [discriminate | exact Hqabs].
  - destruct Hq as [-> | Hq]; [discriminate | exact Hq].
  - apply Hno; try reflexivity. apply toPosixSlashes_no_backslash.
Qed.

(** X23. [join] and [resolve] take the glob from the end of their
    arguments: called without arguments they throw a [TypeError], since
    there is no glob to join; called with a plain glob alone, [join]
    returns the glob. *)
Theorem join_and_resolve_on_short_argument_lists :
  (exists msg, join [] = throw (TypeError msg))
  /\ (exists msg, resolve [] = throw (TypeError msg))
  /\ (forall glob, plain_glob glob = true -> join [glob] = ret glob).
Proof.
  split; [eexists; reflexivity | split; [eexists; reflexivity |]].
  intros glob Hplain.
  unfold join; cbn [pop map last removelast].
  change (toPosixSlashes (Path.join [])) with ".".
  rewrite (@JoinFacts.join_dot glob Hplain); reflexivity.
Qed.

End PathProperties.

Module BasenameFacts.

(** The base name of a path that ends with a name, or with a name and a
    slash. *)
Lemma basename_last (dir name : string) :
  (name =? "") = false ->
  string_exists (Ascii.eqb "/") name = false ->
  Path.basename (dir ++ "/" ++ name) = name
  /\ Path.basename (dir ++ "/" ++ name ++ "/") = name
  /\ Path.basename name = name.
Proof.
  intros Hne Hno; unfold Path.basename.
  change (dir ++ "/" ++ name) with (dir ++ String "/" name).
  change (dir ++ "/" ++ name ++ "/") with (dir ++ String "/" (name ++ String "/" "")).
  rewrite !PathFacts.split_app, (@PathFacts.split_no_slash _ Hno); cbn [Path.split].
  rewrite !filter_app; cbn [filter String.eqb negb]; rewrite Hne; cbn [negb app].
  rewrite last_last; repeat split; reflexivity.
Qed.

End BasenameFacts.

Section HostProperties.

Context {S : Siblings}.
Variable cwd : string.

(** X24. On a POSIX host, [matchBase] looks at the base name of the input only:
    the directories before the last name, and a slash after it, make no
    difference. *)
Theorem matchBase_looks_at_the_base_name_only (dir name : string)
    (pattern : Regex.t (R := node cwd) + JsVal) (options : Options.t)
    (posix : option bool) :
  (name =? "") = false ->
  string_exists (Ascii.eqb "/") name = false ->
  matchBase (R := node cwd) (dir ++ "/" ++ name) pattern options posix
  = matchBase (R := node cwd) name pattern options posix
  /\ matchBase (R := node cwd) (dir ++ "/" ++ name ++ "/") pattern options posix
     = matchBase (R := node cwd) name pattern options posix.
Proof.
  intros Hne Hno.
  destruct (@BasenameFacts.basename_last dir name Hne Hno) as (H1 & H2 & H3).
  unfold matchBase.
  change (path_basename (Runtime := node cwd)) with Path.basename.
  rewrite H1, H2, H3.
  split; reflexivity.
Qed.

(** X25. On a POSIX host whose working directory is absolute, the [cwd] that
    [split] returns is an absolute path; when the Scanner's base is
    absolute, it is this base resolved on its own, whatever the [cwd]
    option. *)
Theorem split_returns_an_absolute_cwd (pattern : string) (options : Options.t) :
  Path.isAbsolute cwd = true ->
  Path.isAbsolute (Split.cwd (split (R := node cwd) pattern options)) = true
  /\ (Path.isAbsolute (Scan.base (scan pattern options)) = true ->
      Split.cwd (split (R := node cwd) pattern options)
      = Path.resolve cwd [Scan.base (scan pattern options)]).
Proof.
  intros Hcwd; unfold split; cbn [Split.cwd].
  change (path_resolve (Runtime := node cwd))
    with (fun from to => Path.resolve cwd [from; to]).
  cbv beta; split; [apply JoinFacts.resolve_absolute; exact Hcwd |].
  intros Hbase; unfold Path.resolve; cbn [rev app Path.resolve_loop].
  destruct (Scan.base (scan pattern options)) as [| c b]; [discriminate |].
  cbn [String.eqb]; rewrite Hbase; reflexivity.
Qed.

End HostProperties.

(* ------------------------------------------------------------------ *)
(** * Instances of the theorems, and inputs on which claims fail *)

(** C8 at concrete arguments. *)
Lemma invalid_arguments_are_rejected_witness :
  picomatch (R := node "/") (S := siblings_model) (JOther true) Options.empty false
  = throw (TypeError "Expected pattern to be a non-empty string")
  /\ makeRe (R := node "/") (S := siblings_model) (JArr []) Options.empty false false
     = throw (TypeError "Expected a non-empty string")
  /\ test (R := node "/") (S := siblings_model) (JOther false)
       {| Regex.re := ES.never : RegExp (Runtime := node "/"); Regex.state := None |}
       Options.empty Ctx.empty
     = throw (TypeError "Expected input to be a string").
Proof.
  destruct (@invalid_arguments_are_rejected (node "/") siblings_model)
    as (Hfactory & Hassembler & Hexecutor & _).
  split; [| split].
  - apply Hfactory; reflexivity.
  - apply Hassembler; reflexivity.
  - apply Hexecutor; reflexivity.
Defined.

(** C4 at [*.js] with [ignore: 'a*'] on the input [a.js], which the
    pattern alone accepts. *)
Lemma ignored_input_is_never_matched_witness :
  isMatch (R := node "/") (S := siblings_model) (JStr "a.js") (JStr "*.js") Options.empty
  = ([], inr (RBool true))
  /\ exists m,
       picomatch (R := node "/") (S := siblings_model) (JStr "*.js")
         (Options.with_ignore (JStr "a*") Options.empty) false = inr m
       /\ yields (fun v => reports_true v = false) (Matcher.call m (JStr "a.js") true).
Proof.
  split; [reflexivity |].
  eexists; split; [reflexivity |].
  eapply (@ignored_input_is_never_matched (node "/") siblings_model
            (JStr "*.js") (JStr "a*") (Options.with_ignore (JStr "a*") Options.empty)
            false _ _ eq_refl eq_refl eq_refl eq_refl eq_refl (JStr "a.js") true);
    reflexivity.
Defined.

(** C4 fails with the [g] flag, at the pattern [./a.js] with [ignore:
    './a.js'], on the third call on the input [a.js].  The ignore matcher
    as it is built accepts [a.js].  In the first call both regexes match
    from index 0 and are left with [lastIndex] 4: the input is ignored.  In
    the second call the regex of the pattern fails from index 4 and is
    left with [lastIndex] 0; the executor reports no match, and the ignore
    matcher is not called.  In the third call the regex of the pattern
    matches from 0 and the one of the ignore matcher fails from 4: the
    matcher returns [true]. *)
Lemma ignore_is_bypassed_with_the_g_flag :
  stateless_flags ignore_with_g = false
  /\ picomatch (R := node_objects "/") (S := siblings_model) (JStr "./a.js") ignore_with_g
       false
     = inr (matcher_at 0 0)
  /\ picomatch (R := node_objects "/") (S := siblings_model) (JStr "./a.js")
       (Options.for_ignore ignore_with_g) false
     = inr (ignoring_at 0)
  /\ Matcher.call (ignoring_at 0) (JStr "a.js") false = ([], inr (RBool true))
  /\ (Matcher.call (matcher_at 0 0) (JStr "a.js") false = ([], inr (RBool false))
      /\ ES.exec_at (global_literal "a.js" 0) "a.js"
         = (Some {| ES.index := 0; ES.matched := "a.js" |}, 4))
  /\ (Matcher.call (matcher_at 4 4) (JStr "a.js") false = ([], inr (RBool false))
      /\ ES.exec_at (global_literal "a.js" 4) "a.js" = (None, 0)
      /\ exists t,
           test (R := node_objects "/") (S := siblings_model) (JStr "a.js")
             (global_regex 4) ignore_with_g
             {| Ctx.glob := Some "./a.js"; Ctx.posix := Some false |} = inr t
           /\ TestResult.isMatch t = false)
  /\ Matcher.call (matcher_at 0 4) (JStr "a.js") false = ([], inr (RBool true)).
Proof.
  repeat (split; [reflexivity |]).
  split; [split; reflexivity |].
  split; [| reflexivity].
  repeat (split; [reflexivity |]).
  eexists; split; reflexivity.
Qed.


(** C5 at the patterns of the example. *)
Lemma array_matcher_is_left_to_right_or_witness :
  (isMatch (R := node "/") (S := siblings_model) (JStr "a.a")
     (JArr [JStr "b.*"; JStr "*.a"]) Options.empty = ([], inr (RBool true))
   /\ isMatch (R := node "/") (S := siblings_model) (JStr "a.a") (JStr "b.*")
        Options.empty = ([], inr (RBool false)))
  /\ exists m fns,
       picomatch (R := node "/") (S := siblings_model) (JArr [JStr "b.*"; JStr "*.a"])
         Options.empty false = inr m
       /\ Forall2 (fun glob f =>
                     picomatch (R := node "/") (S := siblings_model) glob Options.empty
                       false = inr f)
            [JStr "b.*"; JStr "*.a"] fns
       /\ forall (s : string) (returnObject : bool),
            Matcher.call m (JStr s) returnObject
            = (concat (map (fun f => fst (Matcher.call f (JStr s) false)) (called fns s)),
               inr (RBool (existsb (fun f => accepts f s) fns))).
Proof.
  destruct (@array_matcher_is_left_to_right_or (node "/") siblings_model) as [Hor Hex].
  split.
  - eapply Hex; try reflexivity. discriminate.
  - eexists.
    destruct (Hor [JStr "b.*"; JStr "*.a"] Options.empty false _ eq_refl)
      as (fns & Hfns & Hcall).
    exists fns; split; [reflexivity | split; [exact Hfns | exact Hcall]].
Defined.

(** C6 at the array [['*.a', '*.b']]: with the flag, the array matcher
    returns [true] on [a.b] and [false] on [a.c]. *)
Lemma array_matcher_returns_booleans_witness :
  exists m,
    picomatch (R := node "/") (S := siblings_model) (JArr [JStr "*.a"; JStr "*.b"])
      Options.empty false = inr m
    /\ Matcher.call m (JStr "a.b") true = Matcher.call m (JStr "a.b") false
    /\ (exists ev, Matcher.call m (JStr "a.b") true = (ev, inr (RBool true)))
    /\ (exists ev, Matcher.call m (JStr "a.c") true = (ev, inr (RBool false))).
Proof.
  eexists; split; [reflexivity |].
  destruct (@array_matcher_returns_booleans (node "/") siblings_model
              [JStr "*.a"; JStr "*.b"] Options.empty false _ eq_refl)
    as (Hflag & fns & Hfns & Hcall).
  split; [apply (Hflag (JStr "a.b") true) |].
  inversion Hfns as [| g1 f1 gs1 fs1 H1 Hrest1]; subst.
  inversion Hrest1 as [| g2 f2 gs2 fs2 H2 Hrest2]; subst.
  inversion Hrest2; subst.
  assert (E1 : f1 = match picomatch (R := node "/") (S := siblings_model) (JStr "*.a")
                            Options.empty false with
                    | inr f => f
                    | inl _ => not_ignored
                    end) by (rewrite H1; reflexivity).
  assert (E2 : f2 = match picomatch (R := node "/") (S := siblings_model) (JStr "*.b")
                            Options.empty false with
                    | inr f => f
                    | inl _ => not_ignored
                    end) by (rewrite H2; reflexivity).
  pose proof (Hcall "a.b" true) as Hb; pose proof (Hcall "a.c" true) as Hc.
  rewrite E1, E2 in Hb, Hc.
  split; [exact Hb | exact Hc].
Defined.

(** C6 fails at the array [['*.a']] and the input [a.a]: called with the
    flag, the array matcher returns [true], where the matcher of [*.a]
    returns its result object. *)
Lemma array_matcher_returns_no_result_object :
  (exists m,
     picomatch (R := node "/") (S := siblings_model) (JArr [JStr "*.a"]) Options.empty false
     = inr m
     /\ Matcher.call m (JStr "a.a") true = ([], inr (RBool true)))
  /\ (exists f r,
        picomatch (R := node "/") (S := siblings_model) (JStr "*.a") Options.empty false
        = inr f
        /\ Matcher.call f (JStr "a.a") true = ([], inr (RObject r))
        /\ Result.isMatch r = true).
Proof.
  split.
  - eexists; split; reflexivity.
  - eexists; eexists; split; [reflexivity | split; reflexivity].
Defined.

(** C3 fails at the pattern [/foo/*.js]: the base keeps its slash. *)
Lemma split_keeps_the_leading_slash :
  split (R := node "/home/user") (S := siblings_model) "/foo/*.js" Options.empty
  = {| Split.base := "/foo"; Split.glob := "*.js"; Split.cwd := "/foo" |}.
Proof. reflexivity. Qed.

(** C1 at the pattern [!a]. *)
Lemma negated_regex_complement_without_line_terminators_witness :
  exists negated inner,
    makeRe (R := node "/") (S := siblings_model) (JStr "!a") Options.empty false true
    = ret (ReRegex {| Regex.re := negated;
                      Regex.state :=
                        Some {| State.output := Some "a"; State.negated := true;
                                State.fastpaths := false |} |})
    /\ ES.source negated = "^(?!" ++ ("^(?:" ++ "a" ++ ")$") ++ ").*$"
    /\ toRegex (R := node "/") ("^(?:" ++ "a" ++ ")$") Options.empty = ret inner
    /\ (forall s,
          regex_accepts negated s = no_line_terminator s && negb (regex_accepts inner s))
    /\ ((exists s, regex_accepts negated s = true)
        <-> (exists s, no_line_terminator s = true /\ regex_accepts inner s = false)).
Proof.
  destruct (@negated_regex_complement_without_line_terminators siblings_model "/"
              "!a" Options.empty
              {| State.output := Some "a"; State.negated := true;
                 State.fastpaths := false |}
              (Some "a") (ES.Seq (ES.Chr "a") ES.Empty) eq_refl eq_refl eq_refl)
    as [_ H].
  exact (H eq_refl eq_refl eq_refl).
Defined.

(** C1 fails at the pattern [!a]: the string made of [b], a line feed and
    [c] is outside the set [^(?:a)$] matches, and the negated regex rejects
    it; with the [contains] option the negated regex rejects [ab], which
    [^(?:a)$] rejects too, and accepts [ba], which [(?:a)] accepts.  It
    fails at the pattern [!(|[^]+)] too, whose negated regex matches no
    string. *)
Lemma negated_regex_is_not_the_complement :
  State.negated (fst (compile_output (S := siblings_model) "!a" Options.empty)) = true
  /\ accepted_by (compiled (S := siblings_model) "/" "!a" Options.empty)
       (String "b" (String "010" "c")) = Some false
  /\ accepted_by (ES.compile "^(?:a)$" "") (String "b" (String "010" "c")) = Some false
  /\ accepted_by (compiled (S := siblings_model) "/" "!a"
                    (Options.with_contains Options.empty)) "ab" = Some false
  /\ accepted_by (ES.compile "^(?:a)$" "") "ab" = Some false
  /\ accepted_by (compiled (S := siblings_model) "/" "!a"
                    (Options.with_contains Options.empty)) "ba" = Some true
  /\ accepted_by (ES.compile "(?:a)" "") "ba" = Some true
  /\ State.negated (fst (compile_output (S := siblings_model) "!(|[^]+)" Options.empty))
     = true
  /\ (forall s,
        accepted_by (compiled (S := siblings_model) "/" "!(|[^]+)" Options.empty) s
        = Some false).
Proof.
  repeat split; try (vm_compute; reflexivity).
  intros s.
  assert (Hc : compiled (S := siblings_model) "/" "!(|[^]+)" Options.empty
               = Some {| ES.source := "^(?!^(?:(|[^]+))$).*$";
                         ES.ignoreCase := false;
                         ES.ast :=
                           ES.Seq ES.Bol
                             (ES.Seq
                                (ES.Look false
                                   (ES.Seq ES.Bol
                                      (ES.Seq (ES.Group everything)
                                         (ES.Seq ES.Eol ES.Empty))))
                                (ES.Seq (ES.Quant ES.Star false ES.Any)
                                   (ES.Seq ES.Eol ES.Empty))) |})
    by reflexivity.
  rewrite Hc; unfold accepted_by, option_map.
  rewrite MatchFacts.negated_accepts; unfold is_nil.
  rewrite MatchFacts.everything_matches; reflexivity.
Qed.

(** C2 at the pattern [(], whose source [^(?:()$] is no regular
    expression. *)
Lemma invalid_source_falls_back_witness :
  makeRe (R := node "/") (S := siblings_model) (JStr "(") Options.empty false false
  = ret (ReRegex (R := node "/")
           {| Regex.re := ES.never : RegExp (Runtime := node "/"); Regex.state := None |})
  /\ makeRe (R := node "/") (S := siblings_model) (JStr "(")
       (Options.with_debug Options.empty) false false = throw SyntaxError
  /\ isMatch (R := node "/") (S := siblings_model) (JStr "a") (JStr "(") Options.empty
     = ([], inr (RBool false))
  /\ (exists ev v,
        matcher (R := node "/") (S := siblings_model) "(" None
          {| Regex.re := ES.never : RegExp (Runtime := node "/"); Regex.state := None |}
          false (Options.with_capture Options.empty) not_ignored (JStr "(") false
        = (ev, inr v)
        /\ reports_true v = false)
  /\ (exists ev v,
        matcher (R := node "/") (S := siblings_model) "(" None
          {| Regex.re := ES.never : RegExp (Runtime := node "/"); Regex.state := None |}
          false Options.empty not_ignored (JStr "(") false
        = (ev, inr v)
        /\ reports_true v = true).
Proof.
  destruct (@invalid_source_falls_back siblings_model "/" "(" Options.empty
              _ _ eq_refl eq_refl eq_refl) as [_ Hquiet].
  destruct (@invalid_source_falls_back siblings_model "/" "("
              (Options.with_debug Options.empty) _ _ eq_refl eq_refl eq_refl)
    as [Hdebug _].
  destruct (@invalid_source_falls_back siblings_model "/" "("
              (Options.with_capture Options.empty) _ _ eq_refl eq_refl eq_refl)
    as [_ Hcapture].
  destruct (Hquiet eq_refl) as (Hmake & _ & _ & _ & Hsame).
  destruct (Hcapture eq_refl) as (_ & _ & _ & Hdecided & _).
  split; [apply Hmake | split; [apply Hdebug; reflexivity | split; [reflexivity |]]].
  split.
  - apply (Hdecided None false not_ignored "(" false); [left |]; reflexivity.
  - apply (Hsame None false "(" false); [reflexivity | reflexivity | left; reflexivity].
Defined.

(** C2 fails at the pattern [(]: its source is no regular expression, and
    yet the matcher reports a match on the input [(], which equals the
    pattern, and, in base-name mode, on the input [/], whose base name is
    empty: the regex [/$^/] accepts the empty string. *)
Lemma fallback_matcher_can_report_a_match :
  ES.parse_source "^(?:()$" = ES.Malformed
  /\ compiled (S := siblings_model) "/" "(" Options.empty = Some ES.never
  /\ isMatch (R := node "/") (S := siblings_model) (JStr "(") (JStr "(") Options.empty
     = ([], inr (RBool true))
  /\ isMatch (R := node "/") (S := siblings_model) (JStr "/") (JStr "(")
       (Options.with_matchBase Options.empty) = ([], inr (RBool true))
  /\ regex_accepts ES.never "" = true.
Proof. repeat split; vm_compute; reflexivity. Qed.

(** C7 at the string [a.b]. *)
Lemma literal_pattern_matches_only_itself_witness :
  isMatch (R := node "/") (S := siblings_model) (JStr "a.b") (JStr "a.b") Options.empty
  = ([], inr (RBool true))
  /\ isMatch (R := node "/") (S := siblings_model) (JStr "a.b") (JStr "a.bx") Options.empty
     = ([], inr (RBool false))
  /\ compile_output (S := siblings_model) "a.b" Options.empty
     = ({| State.output := None; State.negated := false; State.fastpaths := true |},
        Some "a\.b").
Proof.
  destruct (@literal_pattern_matches_only_itself siblings_model "/" "a.b"
              eq_refl eq_refl)
    as (Hsame & _ & Hout & Hother & Hmiss).
  destruct (Hmiss eq_refl) as [Hs Hsx].
  split; [exact Hsame | split; [exact (Hother Hsx) | exact (Hout Hs)]].
Defined.

(* ------------------------------------------------------------------ *)
(** * Instances of the further properties *)

(** The executor on the input [a\b] of a Windows host. *)
Lemma executor_returns_the_formatted_input_witness :
  exists t,
    test (R := node "/") (S := siblings_model) (JStr "a\b")
      {| Regex.re := ES.never : RegExp (Runtime := node "/"); Regex.state := None |}
      Options.empty {| Ctx.glob := Some "*.js"; Ctx.posix := Some true |} = inr t
    /\ TestResult.output t = "a/b"
    /\ TestResult.isMatch t = match_truthy (TestResult.match_ t).
Proof.
  exact (@executor_returns_the_formatted_input (node "/") siblings_model "a\b"
           {| Regex.re := ES.never : RegExp (Runtime := node "/"); Regex.state := None |}
           Options.empty {| Ctx.glob := Some "*.js"; Ctx.posix := Some true |} eq_refl).
Defined.

(** The input [a\b] of a Windows host and the pattern [a/b]. *)
Lemma formatted_input_equal_to_the_pattern_is_a_match_witness :
  test (R := node "/") (S := siblings_model) (JStr "a\b")
    {| Regex.re := ES.never : RegExp (Runtime := node "/"); Regex.state := None |}
    Options.empty {| Ctx.glob := Some "a/b"; Ctx.posix := Some true |}
  = inr {| TestResult.isMatch := true; TestResult.match_ := MBool true;
           TestResult.output := "a/b" |}.
Proof.
  exact (@formatted_input_equal_to_the_pattern_is_a_match (node "/") siblings_model "a\b"
           {| Regex.re := ES.never : RegExp (Runtime := node "/"); Regex.state := None |}
           Options.empty (Some true) eq_refl eq_refl).
Defined.

(** The input [dir/a.js] in base-name mode, with the regex of [a.js]. *)
Lemma executor_leaves_the_decision_to_the_regex_witness :
  test (R := node "/") (S := siblings_model) (JStr "dir/a.js")
    {| Regex.re := literal_regex "a.js" : RegExp (Runtime := node "/");
       Regex.state := None |}
    (Options.with_matchBase Options.empty)
    {| Ctx.glob := Some "a.js"; Ctx.posix := Some false |}
  = inr {| TestResult.isMatch := true; TestResult.match_ := MBool true;
           TestResult.output := "dir/a.js" |}.
Proof.
  exact (@executor_leaves_the_decision_to_the_regex (node "/") siblings_model "dir/a.js"
           "a.js"
           {| Regex.re := literal_regex "a.js" : RegExp (Runtime := node "/");
              Regex.state := None |}
           (Options.with_matchBase Options.empty) false eq_refl
           (or_intror (conj eq_refl eq_refl))).
Defined.

(** [matchBase] on [src/lib/a.js] and on [a.js], with the pattern [*.js]. *)
Lemma matchBase_looks_at_the_base_name_only_witness :
  matchBase (R := node "/") (S := siblings_model) ("src/lib" ++ "/" ++ "a.js")
    (inr (JStr "*.js")) Options.empty None
  = matchBase (R := node "/") (S := siblings_model) "a.js" (inr (JStr "*.js"))
      Options.empty None
  /\ matchBase (R := node "/") (S := siblings_model) ("src/lib" ++ "/" ++ "a.js" ++ "/")
       (inr (JStr "*.js")) Options.empty None
     = matchBase (R := node "/") (S := siblings_model) "a.js" (inr (JStr "*.js"))
         Options.empty None.
Proof.
  exact (@matchBase_looks_at_the_base_name_only siblings_model "/" "src/lib" "a.js"
           (inr (JStr "*.js")) Options.empty None eq_refl eq_refl).
Defined.

(** The matcher of [['*', 'a']] on the empty string. *)
Lemma empty_string_is_never_matched_witness :
  exists m,
    picomatch (R := node "/") (S := siblings_model) (JArr [JStr "*"; JStr "a"])
      Options.empty false = inr m
    /\ exists ev v,
         Matcher.call m (JStr "") true = (ev, inr v)
         /\ reports_true v = false
         /\ forallb is_onResult ev = true.
Proof.
  eexists; split; [reflexivity |].
  exact (@empty_string_is_never_matched (node "/") siblings_model
           (JArr [JStr "*"; JStr "a"]) Options.empty false _ eq_refl true).
Defined.

(** The matcher of [*.js] on a value that is not a string. *)
Lemma non_string_input_is_rejected_witness :
  exists m,
    picomatch (R := node "/") (S := siblings_model) (JStr "*.js") Options.empty false
    = inr m
    /\ Matcher.call m (JOther true) false
       = ([], throw (TypeError "Expected input to be a string")).
Proof.
  eexists; split; [reflexivity |].
  exact (@non_string_input_is_rejected (node "/") siblings_model (JStr "*.js")
           Options.empty false _ (JOther true) eq_refl eq_refl false).
Defined.

(** The matcher of [*.js] on the string [a.js]. *)
Lemma matcher_returns_on_every_string_witness :
  exists m,
    picomatch (R := node "/") (S := siblings_model) (JStr "*.js") Options.empty false
    = inr m
    /\ (exists ev b, Matcher.call m (JStr "a.js") false = (ev, inr (RBool b)))
    /\ (exists ev v, Matcher.call m (JStr "a.js") true = (ev, inr v)).
Proof.
  eexists; split; [reflexivity |].
  exact (@matcher_returns_on_every_string (node "/") siblings_model (JStr "*.js")
           Options.empty false _ eq_refl "a.js").
Defined.

(** The matcher of [*.js] on [a.js], with and without the flag. *)
Lemma result_object_agrees_with_the_boolean_witness :
  exists m,
    picomatch (R := node "/") (S := siblings_model) (JStr "*.js") Options.empty false
    = inr m
    /\ exists ev r,
         Matcher.call m (JStr "a.js") true = (ev, inr (RObject r))
         /\ Matcher.call m (JStr "a.js") false = (ev, inr (RBool (Result.isMatch r)))
         /\ Result.glob r = "*.js"
         /\ Result.input r = "a.js"
         /\ Result.output r = "a.js"
         /\ Result.posix r = false
         /\ Result.state r
            = Some (fst (compile_output (S := siblings_model) "*.js" Options.empty))
         /\ Regex.state (Result.regex r) = None.
Proof.
  eexists; split; [reflexivity |].
  exact (@result_object_agrees_with_the_boolean (node "/") siblings_model "*.js"
           Options.empty false _ eq_refl eq_refl "a.js").
Defined.


(** The matcher of [*.js] with the three callbacks, on [a.js]. *)
Lemma callbacks_follow_the_outcome_witness :
  exists m,
    picomatch (R := node "/") (S := siblings_model) (JStr "*.js")
      (Options.with_callbacks Options.empty) false = inr m
    /\ exists r evi,
         fst (Matcher.call m (JStr "a.js") false)
         = ([OnResult r] ++ evi
            ++ (if accepts m "a.js" then [OnMatch r]
                else if Result.isMatch r then [OnIgnore r] else []))%list
         /\ forallb is_onResult evi = true
         /\ Result.glob r = "*.js"
         /\ Result.input r = "a.js".
Proof.
  eexists; split; [reflexivity |].
  exact (@callbacks_follow_the_outcome (node "/") siblings_model "*.js"
           (Options.with_callbacks Options.empty) false _ eq_refl "a.js" false).
Defined.

(** An array with a nested array, whose patterns are non-empty strings,
    and one that holds the empty string. *)
Lemma factory_throws_exactly_on_invalid_patterns_witness :
  (exists m,
     picomatch (R := node "/") (S := siblings_model)
       (JArr [JStr "*.js"; JArr [JStr "("]]) Options.empty false = inr m)
  /\ picomatch (R := node "/") (S := siblings_model)
       (JArr [JStr "*.js"; JArr [JStr ""]]) Options.empty false
     = throw (TypeError "Expected pattern to be a non-empty string")
  /\ picomatch (R := node "/") (S := siblings_model) (JStr "*.js")
       (Options.with_ignore (JOther true) Options.empty) false
     = throw (TypeError "Expected pattern to be a non-empty string").
Proof.
  split; [| split].
  - exact (@factory_throws_exactly_on_invalid_patterns (node "/") siblings_model
             (JArr [JStr "*.js"; JArr [JStr "("]]) Options.empty false eq_refl).
  - exact (@factory_throws_exactly_on_invalid_patterns (node "/") siblings_model
             (JArr [JStr "*.js"; JArr [JStr ""]]) Options.empty false eq_refl).
  - exact (@factory_throws_exactly_on_invalid_patterns (node "/") siblings_model
             (JStr "*.js") (Options.with_ignore (JOther true) Options.empty) false eq_refl).
Defined.

(** The matcher of [*.js], built with [returnState]. *)
Lemma state_is_attached_on_request_witness :
  exists m,
    picomatch (R := node "/") (S := siblings_model) (JStr "*.js") Options.empty true
    = inr m
    /\ Matcher.state m
       = Some {| State.output := Some "[^\/]*?\.js"; State.negated := false;
                 State.fastpaths := false |}.
Proof.
  eexists; split; [reflexivity |].
  exact (@state_is_attached_on_request (node "/") siblings_model (JStr "*.js")
           Options.empty true _ eq_refl).
Defined.

(** The matcher of [['a', ['b', ['c']]]]. *)
Lemma nested_arrays_are_flattened_witness :
  exists m fns,
    picomatch (R := node "/") (S := siblings_model)
      (JArr [JStr "a"; JArr [JStr "b"; JArr [JStr "c"]]]) Options.empty false = inr m
    /\ Forall2 (fun pattern f =>
                  picomatch (R := node "/") (S := siblings_model) pattern Options.empty
                    false = inr f)
         [JStr "a"; JStr "b"; JStr "c"] fns
    /\ forall s, accepts m s = existsb (fun f => accepts f s) fns.
Proof.
  eexists.
  destruct (@nested_arrays_are_flattened (node "/") siblings_model
              (JArr [JStr "a"; JArr [JStr "b"; JArr [JStr "c"]]]) Options.empty false _
              eq_refl) as (fns & Hfns & Hacc).
  exists fns; split; [reflexivity | split; assumption].
Defined.


(** The pattern [!a]. *)
Lemma negation_comes_from_the_syntax_compiler_witness :
  has_glob_chars (strip_dot_slash "!a") = true
  /\ compile_output (S := siblings_model) "!a" Options.empty
     = (parse (Siblings := siblings_model) (strip_dot_slash "!a") Options.empty,
        State.output (parse (Siblings := siblings_model) (strip_dot_slash "!a")
                        Options.empty))
  /\ State.negated (parse (Siblings := siblings_model) (strip_dot_slash "!a")
                      Options.empty) = true.
Proof.
  exact (@negation_comes_from_the_syntax_compiler siblings_model "!a" Options.empty
           eq_refl).
Defined.

(** The pattern [a.b] with [nocase], on [A.B], and without it. *)
Lemma literal_regex_accepts_exactly_the_pattern_witness :
  accepted_by (compiled (S := siblings_model) "/" "a.b" (Options.with_nocase Options.empty))
    "A.B" = Some true
  /\ accepted_by (compiled (S := siblings_model) "/" "a.b" Options.empty) "A.B"
     = Some false
  /\ accepted_by (compiled (S := siblings_model) "/" "a.b" Options.empty) "axb"
     = Some false.
Proof.
  destruct (@literal_regex_accepts_exactly_the_pattern siblings_model "/" "a.b"
              (Options.with_nocase Options.empty) "A.B" eq_refl eq_refl
              (@no_dot_uncompiled siblings_model "a.b" _ eq_refl eq_refl) eq_refl eq_refl)
    as [Hnocase _].
  destruct (@literal_regex_accepts_exactly_the_pattern siblings_model "/" "a.b"
              Options.empty "A.B" eq_refl eq_refl
              (@no_dot_uncompiled siblings_model "a.b" _ eq_refl eq_refl) eq_refl eq_refl)
    as [_ Hcase].
  destruct (@literal_regex_accepts_exactly_the_pattern siblings_model "/" "a.b"
              Options.empty "axb" eq_refl eq_refl
              (@no_dot_uncompiled siblings_model "a.b" _ eq_refl eq_refl) eq_refl eq_refl)
    as [_ Hdot].
  split; [exact Hnocase | split; [exact (Hcase eq_refl) | exact (Hdot eq_refl)]].
Defined.

(** The pattern [b.c] with [contains], on [a/b.c/d]. *)
Lemma literal_regex_with_contains_accepts_what_contains_the_pattern_witness :
  accepted_by (compiled (S := siblings_model) "/" "b.c"
                 (Options.with_contains Options.empty)) "a/b.c/d" = Some true
  /\ accepted_by (compiled (S := siblings_model) "/" "b.c"
                    (Options.with_contains Options.empty)) "a/bxc/d" = Some false.
Proof.
  split.
  - exact (@literal_regex_with_contains_accepts_what_contains_the_pattern siblings_model
             "/" "b.c" (Options.with_contains Options.empty) "a/b.c/d" eq_refl eq_refl
             (@no_dot_uncompiled siblings_model "b.c" _ eq_refl eq_refl) eq_refl eq_refl).
  - exact (@literal_regex_with_contains_accepts_what_contains_the_pattern siblings_model
             "/" "b.c" (Options.with_contains Options.empty) "a/bxc/d" eq_refl eq_refl
             (@no_dot_uncompiled siblings_model "b.c" _ eq_refl eq_refl) eq_refl eq_refl).
Defined.

(** The pattern [./a.js] accepts [a.js]; the pattern [a.js] does not
    accept [./a.js]. *)
Lemma plain_pattern_accepts_exactly_itself_witness :
  isMatch (R := node "/") (S := siblings_model) (JStr "a.js") (JStr "./a.js") Options.empty
  = ([], inr (RBool true))
  /\ isMatch (R := node "/") (S := siblings_model) (JStr "./a.js") (JStr "a.js")
       Options.empty
     = ([], inr (RBool false)).
Proof.
  split.
  - exact (@plain_pattern_accepts_exactly_itself siblings_model "/" "./a.js" "a.js"
             eq_refl eq_refl eq_refl
             (@no_dot_uncompiled siblings_model "./a.js" _ eq_refl eq_refl)).
  - exact (@plain_pattern_accepts_exactly_itself siblings_model "/" "a.js" "./a.js"
             eq_refl eq_refl eq_refl
             (@no_dot_uncompiled siblings_model "a.js" _ eq_refl eq_refl)).
Defined.

(** The pattern [*.js], whose fragment is [[^\/]*?\.js]. *)
Lemma regex_accepts_what_the_fragment_matches_entirely_witness :
  accepted_by (compiled (S := siblings_model) "/" "*.js" Options.empty) "a.js" = Some true
  /\ accepted_by (compiled (S := siblings_model) "/" "*.js" Options.empty) "a.jsx"
     = Some false.
Proof.
  split.
  - exact (@regex_accepts_what_the_fragment_matches_entirely siblings_model "/" "*.js"
             Options.empty _ _ _ "a.js" eq_refl eq_refl eq_refl eq_refl eq_refl eq_refl).
  - exact (@regex_accepts_what_the_fragment_matches_entirely siblings_model "/" "*.js"
             Options.empty _ _ _ "a.jsx" eq_refl eq_refl eq_refl eq_refl eq_refl eq_refl).
Defined.

(** [join('a\b', 'c', '**/*.js')] *)
Lemma join_keeps_a_plain_glob_at_the_end_witness :
  exists q,
    join (["a\b"; "c"] ++ ["**/*.js"]) = ret (q ++ "**/*.js")
    /\ (q = "" \/ ends_with "/" q = true)
    /\ string_exists (Ascii.eqb "\") q = false.
Proof.
  exact (@join_keeps_a_plain_glob_at_the_end ["a\b"; "c"] "**/*.js" eq_refl).
Defined.

(** [resolve('a', '../b', '**/*.js')] in the directory [/home/user]. *)
Lemma resolve_returns_an_absolute_path_witness :
  exists q,
    resolve (R := node "/home/user") (["a"; "../b"] ++ ["**/*.js"]) = ret (q ++ "**/*.js")
    /\ Path.isAbsolute (q ++ "**/*.js") = true
    /\ ends_with "/" q = true
    /\ string_exists (Ascii.eqb "\") q = false.
Proof.
  exact (@resolve_returns_an_absolute_path (node "/home/user") ["a"; "../b"] "**/*.js"
           eq_refl eq_refl).
Defined.

(** [split('src/*.js')] and [split('/foo/*.js')] in the directory
    [/home/user]. *)
Lemma split_returns_an_absolute_cwd_witness :
  Path.isAbsolute
    (Split.cwd (split (R := node "/home/user") (S := siblings_model) "src/*.js"
                  Options.empty)) = true
  /\ (Path.isAbsolute (Scan.base (scan (Siblings := siblings_model) "/foo/*.js"
                                    Options.empty)) = true
      /\ Split.cwd (split (R := node "/home/user") (S := siblings_model) "/foo/*.js"
                      Options.empty)
         = Path.resolve "/home/user" ["/foo"]).
Proof.
  destruct (@split_returns_an_absolute_cwd siblings_model "/home/user" "src/*.js"
              Options.empty eq_refl) as [Habs _].
  destruct (@split_returns_an_absolute_cwd siblings_model "/home/user" "/foo/*.js"
              Options.empty eq_refl) as [_ Hbase].
  split; [exact Habs | split; [reflexivity | exact (Hbase eq_refl)]].
Defined.

(** The pattern [*.js] with [contains]. *)
Lemma regex_with_contains_accepts_what_the_fragment_matches_somewhere_witness :
  accepted_by (compiled (S := siblings_model) "/" "*.js"
                 (Options.with_contains Options.empty)) "dir/a.js.map" = Some true
  /\ accepted_by (compiled (S := siblings_model) "/" "*.js"
                    (Options.with_contains Options.empty)) "a.ts" = Some false.
Proof.
  split.
  - exact (@regex_with_contains_accepts_what_the_fragment_matches_somewhere siblings_model
             "/" "*.js" (Options.with_contains Options.empty) _ _ _ "dir/a.js.map"
             eq_refl eq_refl eq_refl eq_refl eq_refl eq_refl).
  - exact (@regex_with_contains_accepts_what_the_fragment_matches_somewhere siblings_model
             "/" "*.js" (Options.with_contains Options.empty) _ _ _ "a.ts"
             eq_refl eq_refl eq_refl eq_refl eq_refl eq_refl).
Defined.
